(** * OpenTheremin4 matrix display: frequency acquisition, pitch mapper and
      tuner renderer

    Shallow embedding of
    - [firmware/OT4-HT-display-firmware/src/freq.cpp]   (module [Freq]),
    - [firmware/OT4-HT-display-firmware/src/HT1635.cpp] (modules [HT] and
      [HAL]),
    - [firmware/OT4-HT-display-firmware/src/display_main.cpp] (module
      [Main]),
    with the AVR [float] (IEEE 754 binary32) modelled on the Standard
    Library's [SpecFloat] at precision 24 and maximal exponent 128. *)

From Stdlib Require Import ZArith Lia Bool List String Ascii.
From Stdlib Require Import DecimalString.
From Stdlib Require Import Floats.SpecFloat.
From stdpp Require Import base list.

Import ListNotations.
Local Open Scope Z_scope.

(** ** Fixed-width integers of the AVR target *)

Module Int.

Definition wrap_u (bits z : Z) : Z := z mod 2 ^ bits.

Definition wrap_s (bits z : Z) : Z :=
  (z + 2 ^ (bits - 1)) mod 2 ^ bits - 2 ^ (bits - 1).

Definition u8 := wrap_u 8.
Definition u16 := wrap_u 16.
Definition u32 := wrap_u 32.
Definition i8 := wrap_s 8.
Definition i16 := wrap_s 16.

(** Arduino's [constrain(x, lo, hi)] macro. *)
Definition constrain (x lo hi : Z) : Z :=
  if x <? lo then lo else if x >? hi then hi else x.

End Int.

(** ** binary32 floating point *)

Module F32.

Definition prec : Z := 24.
Definition emax : Z := 128.

Definition float32 : Type := spec_float.

Definition add : float32 -> float32 -> float32 := SFadd prec emax.
Definition sub : float32 -> float32 -> float32 := SFsub prec emax.
Definition mul : float32 -> float32 -> float32 := SFmul prec emax.
Definition div : float32 -> float32 -> float32 := SFdiv prec emax.
Definition neg : float32 -> float32 := SFopp.

(** C comparison operators; each is false as soon as one side is NaN. *)
Definition ltb (x y : float32) : bool := SFltb x y.
Definition leb (x y : float32) : bool := SFleb x y.
Definition gtb (x y : float32) : bool := SFltb y x.
Definition geb (x y : float32) : bool := SFleb y x.

Definition NaN : float32 := S754_nan.
Definition zero : float32 := S754_zero false.

Definition is_nan (x : float32) : bool :=
  match x with S754_nan => true | _ => false end.

(** [isfinite] of <math.h>. *)
Definition isfinite (x : float32) : bool :=
  match x with
  | S754_zero _ | S754_finite _ _ _ => true
  | S754_infinity _ | S754_nan => false
  end.

(** A finite float above zero. *)
Definition is_pos_finite (x : float32) : bool :=
  match x with S754_finite false _ _ => true | _ => false end.

(** A float that is neither NaN nor below zero. *)
Definition nonneg (x : float32) : bool :=
  match x with
  | S754_zero _ | S754_infinity false | S754_finite false _ _ => true
  | _ => false
  end.



(** Integer to float conversion (round to nearest even). *)
Definition of_Z (z : Z) : float32 := binary_normalize prec emax z 0 false.

(** The binary32 nearest to the decimal literal [n / d]; this is how the
    compiler reads a literal such as [49.99f]. *)
Definition lit (n : Z) (d : positive) : float32 :=
  match n with
  | Z0 => S754_zero false
  | Zpos p => SFdiv prec emax (S754_finite false p 0) (S754_finite false d 0)
  | Zneg p => SFdiv prec emax (S754_finite true p 0) (S754_finite false d 0)
  end.

(** Float to integer conversion: truncation toward zero.  C leaves the
    conversion of NaN and of the infinities undefined; the model returns 0
    there. *)
Definition trunc (x : float32) : Z :=
  match x with
  | S754_finite s m e => cond_Zopp s (Z.shiftl (Zpos m) e)
  | _ => 0
  end.

(** [floorf] of <math.h>. *)
Definition floorf (x : float32) : float32 :=
  match x with
  | S754_finite s m e =>
      if 0 <=? e then x
      else
        let q := Z.shiftl (Zpos m) e in
        let exact := Z.shiftl q (- e) =? Zpos m in
        if s then (if exact then of_Z (- q) else of_Z (- (q + 1)))
        else of_Z q
  | _ => x
  end.

(** [roundf] of <math.h>: to nearest integer, halves away from zero. *)
Definition roundf (x : float32) : float32 :=
  match x with
  | S754_finite s m e =>
      if 0 <=? e then x
      else
        let r := (Z.shiftl (Zpos m) (e + 1) + 1) / 2 in
        if r =? 0 then S754_zero s else of_Z (cond_Zopp s r)
  | _ => x
  end.

End F32.

Import F32.

(** ** Frequency acquisition engine (freq.cpp) *)

Module Freq.

(** Modelled from the spec: [F_CPU] comes from the build system and is not
    in the sources; the header of freq.cpp fixes the Timer1 tick at 2 MHz
    for the 16 MHz board. *)
Definition F_CPU : Z := 16000000.

Definition TIMER1_PRESCALER : Z := 8.
Definition TIMER1_CLK_HZ : Z := F_CPU / TIMER1_PRESCALER.

Definition FREQ_MIN_HZ : float32 := Eval vm_compute in lit 30 1.
Definition FREQ_MAX_HZ : float32 := Eval vm_compute in lit 10000 1.

Definition TICKS_MIN : Z :=
  Eval vm_compute in Int.u32 (trunc (div (of_Z TIMER1_CLK_HZ) FREQ_MAX_HZ)).
Definition TICKS_MAX : Z :=
  Eval vm_compute in Int.u32 (trunc (div (of_Z TIMER1_CLK_HZ) FREQ_MIN_HZ)).

Definition NO_SIGNAL_TIMEOUT_MS : Z := 120.

Definition EMA_NUM : Z := 1.
Definition EMA_DEN : Z := 4.

(** The module's static variables. *)
Record state : Type := mkState {
  s_ovf : Z;              (* volatile uint16_t *)
  s_icr32 : Z;            (* volatile uint32_t *)
  s_newCap : bool;        (* volatile bool *)
  s_prevIcr32 : Z;        (* uint32_t *)
  s_freq_ema : float32;
  s_freq_raw : float32;
  s_lastOkMs : Z          (* uint32_t *)
}.

(** [freq_init]; [now] is the value [millis()] returns. *)
Definition freq_init (now : Z) : state :=
  {| s_ovf := 0;
     s_icr32 := 0;
     s_newCap := false;
     s_prevIcr32 := 0;
     s_freq_ema := NaN;
     s_freq_raw := NaN;
     s_lastOkMs := Int.u32 now |}.

(** [ISR(TIMER1_CAPT_vect)]; [icr] is the latched ICR1 and [tov] the
    pending-overflow flag TOV1 of TIFR1. *)
Definition isr_capt (icr : Z) (tov : bool) (st : state) : state :=
  let ovf := s_ovf st in
  let ovf := if tov && (icr <? 32768) then Int.u16 (ovf + 1) else ovf in
  {| s_ovf := s_ovf st;
     s_icr32 := Z.lor (Int.u32 (Z.shiftl ovf 16)) icr;
     s_newCap := true;
     s_prevIcr32 := s_prevIcr32 st;
     s_freq_ema := s_freq_ema st;
     s_freq_raw := s_freq_raw st;
     s_lastOkMs := s_lastOkMs st |}.

(** [ISR(TIMER1_OVF_vect)]. *)
Definition isr_ovf (st : state) : state :=
  {| s_ovf := Int.u16 (s_ovf st + 1);
     s_icr32 := s_icr32 st;
     s_newCap := s_newCap st;
     s_prevIcr32 := s_prevIcr32 st;
     s_freq_ema := s_freq_ema st;
     s_freq_raw := s_freq_raw st;
     s_lastOkMs := s_lastOkMs st |}.

Definition set_newCap (b : bool) (st : state) : state :=
  {| s_ovf := s_ovf st; s_icr32 := s_icr32 st; s_newCap := b;
     s_prevIcr32 := s_prevIcr32 st; s_freq_ema := s_freq_ema st;
     s_freq_raw := s_freq_raw st; s_lastOkMs := s_lastOkMs st |}.

Definition set_prevIcr32 (v : Z) (st : state) : state :=
  {| s_ovf := s_ovf st; s_icr32 := s_icr32 st; s_newCap := s_newCap st;
     s_prevIcr32 := v; s_freq_ema := s_freq_ema st;
     s_freq_raw := s_freq_raw st; s_lastOkMs := s_lastOkMs st |}.

Definition set_valid (raw ema : float32) (now : Z) (st : state) : state :=
  {| s_ovf := s_ovf st; s_icr32 := s_icr32 st; s_newCap := s_newCap st;
     s_prevIcr32 := s_prevIcr32 st; s_freq_ema := ema;
     s_freq_raw := raw; s_lastOkMs := Int.u32 now |}.

(** The raw frequency of a period of [ticks] timer ticks (line 146). *)
Definition raw_hz (ticks : Z) : float32 :=
  div (of_Z TIMER1_CLK_HZ) (of_Z ticks).

(** The NaN-safe exponential moving average (lines 152-157). *)
Definition ema_update (ema f : float32) : float32 :=
  if negb (isfinite ema) then f
  else add ema (mul (sub f ema) (div (of_Z EMA_NUM) (of_Z EMA_DEN))).

(** The band check and the update of the estimate (lines 145-161). *)
Definition accept (ticks now : Z) (st : state) : state :=
  if (TICKS_MIN <=? ticks) && (ticks <=? TICKS_MAX) then
    let f := raw_hz ticks in
    if isfinite f then set_valid f (ema_update (s_freq_ema st) f) now st
    else st
  else st.

(** The value of the no-signal sentinel (line 167). *)
Definition NO_SIGNAL : float32 := zero.

(** The timeout check that ends [freq_read] (lines 166-170). *)
Definition timeout_check (now : Z) (st : state) : float32 :=
  if Int.u32 (Int.u32 now - s_lastOkMs st) >? NO_SIGNAL_TIMEOUT_MS
  then NO_SIGNAL
  else s_freq_ema st.

(** [freq_read].  The function calls [millis()] at most twice: [t_ok] is
    the value it reads when a sample is accepted (line 159) and [t_chk] the
    value it reads for the timeout check (line 166). *)
Definition freq_read (t_ok t_chk : Z) (st : state) : float32 * state :=
  if s_newCap st then
    let cap := s_icr32 st in
    let st := set_newCap false st in
    if s_prevIcr32 st =? 0 then
      (s_freq_ema st, set_prevIcr32 cap st)
    else
      let ticks := Int.u32 (cap - s_prevIcr32 st) in
      let st := set_prevIcr32 cap st in
      let st := accept ticks t_ok st in
      (timeout_check t_chk st, st)
  else
    (timeout_check t_chk st, st).

(** The events seen by the module, for whole runs. *)
Inductive event : Type :=
| EvCapture (icr : Z) (tov : bool)
| EvOverflow
| EvRead (t_ok t_chk : Z).

Definition step (st : state) (ev : event) : state * option float32 :=
  match ev with
  | EvCapture icr tov => (isr_capt icr tov st, None)
  | EvOverflow => (isr_ovf st, None)
  | EvRead t_ok t_chk =>
      let '(r, st') := freq_read t_ok t_chk st in (st', Some r)
  end.

(** Runs the events in order; returns the final state and the values
    returned by the reads, oldest first. *)
Fixpoint run (st : state) (evs : list event) : state * list float32 :=
  match evs with
  | [] => (st, [])
  | ev :: evs' =>
      let '(st1, r) := step st ev in
      let '(st2, rs) := run st1 evs' in
      (st2, match r with Some x => x :: rs | None => rs end)
  end.

End Freq.

(** ** HT1635 display driver and tuner renderer (HT1635.cpp) *)

Module HT.

(** *** The I2C bus: the calls made on Arduino's [Wire] and [delay] *)

Inductive wire : Type :=
| Begin (addr : Z)      (* Wire.beginTransmission *)
| Write (b : Z)         (* Wire.write, one byte *)
| End_                  (* Wire.endTransmission *)
| Delay (ms : Z).

Definition CMD_DISPLAY_DATA_INPUT_COMMAND : Z := 128.
Definition HT1635_I2C_ADDRESS : Z := 104.
Definition HT_RAM_LAST_ADDRESS : Z := 40.

Inductive tuner_view_mode_t : Type := numeric | bar_graph | piano_view.

Definition mode_eqb (a b : tuner_view_mode_t) : bool :=
  match a, b with
  | numeric, numeric | bar_graph, bar_graph | piano_view, piano_view => true
  | _, _ => false
  end.

(** The object's fields used by the renderer, and the file's statics. *)
Record state : Type := mkState {
  _device_i2c_addr : Z;                 (* uint8_t *)
  _memory_pointer : Z;                  (* uint8_t *)
  _bitmap_buffer : list Z;              (* uint8_t [40] *)
  _tuner_view_mode : tuner_view_mode_t;
  s_prev_col : Z;                       (* int8_t *)
  s_prev_note_idx : Z;                  (* uint8_t *)
  s_prev_alt : Z;                       (* int8_t *)
  s_prev_octave : Z                     (* int8_t *)
}.

(** The tables of bitmap_fonts.h, which is not among the sources: each is
    read as [table index row]. *)
Record rom : Type := mkRom {
  Font_6x8 : Z -> Z -> Z;
  font_small_numbers : Z -> Z -> Z;
  font_tall6_notes_condensed : Z -> Z -> Z;
  font_tall6_alterations : Z -> Z -> Z;
  font_micro_numbers : Z -> Z -> Z;
  font_keyboard : list Z
}.

(** *** A state and bus-trace monad for the member functions *)

Definition M (A : Type) : Type := state -> A * state * list wire.

Definition ret {A} (a : A) : M A := fun st => (a, st, []).

Definition bind {A B} (c : M A) (k : A -> M B) : M B :=
  fun st =>
    let '(a, st1, t1) := c st in
    let '(b, st2, t2) := k a st1 in
    (b, st2, t1 ++ t2).

Definition get : M state := fun st => (st, st, []).
Definition put (st' : state) : M unit := fun _ => (tt, st', []).
Definition emit (w : list wire) : M unit := fun st => (tt, st, w).

Declare Scope ht_scope.
Delimit Scope ht_scope with ht.
Notation "x <- c ;; k" := (bind c (fun x => k))
  (at level 100, c at next level, right associativity) : ht_scope.
Notation "c ;;; k" := (bind c (fun _ => k))
  (at level 100, right associativity) : ht_scope.
Local Open Scope ht_scope.

Definition trace_of {A} (r : A * state * list wire) : list wire := snd r.
Definition state_of {A} (r : A * state * list wire) : state := snd (fst r).
Definition value_of {A} (r : A * state * list wire) : A := fst (fst r).

Definition set_memory_pointer (v : Z) : M unit :=
  fun st =>
    (tt, {| _device_i2c_addr := _device_i2c_addr st;
            _memory_pointer := Int.u8 v;
            _bitmap_buffer := _bitmap_buffer st;
            _tuner_view_mode := _tuner_view_mode st;
            s_prev_col := s_prev_col st;
            s_prev_note_idx := s_prev_note_idx st;
            s_prev_alt := s_prev_alt st;
            s_prev_octave := s_prev_octave st |}, []).

Definition set_bitmap_buffer (b : list Z) : M unit :=
  fun st =>
    (tt, {| _device_i2c_addr := _device_i2c_addr st;
            _memory_pointer := _memory_pointer st;
            _bitmap_buffer := b;
            _tuner_view_mode := _tuner_view_mode st;
            s_prev_col := s_prev_col st;
            s_prev_note_idx := s_prev_note_idx st;
            s_prev_alt := s_prev_alt st;
            s_prev_octave := s_prev_octave st |}, []).

Definition set_mode (m : tuner_view_mode_t) : M unit :=
  fun st =>
    (tt, {| _device_i2c_addr := _device_i2c_addr st;
            _memory_pointer := _memory_pointer st;
            _bitmap_buffer := _bitmap_buffer st;
            _tuner_view_mode := m;
            s_prev_col := s_prev_col st;
            s_prev_note_idx := s_prev_note_idx st;
            s_prev_alt := s_prev_alt st;
            s_prev_octave := s_prev_octave st |}, []).

Definition set_prev_col (c : Z) : M unit :=
  fun st =>
    (tt, {| _device_i2c_addr := _device_i2c_addr st;
            _memory_pointer := _memory_pointer st;
            _bitmap_buffer := _bitmap_buffer st;
            _tuner_view_mode := _tuner_view_mode st;
            s_prev_col := c;
            s_prev_note_idx := s_prev_note_idx st;
            s_prev_alt := s_prev_alt st;
            s_prev_octave := s_prev_octave st |}, []).

Definition set_prev_label (n a o : Z) : M unit :=
  fun st =>
    (tt, {| _device_i2c_addr := _device_i2c_addr st;
            _memory_pointer := _memory_pointer st;
            _bitmap_buffer := _bitmap_buffer st;
            _tuner_view_mode := _tuner_view_mode st;
            s_prev_col := s_prev_col st;
            s_prev_note_idx := n;
            s_prev_alt := a;
            s_prev_octave := o |}, []).

(** [Wire.beginTransmission(_device_i2c_addr)] followed by the command
    byte, as every data transaction starts. *)
Definition begin_data : M unit :=
  st <- get ;;
  emit [Begin (_device_i2c_addr st); Write CMD_DISPLAY_DATA_INPUT_COMMAND].

(** Reads [_bitmap_buffer[i]]. *)
Definition buf_get (b : list Z) (i : Z) : Z := nth (Z.to_nat i) b 0.

(** Writes [_bitmap_buffer[i] = v]. *)
Definition buf_set (b : list Z) (i v : Z) : list Z := <[Z.to_nat i := v]> b.

(** *** Float constants of HT1635.cpp and HT1635.h *)

Definition c_0_5 : float32 := Eval vm_compute in lit 5 10.
Definition c_1 : float32 := Eval vm_compute in lit 1 1.
Definition c_12 : float32 := Eval vm_compute in lit 12 1.
Definition c_69 : float32 := Eval vm_compute in lit 69 1.
Definition c_100 : float32 := Eval vm_compute in lit 100 1.
Definition c_440 : float32 := Eval vm_compute in lit 440 1.
Definition c_49_99 : float32 := Eval vm_compute in lit 4999 100.
Definition INV_LN2 : float32 :=
  Eval vm_compute in lit 14426950408889634 10000000000000000.
Definition A2C4 : float32 :=
  Eval vm_compute in lit 5946035575013605 10000000000000000.

(** *** Pitch mapper *)

Record note : Type := mkNote {
  name : string;          (* the returned C string *)
  cent_drift : float32;   (* the value stored through [cent_drift] *)
  midi_note : Z           (* the value stored through [midi_note] *)
}.

Definition note_names : list string :=
  ["C "; "C#"; "D "; "D#"; "E "; "F "; "F#"; "G "; "G#"; "A "; "A#"; "B "]%string.

Definition char_of (code : Z) : ascii := ascii_of_nat (Z.to_nat (Int.u8 code)).

(** The octave suffix written into [result] from index 2 on
    (lines 96-107). *)
Definition octave_suffix (octave : Z) : string :=
  let o := octave in
  let sign := if o <? 0 then String "-" EmptyString else EmptyString in
  let o := if o <? 0 then Int.i8 (- o) else o in
  let ten := if o >=? 10 then String "1" EmptyString else EmptyString in
  let o := if o >=? 10 then Int.i8 (o - 10) else o in
  (sign ++ ten ++ String (char_of (48 + o)) EmptyString)%string.

Definition note_name (note_index octave : Z) : string :=
  (substring 0 2 (nth (Z.to_nat note_index) note_names ""%string)
   ++ octave_suffix octave)%string.

(** "Cheap, sign-correct rounding to nearest int" (line 75). *)
Definition round_midi (midi_f : float32) : Z :=
  Int.i16 (trunc (add midi_f (if geb midi_f zero then c_0_5 else neg c_0_5))).

(** The clamp of the cents (lines 83-84). *)
Definition clamp_cents (cents : float32) : float32 :=
  if gtb cents c_49_99 then c_49_99
  else if ltb cents (neg c_49_99) then neg c_49_99
  else cents.

Section Renderer.

(** [logf] of avr-libc. *)
Variable logf : float32 -> float32.

Variable tables : rom.

(** The reference pitch after the substitution of the default
    (lines 59-61). *)
Definition effective_reference (pitch_concert_a : float32) : float32 :=
  if negb (isfinite pitch_concert_a) || leb pitch_concert_a zero
  then c_440 else pitch_concert_a.

(** The MIDI note as a float (lines 69-72). *)
Definition midi_float (freq pitch_concert_a : float32) : float32 :=
  let ratio := mul (logf (div freq pitch_concert_a)) INV_LN2 in
  add c_69 (mul c_12 ratio).

(** [HT1635::frequency_to_note], called with both pointers non-null. *)
Definition frequency_to_note (freq pitch_concert_a : float32) : note :=
  if negb (isfinite freq) || ltb freq c_1 then
    {| name := ""; cent_drift := zero; midi_note := 0 |}
  else
    let pitch_concert_a := effective_reference pitch_concert_a in
    let midi_f := midi_float freq pitch_concert_a in
    let midi_i := round_midi midi_f in
    let note_index := Int.u8 (Z.rem (Z.rem midi_i 12 + 12) 12) in
    let octave := Int.i8 (Z.quot midi_i 12 - 1) in
    let cents := clamp_cents (mul (sub midi_f (of_Z midi_i)) c_100) in
    {| name := note_name note_index octave;
       cent_drift := cents;
       midi_note := midi_i |}.

(** *** Device access *)

(** [HT1635::write_byte]. *)
Definition write_byte (ramByteIndex value : Z) : M Z :=
  set_memory_pointer ramByteIndex ;;;
  begin_data ;;;
  st <- get ;;
  emit [Write (Int.u8 (_memory_pointer st * 2)); Write value; End_; Delay 1] ;;;
  set_memory_pointer (_memory_pointer st + 2) ;;;
  st <- get ;;
  ret (_memory_pointer st).

(** [HT1635::ParamTx]: eight copies of [val] from RAM address [rown]. *)
Definition ParamTx (val rown : Z) : M Z :=
  set_memory_pointer rown ;;;
  begin_data ;;;
  emit (Write rown :: repeat (Write val) 8) ;;;
  st <- get ;;
  set_memory_pointer (_memory_pointer st + 16) ;;;
  emit [End_; Delay 1] ;;;
  st <- get ;;
  ret (_memory_pointer st).

(** [HT1635::clear_display]. *)
Definition clear_display : M unit :=
  st <- get ;;
  set_bitmap_buffer (repeat 0 40) ;;;
  row <- ParamTx 0 0 ;;
  row <- ParamTx 0 row ;;
  row <- ParamTx 0 row ;;
  row <- ParamTx 0 row ;;
  row <- ParamTx 0 row ;;
  set_memory_pointer 0.

(** One pass of the loop of [HT1635::i2c_sendout_bitmap]; [n] bounds the
    number of transactions left. *)
Fixpoint sendout_loop (n : nat) (i ram_addr : Z) : M unit :=
  match n with
  | O => ret tt
  | S n' =>
      if i <? HT_RAM_LAST_ADDRESS then
        st <- get ;;
        let bytes_left := Int.u8 (HT_RAM_LAST_ADDRESS - i) in
        let bytes_to_send := if bytes_left >? 30 then 30 else bytes_left in
        begin_data ;;;
        emit (Write ram_addr ::
              map (fun j => Write (buf_get (_bitmap_buffer st) (i + Z.of_nat j)))
                  (seq 0 (Z.to_nat bytes_to_send))) ;;;
        emit [End_; Delay 1] ;;;
        sendout_loop n' (Int.u8 (i + bytes_to_send))
                     (Int.u8 (ram_addr + 2 * bytes_to_send))
      else ret tt
  end.

(** [HT1635::i2c_sendout_bitmap]: every pass sends at least one byte, so
    40 passes always reach the end of the buffer. *)
Definition i2c_sendout_bitmap (start_byte_index : Z) : M unit :=
  sendout_loop 40 start_byte_index (Int.u8 (start_byte_index * 2)).

(** *** Piano keyboard view *)

Definition kCol2NoteIdx : list Z :=
  [6;0;0;0; 0;1;1;1; 1;2;2;2; 2;3;3;3; 3;4;4;4; 4;5;5;5; 5;6;6;6].

Definition kCol2Alter : list Z :=
  [1;-1;0;1; 1;-1;0;1; 1;-1;0;1; 1;-1;0;1; 1;-1;0;1; 1;-1;0;1; 1;-1;0;1].

Definition note_pixel_center : list Z :=
  [2; 4; 6; 8; 10; 14; 16; 18; 20; 22; 24; 26; 30].

(** [col_to_buf_row6]: buffer index and bit mask of a column. *)
Definition col_to_buf_row6 (col : Z) : Z * Z :=
  let byte_idx := Int.u8 (col / 8) in
  let bit_idx := Int.u8 (7 - col mod 8) in
  (Int.u8 (byte_idx * 8 + 6), Int.u8 (Z.shiftl 1 bit_idx)).

(** [HT1635::display_keyboard]. *)
Definition display_keyboard : M unit :=
  st <- get ;;
  set_bitmap_buffer (font_keyboard tables
                     ++ drop (length (font_keyboard tables)) (_bitmap_buffer st)) ;;;
  i2c_sendout_bitmap 0 ;;;
  set_prev_col (-1) ;;;
  set_prev_label 255 99 99.

(** Semitones from C4 (lines 262-263). *)
Definition semitones_from_c4 (freq ref_a4 : float32) : float32 :=
  let ref_c4 := mul ref_a4 A2C4 in
  mul c_12 (mul (logf (div freq ref_c4)) INV_LN2).

(** The lower semitone bin (line 267). *)
Definition base_semitone (st_c : float32) : Z := Int.i16 (trunc (floorf st_c)).

(** The cursor column of a semitone position (lines 267-280). *)
Definition column_of_semitones (st_c : float32) : Z :=
  let base_st := base_semitone st_c in
  let frac := sub st_c (of_Z base_st) in
  let frac := if ltb frac zero then zero else frac in
  let idx := Int.u8 (Z.rem (Z.rem base_st 12 + 12) 12) in
  let col_f :=
    add (mul (of_Z (nth (Z.to_nat idx) note_pixel_center 0)) (sub c_1 frac))
        (mul (of_Z (nth (Z.to_nat (idx + 1)) note_pixel_center 0)) frac) in
  let col := Int.i16 (trunc (add col_f c_0_5)) in
  Int.constrain col 0 27.

(** The octave shown next to the note (lines 268-269 and 311). *)
Definition octave_of_semitones (st_c : float32) : Z :=
  let midi_base := Int.i16 (60 + base_semitone st_c) in
  let octave := Int.i8 (Z.quot midi_base 12 - 1) in
  Int.i8 (Int.constrain octave 0 9).

(** The cursor update (lines 283-302). *)
Definition move_cursor (col : Z) : M unit :=
  st <- get ;;
  if col =? s_prev_col st then ret tt
  else
    (if (s_prev_col st >=? 0) && (s_prev_col st <=? 27) then
       let '(pidx, pmask) := col_to_buf_row6 (Int.u8 (s_prev_col st)) in
       let v := Z.lxor (buf_get (_bitmap_buffer st) pidx) pmask in
       set_bitmap_buffer (buf_set (_bitmap_buffer st) pidx v) ;;;
       r <- write_byte pidx v ;; ret tt
     else ret tt) ;;;
    st <- get ;;
    let '(bidx, bmask) := col_to_buf_row6 (Int.u8 col) in
    let v := Z.lxor (buf_get (_bitmap_buffer st) bidx) bmask in
    set_bitmap_buffer (buf_set (_bitmap_buffer st) bidx v) ;;;
    r <- write_byte bidx v ;;
    set_prev_col (Int.i8 col).

(** One byte of the label column (the body of the loop of lines 323-347). *)
Definition label_byte (note_idx alt octave_disp i : Z) : Z :=
  let buff5 :=
    if (0 <? i) && (i <? 7)
    then Int.u8 (Z.shiftl (font_tall6_notes_condensed tables note_idx (i - 1)) 5)
    else 0 in
  let buff5 :=
    if (i <? 3) && negb (alt =? 0)
    then Z.lor buff5 (font_tall6_alterations tables (if alt =? -1 then 0 else 1) i)
    else buff5 in
  if i >? 3
  then Z.lor buff5 (font_micro_numbers tables octave_disp (i - 4))
  else buff5.

(** The label update (lines 306-353). *)
Definition update_label (col octave_disp : Z) : M unit :=
  st <- get ;;
  let note_idx := nth (Z.to_nat col) kCol2NoteIdx 0 in
  let alt_i8 := Int.i8 (Int.u8 (nth (Z.to_nat col) kCol2Alter 0)) in
  let label_changed :=
    negb (note_idx =? s_prev_note_idx st)
    || negb (alt_i8 =? s_prev_alt st)
    || negb (octave_disp =? s_prev_octave st) in
  if label_changed then
    begin_data ;;;
    emit (Write 64 ::
          map (fun i => Write (label_byte note_idx alt_i8 octave_disp (Z.of_nat i)))
              (seq 0 8)) ;;;
    emit [End_] ;;;
    set_prev_label note_idx alt_i8 octave_disp
  else ret tt.

(** [HT1635::display_keyboard_drift]. *)
Definition display_keyboard_drift (freq ref_a4 : float32) : M unit :=
  if negb (isfinite freq) || leb freq zero then ret tt
  else
    let ref_a4 := effective_reference ref_a4 in
    let st_c := semitones_from_c4 freq ref_a4 in
    let col := column_of_semitones st_c in
    move_cursor col ;;;
    update_label col (octave_of_semitones st_c).

(** *** Text and drift output *)

Definition codes_of (str : string) : list Z :=
  map (fun a => Z.of_nat (nat_of_ascii a)) (list_ascii_of_string str).

(** The loop of [HT1635::print_string5] (lines 448-462); [char] is signed
    on this target, so the loop also stops at a code above 127. *)
Fixpoint print_string5_loop (chars : list Z) (pos : Z) : M unit :=
  match chars with
  | [] => ret tt
  | c :: rest =>
      if 0 <? Int.i8 c then
        (if pos =? 3 then
           emit [End_; Delay 1] ;;;
           begin_data ;;;
           st <- get ;;
           emit [Write (_memory_pointer st)]
         else ret tt) ;;;
        emit (map (fun i => Write (Font_6x8 tables (c - 32) (Z.of_nat i)))
                  (seq 0 8)) ;;;
        st <- get ;;
        set_memory_pointer (_memory_pointer st + 16) ;;;
        print_string5_loop rest (pos + 1)
      else ret tt
  end.

(** [HT1635::print_string5]. *)
Definition print_string5 (str : string) : M unit :=
  set_memory_pointer 0 ;;;
  begin_data ;;;
  emit [Write 0] ;;;
  print_string5_loop (codes_of str) 0 ;;;
  emit [End_; Delay 1].

(** The mask of the bar graph (lines 396-403). *)
Definition bar_mask_of (drift : float32) : Z :=
  let drift_int := Int.i8 (trunc (div (roundf drift) (of_Z 10))) in
  let center := 5 in
  if drift_int >? 0
  then Int.u16 (Z.lor (Z.shiftl 1 center)
                      (Z.shiftl (Z.shiftl 1 drift_int - 1) (center + 1)))
  else Int.u16 (Z.lor (Z.shiftl 1 center)
                      (Z.shiftl (Z.shiftl 1 (- drift_int) - 1)
                                (center - (- drift_int)))).

(** [HT1635::print_drift]. *)
Definition print_drift (drift : float32) : M unit :=
  st <- get ;;
  match _tuner_view_mode st with
  | numeric =>
      begin_data ;;;
      emit [Write (_memory_pointer st)] ;;;
      let idx := if ltb drift zero then 11 else 10 in
      let drift := if ltb drift zero then neg drift else drift in
      emit (map (fun y => Write (font_small_numbers tables idx (Z.of_nat y)))
                (seq 0 5)) ;;;
      emit [Write 0; Write 0; Write 0] ;;;
      let cents := Int.i8 (trunc (roundf drift)) in
      let tens := Int.u8 (Z.rem (Z.quot cents 10) 10) in
      let units := Int.u8 (Z.rem cents 10) in
      emit (map (fun y =>
                   Write (Z.lor (Int.u8 (Z.shiftl (font_small_numbers tables tens
                                                      (Z.of_nat y)) 4))
                                (font_small_numbers tables units (Z.of_nat y))))
                (seq 0 5)) ;;;
      emit [Write 0; Write 0; Write 0] ;;;
      emit [End_; Delay 1]
  | bar_graph =>
      begin_data ;;;
      emit [Write (_memory_pointer st)] ;;;
      let bar_mask := bar_mask_of drift in
      let hi := Z.land (Z.shiftr bar_mask 8) 255 in
      let lo := Z.land bar_mask 255 in
      emit [Write 0; Write 0; Write 0; Write hi; Write hi;
            Write 0; Write 0; Write 0] ;;;
      emit [Write 32; Write 32; Write 32; Write lo; Write lo;
            Write 32; Write 32; Write 32] ;;;
      emit [End_; Delay 1]
  | piano_view =>
      emit [End_; Delay 1]
  end.

(** *** Mode switch and the renderer's entry point *)

(** [HT1635::update_display]. *)
Definition update_display : M unit :=
  clear_display ;;;
  st <- get ;;
  if mode_eqb (_tuner_view_mode st) piano_view
  then display_keyboard
  else clear_display.

(** [HT1635::set_tuner_view_mode]. *)
Definition set_tuner_view_mode (mode : tuner_view_mode_t) : M tuner_view_mode_t :=
  set_mode mode ;;;
  update_display ;;;
  st <- get ;;
  ret (_tuner_view_mode st).

(** The placeholder shown below the validity floor (line 471). *)
Definition placeholder : string := "-    ".

(** [HT1635::render_pitch_and_drift]. *)
Definition render_pitch_and_drift
    (freq concert_ref_a min_valid_freq : float32) : M unit :=
  if ltb freq min_valid_freq then print_string5 placeholder
  else
    st <- get ;;
    if mode_eqb (_tuner_view_mode st) piano_view
    then display_keyboard_drift freq concert_ref_a
    else
      let n := frequency_to_note freq concert_ref_a in
      print_string5 (name n) ;;;
      print_drift (cent_drift n).

End Renderer.

(** The state the constructor leaves (header defaults, zeroed buffer) with
    the file's statics at their initialisers. *)
Definition initial : state :=
  {| _device_i2c_addr := HT1635_I2C_ADDRESS;
     _memory_pointer := 0;
     _bitmap_buffer := repeat 0 40;
     _tuner_view_mode := piano_view;
     s_prev_col := -1;
     s_prev_note_idx := 255;
     s_prev_alt := 99;
     s_prev_octave := 99 |}.

End HT.

(** ** The rest of the HT1635 driver (HT1635.cpp, HT1635.h) *)

Module HAL.
Import HT.
Local Open Scope ht_scope.

(** *** Member functions that use the renderer's fields only *)

(** [HT1635::get_tuner_view_mode]. *)
Definition get_tuner_view_mode : M tuner_view_mode_t :=
  st <- get ;;
  ret (_tuner_view_mode st).

(** [HT1635::print_bytes]; [str] holds the bytes the argument points to,
    of which the function reads the first 40. *)
Definition print_bytes (str : list Z) : M unit :=
  set_memory_pointer 0 ;;;
  begin_data ;;;
  st <- get ;;
  emit [Write (_memory_pointer st)] ;;;
  emit (map (fun i => Write (buf_get str (Z.of_nat i))) (seq 0 30)) ;;;
  set_memory_pointer (_memory_pointer st + 60) ;;;
  emit [End_; Delay 1] ;;;
  begin_data ;;;
  st <- get ;;
  emit [Write (_memory_pointer st)] ;;;
  emit (map (fun i => Write (buf_get str (Z.of_nat i))) (seq 30 10)) ;;;
  emit [End_; Delay 1].

(** [HT1635::print_char]; [theChar] is the character's code, read as the
    signed [char] of the target. *)
Definition print_char (tables : rom) (theChar at_ : Z) (restart : bool)
    : M unit :=
  (if restart then set_memory_pointer at_ else ret tt) ;;;
  begin_data ;;;
  st <- get ;;
  emit [Write (_memory_pointer st)] ;;;
  emit (map (fun i => Write (Font_6x8 tables (Int.i8 theChar - 32) (Z.of_nat i)))
            (seq 0 8)) ;;;
  emit [End_] ;;;
  set_memory_pointer (_memory_pointer st + 18) ;;;
  emit [Delay 1].

Definition set_device_i2c_addr (a : Z) : M unit :=
  fun st =>
    (tt, {| _device_i2c_addr := Int.u8 a;
            _memory_pointer := _memory_pointer st;
            _bitmap_buffer := _bitmap_buffer st;
            _tuner_view_mode := _tuner_view_mode st;
            s_prev_col := s_prev_col st;
            s_prev_note_idx := s_prev_note_idx st;
            s_prev_alt := s_prev_alt st;
            s_prev_octave := s_prev_octave st |}, []).

(** *** Command opcodes and settings (HT1635.h) *)

Definition CMD_SYSTEM_MODE : Z := 130.
Definition CMD_BLINK_FREQUENCY : Z := 132.
Definition CMD_COM_OPTION : Z := 136.
Definition CMD_CASCADE : Z := 160.
Definition CMD_PWM_DUTY : Z := 192.

Inductive cascade_mode_t : Type :=
| RC_MASTERMODE_0 | RC_MASTERMODE_1 | EXTCLK_MASTERMODE_0
| EXT_CLK_MASTERMODE_1 | SLAVE_MODE.

Definition cascade_code (m : cascade_mode_t) : Z :=
  match m with
  | RC_MASTERMODE_0 => 4
  | RC_MASTERMODE_1 => 5
  | EXTCLK_MASTERMODE_0 => 6
  | EXT_CLK_MASTERMODE_1 => 7
  | SLAVE_MODE => 0
  end.

Inductive com_pins_mode_t : Type := PIN_N_MOS | PIN_P_MOS.

Definition com_pins_code (m : com_pins_mode_t) : Z :=
  match m with PIN_N_MOS => 0 | PIN_P_MOS => 1 end.

Inductive blink_setting_t : Type :=
| BLINK_OFF | BLINK_2Hz | BLINK_1Hz | BLINK_05Hz.

Definition blink_code (b : blink_setting_t) : Z :=
  match b with
  | BLINK_OFF => 0 | BLINK_2Hz => 1 | BLINK_1Hz => 2 | BLINK_05Hz => 3
  end.

Inductive power_mode_t : Type := POWER_OFF | POWER_STANDBY | POWER_ON.

Definition power_code (p : power_mode_t) : Z :=
  match p with POWER_OFF => 0 | POWER_STANDBY => 2 | POWER_ON => 3 end.

(** The whole object: the renderer's fields (and the file's statics) with
    the settings the header declares. *)
Record device : Type := mkDevice {
  renderer : state;
  _pwm_setting : Z;                     (* uint8_t *)
  _com_pins_mode : com_pins_mode_t;
  _blink_setting : blink_setting_t;
  _power_mode : power_mode_t;
  _cascade_mode : cascade_mode_t
}.

(** The state and bus-trace monad over the whole object. *)
Definition D (A : Type) : Type := device -> A * device * list wire.

Definition dret {A} (a : A) : D A := fun d => (a, d, []).

Definition dbind {A B} (c : D A) (k : A -> D B) : D B :=
  fun d =>
    let '(a, d1, t1) := c d in
    let '(b, d2, t2) := k a d1 in
    (b, d2, t1 ++ t2).

Definition dget : D device := fun d => (d, d, []).
Definition demit (w : list wire) : D unit := fun d => (tt, d, w).

Declare Scope dev_scope.
Delimit Scope dev_scope with dev.
Notation "x <- c ;; k" := (dbind c (fun x => k))
  (at level 100, c at next level, right associativity) : dev_scope.
Notation "c ;;; k" := (dbind c (fun _ => k))
  (at level 100, right associativity) : dev_scope.

Definition dtrace_of {A} (r : A * device * list wire) : list wire := snd r.
Definition device_of {A} (r : A * device * list wire) : device := snd (fst r).
Definition dvalue_of {A} (r : A * device * list wire) : A := fst (fst r).

(** A member function of the renderer, run on the whole object. *)
Definition lift {A} (c : M A) : D A :=
  fun d =>
    let '(a, st, t) := c (renderer d) in
    (a, {| renderer := st;
           _pwm_setting := _pwm_setting d;
           _com_pins_mode := _com_pins_mode d;
           _blink_setting := _blink_setting d;
           _power_mode := _power_mode d;
           _cascade_mode := _cascade_mode d |}, t).

Definition store_pwm (v : Z) : D unit :=
  fun d =>
    (tt, {| renderer := renderer d; _pwm_setting := v;
            _com_pins_mode := _com_pins_mode d;
            _blink_setting := _blink_setting d;
            _power_mode := _power_mode d;
            _cascade_mode := _cascade_mode d |}, []).

Definition store_com_pins (v : com_pins_mode_t) : D unit :=
  fun d =>
    (tt, {| renderer := renderer d; _pwm_setting := _pwm_setting d;
            _com_pins_mode := v;
            _blink_setting := _blink_setting d;
            _power_mode := _power_mode d;
            _cascade_mode := _cascade_mode d |}, []).

Definition store_blink (v : blink_setting_t) : D unit :=
  fun d =>
    (tt, {| renderer := renderer d; _pwm_setting := _pwm_setting d;
            _com_pins_mode := _com_pins_mode d;
            _blink_setting := v;
            _power_mode := _power_mode d;
            _cascade_mode := _cascade_mode d |}, []).

Definition store_power (v : power_mode_t) : D unit :=
  fun d =>
    (tt, {| renderer := renderer d; _pwm_setting := _pwm_setting d;
            _com_pins_mode := _com_pins_mode d;
            _blink_setting := _blink_setting d;
            _power_mode := v;
            _cascade_mode := _cascade_mode d |}, []).

Definition store_cascade (v : cascade_mode_t) : D unit :=
  fun d =>
    (tt, {| renderer := renderer d; _pwm_setting := _pwm_setting d;
            _com_pins_mode := _com_pins_mode d;
            _blink_setting := _blink_setting d;
            _power_mode := _power_mode d;
            _cascade_mode := v |}, []).

Section Device.

Local Open Scope dev_scope.

(** The status [Wire.endTransmission()] reports to [send_cmd], an input
    from the bus, given the two bytes of the command transaction.  No
    caller in the sources looks at it. *)
Variable bus_status : Z -> Z -> Z.

(** [font_open_termin_logo] of bitmap_fonts.h, read by index. *)
Variable font_open_termin_logo : Z -> Z.

(** [HT1635::send_cmd]. *)
Definition send_cmd (command mode : Z) : D Z :=
  d <- dget ;;
  demit [Begin (_device_i2c_addr (renderer d));
         Write (Int.u8 command); Write mode; End_; Delay 1] ;;;
  dret (Int.u8 (bus_status command mode)).

(** [HT1635::set_cascade_mode]. *)
Definition set_cascade_mode (mode : cascade_mode_t) : D Z :=
  store_cascade mode ;;;
  error <- send_cmd CMD_CASCADE (cascade_code mode) ;;
  dret (Int.u8 (Int.i16 error)).

(** [HT1635::set_com_pins_mode]. *)
Definition set_com_pins_mode (comPin : com_pins_mode_t) : D Z :=
  store_com_pins comPin ;;;
  send_cmd CMD_COM_OPTION (com_pins_code comPin).

(** [HT1635::set_pwm_value]. *)
Definition set_pwm_value (pwm : Z) : D Z :=
  let pwm := Int.u8 pwm in
  let pwm := if pwm >? 15 then 15 else pwm in
  store_pwm pwm ;;;
  send_cmd CMD_PWM_DUTY pwm.

(** [HT1635::set_blink_mode]. *)
Definition set_blink_mode (blink : blink_setting_t) : D Z :=
  store_blink blink ;;;
  send_cmd CMD_BLINK_FREQUENCY (blink_code blink).

(** [HT1635::set_power_mode]. *)
Definition set_power_mode (pwr : power_mode_t) : D Z :=
  store_power pwr ;;;
  send_cmd CMD_SYSTEM_MODE (power_code pwr).

(** [HT1635::UpdateRegisters]. *)
Definition UpdateRegisters : D unit :=
  lift (set_memory_pointer 0) ;;;
  set_power_mode POWER_STANDBY ;;;
  d <- dget ;;
  set_blink_mode (_blink_setting d) ;;;
  d <- dget ;;
  set_cascade_mode (_cascade_mode d) ;;;
  d <- dget ;;
  set_com_pins_mode (_com_pins_mode d) ;;;
  d <- dget ;;
  set_pwm_value (_pwm_setting d) ;;;
  lift clear_display ;;;
  set_power_mode POWER_ON ;;;
  dret tt.

(** [HT1635::ResetDefaults]. *)
Definition ResetDefaults : D unit :=
  lift (set_device_i2c_addr HT1635_I2C_ADDRESS) ;;;
  store_com_pins PIN_P_MOS ;;;
  store_blink BLINK_OFF ;;;
  store_cascade RC_MASTERMODE_0 ;;;
  store_pwm 0 ;;;
  UpdateRegisters.

(** The loop of [HT1635::display_startup_logo] (lines 145-148), from
    [level] on. *)
Fixpoint fade_in (n : nat) (level : Z) : D unit :=
  match n with
  | O => dret tt
  | S n' =>
      if level <? 16 then
        set_pwm_value level ;;;
        demit [Delay 200] ;;;
        fade_in n' (Int.u8 (level + 1))
      else dret tt
  end.

(** [HT1635::display_startup_logo]. *)
Definition display_startup_logo : D unit :=
  set_pwm_value 0 ;;;
  lift (set_bitmap_buffer
          (map (fun i => font_open_termin_logo (Z.of_nat i)) (seq 0 40))) ;;;
  lift (i2c_sendout_bitmap 0) ;;;
  fade_in 16 0 ;;;
  demit [Delay 200].

End Device.

(** The object the constructor leaves: the header's default member
    initialisers, a zeroed frame buffer and the memory pointer at 0. *)
Definition constructed : device :=
  {| renderer := initial;
     _pwm_setting := 0;
     _com_pins_mode := PIN_P_MOS;
     _blink_setting := BLINK_OFF;
     _power_mode := POWER_OFF;
     _cascade_mode := RC_MASTERMODE_0 |}.

End HAL.

(** ** The user interface of the display board (display_main.cpp) *)

Module Main.
Import HT HAL.

Definition EEPROM_TUNER_VIEW_MODE_ADDRESS : Z := 0.
Definition EEPROM_CONCERT_REF_A_ADDRESS : Z := 1.

Definition UI_UPDATE_DELAY_MS : Z := 100.
Definition UI_TEMPORARY_PARAMETER_DISPLAY_MS : Z := 1800.

Definition CONCERT_A_MIN : float32 := Eval vm_compute in lit 300 1.
Definition CONCERT_A_MAX : float32 := Eval vm_compute in lit 600 1.
Definition CONCERT_A_DEFAULT : float32 := Eval vm_compute in lit 440 1.
Definition MIN_VALID_FREQ : float32 := Eval vm_compute in lit 10 1.

Definition c_445 : float32 := Eval vm_compute in lit 445 1.
Definition c_430 : float32 := Eval vm_compute in lit 430 1.
Definition c_432 : float32 := Eval vm_compute in lit 432 1.
Definition c_0_01 : float32 := Eval vm_compute in lit 1 100.

(** The serial protocol (build_options.h). *)
Definition STATE_CMD_CALIBRATION : Z := 22.
Definition STATE_CMD_CALIBRATION_SUCCESS : Z := 6.
Definition STATE_CMD_CALIBRATION_ERROR : Z := 21.
Definition STATE_CMD_MUTE : Z := 4.
Definition STATE_CMD_UNMUTE : Z := 2.
Definition STATE_CMD_BUTTON_SHORT_PRESS : Z := 7.
Definition STATE_CMD_BUTTON_LONG_PRESS : Z := 8.
Definition STATE_CMD_WAVEFORM_BASE : Z := 128.
Definition STATE_CMD_REGISTER_LOW : Z := 16.
Definition STATE_CMD_REGISTER_MID : Z := 17.
Definition STATE_CMD_REGISTER_HIGH : Z := 18.

Inductive theremin_state_t : Type := muted | playing | calibrating.

Inductive theremin_status_display_t : Type :=
| tuner_view
| menu_item_cal_enter
| menu_item_pitch_display_mode_numeric
| menu_item_pitch_display_mode_bar
| menu_item_pitch_display_mode_keyboard
| menu_item_concert_a_440
| menu_item_concert_a_445
| menu_item_concert_a_430
| menu_item_concert_a_432
| parameter_change_view_temporary_enter
| parameter_change_view_temporary_wait.

Inductive display_status_parameter_t : Type :=
| none | octave | timbre | status_msg | menu_txt.

Definition kind_is_menu_txt (k : display_status_parameter_t) : bool :=
  match k with menu_txt => true | _ => false end.

(** The value of a [tuner_view_mode_t], an enum over [uint8_t]. *)
Definition mode_code (m : tuner_view_mode_t) : Z :=
  match m with numeric => 0 | bar_graph => 1 | piano_view => 2 end.

(** [static_cast<HT1635::tuner_view_mode_t>] on a validated value. *)
Definition mode_of_code (c : Z) : tuner_view_mode_t :=
  if c =? 0 then numeric else if c =? 1 then bar_graph else piano_view.

(** What the module does to the outside: the I2C bus, the serial line to
    the Theremin board, and the EEPROM. *)
Inductive stored : Type :=
| StoredByte (b : Z)
| StoredFloat (f : float32).

Inductive effect : Type :=
| Bus (w : wire)
| SerialWrite (b : Z)               (* Serial.write *)
| EepromPut (addr : Z) (v : stored) (* EEPROM.put *).

(** The module's globals, with the two static locals of [loop]. *)
Record ui : Type := mkUi {
  ht_display : device;
  _theremin_state : theremin_state_t;
  _display_status : theremin_status_display_t;
  _parameter_display_status : display_status_parameter_t;
  _parameter_value : Z;                        (* uint8_t *)
  _concert_reference_a : float32;
  tuner_view_update_old_tick : Z;              (* unsigned long *)
  parameter_view_update_old_tick : Z           (* unsigned long *)
}.

Definition U (A : Type) : Type := ui -> A * ui * list effect.

Definition uret {A} (a : A) : U A := fun u => (a, u, []).

Definition ubind {A B} (c : U A) (k : A -> U B) : U B :=
  fun u =>
    let '(a, u1, t1) := c u in
    let '(b, u2, t2) := k a u1 in
    (b, u2, t1 ++ t2).

Definition uget : U ui := fun u => (u, u, []).
Definition uemit (e : list effect) : U unit := fun u => (tt, u, e).

Declare Scope ui_scope.
Delimit Scope ui_scope with ui.
Notation "x <- c ;; k" := (ubind c (fun x => k))
  (at level 100, c at next level, right associativity) : ui_scope.
Notation "c ;;; k" := (ubind c (fun _ => k))
  (at level 100, right associativity) : ui_scope.
Local Open Scope ui_scope.

Definition effects_of {A} (r : A * ui * list effect) : list effect := snd r.
Definition ui_of {A} (r : A * ui * list effect) : ui := snd (fst r).

(** A member function of [ht_display], called from the module. *)
Definition on_display {A} (c : D A) : U A :=
  fun u =>
    let '(a, d, t) := c (ht_display u) in
    (a, {| ht_display := d;
           _theremin_state := _theremin_state u;
           _display_status := _display_status u;
           _parameter_display_status := _parameter_display_status u;
           _parameter_value := _parameter_value u;
           _concert_reference_a := _concert_reference_a u;
           tuner_view_update_old_tick := tuner_view_update_old_tick u;
           parameter_view_update_old_tick := parameter_view_update_old_tick u |},
     map Bus t).

Definition set_theremin_state (v : theremin_state_t) : U unit :=
  fun u =>
    (tt, {| ht_display := ht_display u;
            _theremin_state := v;
            _display_status := _display_status u;
            _parameter_display_status := _parameter_display_status u;
            _parameter_value := _parameter_value u;
            _concert_reference_a := _concert_reference_a u;
            tuner_view_update_old_tick := tuner_view_update_old_tick u;
            parameter_view_update_old_tick := parameter_view_update_old_tick u |},
     []).

Definition set_display_status (v : theremin_status_display_t) : U unit :=
  fun u =>
    (tt, {| ht_display := ht_display u;
            _theremin_state := _theremin_state u;
            _display_status := v;
            _parameter_display_status := _parameter_display_status u;
            _parameter_value := _parameter_value u;
            _concert_reference_a := _concert_reference_a u;
            tuner_view_update_old_tick := tuner_view_update_old_tick u;
            parameter_view_update_old_tick := parameter_view_update_old_tick u |},
     []).

Definition set_parameter_display_status (v : display_status_parameter_t)
    : U unit :=
  fun u =>
    (tt, {| ht_display := ht_display u;
            _theremin_state := _theremin_state u;
            _display_status := _display_status u;
            _parameter_display_status := v;
            _parameter_value := _parameter_value u;
            _concert_reference_a := _concert_reference_a u;
            tuner_view_update_old_tick := tuner_view_update_old_tick u;
            parameter_view_update_old_tick := parameter_view_update_old_tick u |},
     []).

Definition set_parameter_value (v : Z) : U unit :=
  fun u =>
    (tt, {| ht_display := ht_display u;
            _theremin_state := _theremin_state u;
            _display_status := _display_status u;
            _parameter_display_status := _parameter_display_status u;
            _parameter_value := Int.u8 v;
            _concert_reference_a := _concert_reference_a u;
            tuner_view_update_old_tick := tuner_view_update_old_tick u;
            parameter_view_update_old_tick := parameter_view_update_old_tick u |},
     []).

Definition set_concert_reference_a (v : float32) : U unit :=
  fun u =>
    (tt, {| ht_display := ht_display u;
            _theremin_state := _theremin_state u;
            _display_status := _display_status u;
            _parameter_display_status := _parameter_display_status u;
            _parameter_value := _parameter_value u;
            _concert_reference_a := v;
            tuner_view_update_old_tick := tuner_view_update_old_tick u;
            parameter_view_update_old_tick := parameter_view_update_old_tick u |},
     []).

Definition set_tuner_tick (v : Z) : U unit :=
  fun u =>
    (tt, {| ht_display := ht_display u;
            _theremin_state := _theremin_state u;
            _display_status := _display_status u;
            _parameter_display_status := _parameter_display_status u;
            _parameter_value := _parameter_value u;
            _concert_reference_a := _concert_reference_a u;
            tuner_view_update_old_tick := v;
            parameter_view_update_old_tick := parameter_view_update_old_tick u |},
     []).

Definition set_parameter_tick (v : Z) : U unit :=
  fun u =>
    (tt, {| ht_display := ht_display u;
            _theremin_state := _theremin_state u;
            _display_status := _display_status u;
            _parameter_display_status := _parameter_display_status u;
            _parameter_value := _parameter_value u;
            _concert_reference_a := _concert_reference_a u;
            tuner_view_update_old_tick := tuner_view_update_old_tick u;
            parameter_view_update_old_tick := v |},
     []).

Section UI.

Variable logf : float32 -> float32.
Variable tables : rom.
Variable bus_status : Z -> Z -> Z.
Variable font_open_termin_logo : Z -> Z.

(** [get_theremin_state]. *)
Definition get_theremin_state : U theremin_state_t :=
  u <- uget ;;
  uret (_theremin_state u).

(** [restore_tuner_view]. *)
Definition restore_tuner_view : U unit :=
  set_display_status tuner_view ;;;
  on_display (lift (update_display tables)).

(** [display_ui_init]. *)
Definition display_ui_init : U unit :=
  on_display (display_startup_logo bus_status font_open_termin_logo) ;;;
  on_display (lift (update_display tables)).

(** [display_status_msg]. *)
Definition display_status_msg (kind : display_status_parameter_t)
    (txt : string) : U unit :=
  set_parameter_display_status kind ;;;
  (if negb (kind_is_menu_txt kind)
   then set_display_status parameter_change_view_temporary_enter
   else uret tt) ;;;
  on_display (lift (print_string5 tables txt)).

(** [fabsf(_concert_reference_a - a) < 0.01f], the test of a Concert A
    menu item. *)
Definition concert_a_is (ref a : float32) : bool :=
  ltb (SFabs (sub ref a)) c_0_01.

(** [display_menu]. *)
Definition display_menu (status : theremin_status_display_t) : U unit :=
  set_display_status status ;;;
  tuner_view_mode <- on_display (lift get_tuner_view_mode) ;;
  u <- uget ;;
  match status with
  | menu_item_cal_enter => display_status_msg menu_txt "CAL? "
  | menu_item_pitch_display_mode_numeric =>
      if mode_eqb tuner_view_mode numeric
      then display_status_msg menu_txt "NUM <"
      else display_status_msg menu_txt "NUM? "
  | menu_item_pitch_display_mode_bar =>
      if mode_eqb tuner_view_mode bar_graph
      then display_status_msg menu_txt "BAR <"
      else display_status_msg menu_txt "BAR? "
  | menu_item_pitch_display_mode_keyboard =>
      if mode_eqb tuner_view_mode piano_view
      then display_status_msg menu_txt "PNO <"
      else display_status_msg menu_txt "PNO? "
  | menu_item_concert_a_440 =>
      if concert_a_is (_concert_reference_a u) c_440
      then display_status_msg menu_txt "A440<"
      else display_status_msg menu_txt "A440?"
  | menu_item_concert_a_445 =>
      if concert_a_is (_concert_reference_a u) c_445
      then display_status_msg menu_txt "A445<"
      else display_status_msg menu_txt "A445?"
  | menu_item_concert_a_430 =>
      if concert_a_is (_concert_reference_a u) c_430
      then display_status_msg menu_txt "A430<"
      else display_status_msg menu_txt "A430?"
  | menu_item_concert_a_432 =>
      if concert_a_is (_concert_reference_a u) c_432
      then display_status_msg menu_txt "A432<"
      else display_status_msg menu_txt "A432?"
  | _ => uret tt
  end.

(** The long press on a view-mode item (lines 209-211). *)
Definition choose_view_mode (mode : tuner_view_mode_t) : U unit :=
  tuner_view_mode <- on_display (lift (set_tuner_view_mode tables mode)) ;;
  uemit [EepromPut EEPROM_TUNER_VIEW_MODE_ADDRESS
                   (StoredByte (mode_code tuner_view_mode))].

(** The long press on a Concert A item (lines 239-241). *)
Definition choose_concert_a (a : float32) : U unit :=
  set_concert_reference_a a ;;;
  uemit [EepromPut EEPROM_CONCERT_REF_A_ADDRESS (StoredFloat a)].

(** [handle_user_action]. *)
Definition handle_user_action (shortPress : bool) : U unit :=
  tuner_view_mode <- on_display (lift get_tuner_view_mode) ;;
  u <- uget ;;
  shall_restore_tuner_view <-
    match _display_status u with
    | tuner_view =>
        if shortPress then
          match _theremin_state u with
          | muted => uemit [SerialWrite STATE_CMD_UNMUTE]
          | playing => uemit [SerialWrite STATE_CMD_MUTE]
          | calibrating => uret tt
          end ;;; uret false
        else display_menu menu_item_cal_enter ;;; uret false
    | menu_item_cal_enter =>
        if shortPress
        then display_menu menu_item_pitch_display_mode_numeric ;;; uret false
        else uemit [SerialWrite STATE_CMD_CALIBRATION] ;;; uret false
    | menu_item_pitch_display_mode_numeric =>
        if shortPress
        then display_menu menu_item_pitch_display_mode_bar ;;; uret false
        else choose_view_mode numeric ;;; uret true
    | menu_item_pitch_display_mode_bar =>
        if shortPress
        then display_menu menu_item_pitch_display_mode_keyboard ;;; uret false
        else choose_view_mode bar_graph ;;; uret true
    | menu_item_pitch_display_mode_keyboard =>
        if shortPress
        then display_menu menu_item_concert_a_440 ;;; uret false
        else choose_view_mode piano_view ;;; uret true
    | menu_item_concert_a_440 =>
        if shortPress
        then display_menu menu_item_concert_a_445 ;;; uret false
        else choose_concert_a c_440 ;;; uret true
    | menu_item_concert_a_445 =>
        if shortPress
        then display_menu menu_item_concert_a_430 ;;; uret false
        else choose_concert_a c_445 ;;; uret true
    | menu_item_concert_a_430 =>
        if shortPress
        then display_menu menu_item_concert_a_432 ;;; uret false
        else choose_concert_a c_430 ;;; uret true
    | menu_item_concert_a_432 =>
        if shortPress
        then uret true
        else choose_concert_a c_432 ;;; uret true
    | _ => uret false
    end ;;
  if shall_restore_tuner_view then restore_tuner_view else uret tt.

(** [settings_read]; [byte0] is the byte [EEPROM.get] reads at address 0
    and [stored_ref] the float it reads at address 1. *)
Definition settings_read (byte0 : Z) (stored_ref : float32) : U unit :=
  let tvm := Int.i8 byte0 in
  let tvm := if (tvm <? 0) || (tvm >=? 3) then mode_code piano_view else tvm in
  on_display (lift (set_tuner_view_mode tables (mode_of_code tvm))) ;;;
  let ref_a :=
    if ltb stored_ref CONCERT_A_MIN || gtb stored_ref CONCERT_A_MAX
    then CONCERT_A_DEFAULT else stored_ref in
  set_concert_reference_a ref_a.

(** The text of the Register feedback (lines 397-402). *)
Definition octave_text (value : Z) : string :=
  if value =? STATE_CMD_REGISTER_LOW then "OCT-1"
  else if value =? STATE_CMD_REGISTER_MID then "OCT+0"
  else "OCT+1".

(** The text of the Timbre feedback (lines 407-408). *)
Definition timbre_text (value : Z) : string :=
  "WAV " ++ String (char_of (Z.rem value 10 + 48)) EmptyString.

(** The dispatch of a byte received from the Theremin board
    (lines 329-382). *)
Definition on_serial (b : Z) : U unit :=
  if b =? STATE_CMD_MUTE then
    set_theremin_state muted ;;;
    display_status_msg status_msg "MUTED"
  else if b =? STATE_CMD_UNMUTE then
    set_theremin_state playing ;;;
    display_status_msg status_msg "PLAY!"
  else if b =? STATE_CMD_CALIBRATION then
    set_theremin_state calibrating ;;;
    display_status_msg status_msg "-CAL-" ;;;
    r <- on_display (set_blink_mode bus_status BLINK_1Hz) ;; uret tt
  else if b =? STATE_CMD_CALIBRATION_SUCCESS then
    set_theremin_state playing ;;;
    r <- on_display (set_blink_mode bus_status BLINK_OFF) ;;
    display_status_msg status_msg "CALOK"
  else if b =? STATE_CMD_CALIBRATION_ERROR then
    set_theremin_state muted ;;;
    r <- on_display (set_blink_mode bus_status BLINK_OFF) ;;
    display_status_msg status_msg "CALER" ;;;
    set_display_status menu_item_cal_enter
  else if b =? STATE_CMD_BUTTON_SHORT_PRESS then handle_user_action true
  else if b =? STATE_CMD_BUTTON_LONG_PRESS then handle_user_action false
  else if (b >=? STATE_CMD_REGISTER_LOW) && (b <=? STATE_CMD_REGISTER_HIGH) then
    set_display_status parameter_change_view_temporary_enter ;;;
    set_parameter_display_status octave ;;;
    set_parameter_value b
  else if (b >=? STATE_CMD_WAVEFORM_BASE)
          && (b <=? STATE_CMD_WAVEFORM_BASE + 9) then
    set_display_status parameter_change_view_temporary_enter ;;;
    set_parameter_display_status timbre ;;;
    set_parameter_value (b - STATE_CMD_WAVEFORM_BASE)
  else uret tt.

(** The page update that ends [loop] (lines 385-430); [t] is the value
    [millis()] returned and [raw] the value [freq_read] returned. *)
Definition refresh (t : Z) (raw : float32) : U unit :=
  u <- uget ;;
  match _display_status u with
  | tuner_view =>
      if Int.u32 (t - tuner_view_update_old_tick u) >? UI_UPDATE_DELAY_MS then
        set_tuner_tick t ;;;
        on_display (lift (render_pitch_and_drift logf tables raw
                            (_concert_reference_a u) MIN_VALID_FREQ))
      else uret tt
  | parameter_change_view_temporary_enter =>
      set_parameter_tick t ;;;
      match _parameter_display_status u with
      | octave =>
          on_display (lift (print_string5 tables
                              (octave_text (_parameter_value u))))
      | timbre =>
          on_display (lift (print_string5 tables
                              (timbre_text (_parameter_value u))))
      | _ => uret tt
      end ;;;
      set_display_status parameter_change_view_temporary_wait
  | parameter_change_view_temporary_wait =>
      if kind_is_menu_txt (_parameter_display_status u)
         || match _theremin_state u with calibrating => true | _ => false end
      then uret tt
      else if Int.u32 (t - parameter_view_update_old_tick u)
              >? UI_TEMPORARY_PARAMETER_DISPLAY_MS then
        set_display_status tuner_view ;;;
        set_parameter_display_status none ;;;
        restore_tuner_view
      else uret tt
  | _ => uret tt
  end.

(** [loop]: [t_ok] and [t_chk] are the values [millis()] returns inside
    [freq_read], [t] the value it returns to [loop], and [rx] the byte
    waiting on the serial line, if any.  The text that the DEBUG_PRINT
    lines of the note mapper put on the serial line is not part of the
    model. *)
Definition loop (t_ok t_chk t : Z) (rx : option Z) (meter : Freq.state)
    : U Freq.state :=
  let '(raw, meter') := Freq.freq_read t_ok t_chk meter in
  match rx with
  | Some b => on_serial (Int.u8 b)
  | None => uret tt
  end ;;;
  refresh (Int.u32 t) raw ;;;
  uret meter'.

End UI.

(** The globals at their initialisers. *)
Definition power_on : ui :=
  {| ht_display := constructed;
     _theremin_state := muted;
     _display_status := tuner_view;
     _parameter_display_status := none;
     _parameter_value := 0;
     _concert_reference_a := CONCERT_A_DEFAULT;
     tuner_view_update_old_tick := 0;
     parameter_view_update_old_tick := 0 |}.

End Main.


(** * Facts about the fixed-width integers *)

Module IntFacts.
Import Int.

Lemma u32_range z : 0 <= u32 z < 2 ^ 32.
Proof. unfold u32, wrap_u. apply Z.mod_pos_bound. lia. Qed.

Lemma u32_small z : 0 <= z < 2 ^ 32 -> u32 z = z.
Proof. intros H. unfold u32, wrap_u. now apply Z.mod_small. Qed.

Lemma constrain_range x lo hi : lo <= hi -> lo <= constrain x lo hi <= hi.
Proof.
  intros H. unfold constrain.
  destruct (x <? lo) eqn:E1; [lia|].
  destruct (x >? hi) eqn:E2; lia.
Qed.

Lemma constrain_id x lo hi : lo <= x <= hi -> constrain x lo hi = x.
Proof.
  intros H. unfold constrain.
  destruct (x <? lo) eqn:E1; [lia|].
  destruct (x >? hi) eqn:E2; lia.
Qed.

Lemma i16_range z : - 2 ^ 15 <= i16 z < 2 ^ 15.
Proof.
  unfold i16, wrap_s.
  pose proof (Z.mod_pos_bound (z + 2 ^ (16 - 1)) (2 ^ 16) ltac:(lia)).
  change (2 ^ (16 - 1)) with (2 ^ 15) in *.
  change (2 ^ 16) with (2 * 2 ^ 15) in *. lia.
Qed.


End IntFacts.

(** * Facts about binary32 arithmetic *)

Module F32Facts.
Import F32.

(** *** Digits *)

Lemma pow2_succ (d : Z) : 0 <= d -> 2 ^ (d + 1) = 2 * 2 ^ d.
Proof. intros H. rewrite Z.pow_add_r by lia. lia. Qed.

Lemma pow2_pred (d : Z) : 1 <= d -> 2 ^ d = 2 * 2 ^ (d - 1).
Proof.
  intros H. replace d with ((d - 1) + 1) at 1 by lia.
  apply pow2_succ. lia.
Qed.

Lemma pow2_pos (d : Z) : 0 <= d -> 0 < 2 ^ d.
Proof. intros H. apply Z.pow_pos_nonneg; lia. Qed.

Lemma digits2_pos_bounds (p : positive) :
  2 ^ (Zpos (digits2_pos p) - 1) <= Zpos p < 2 ^ Zpos (digits2_pos p).
Proof.
  induction p as [p IH|p IH|]; cbn [digits2_pos].
  - rewrite Pos2Z.inj_succ. set (d := Zpos (digits2_pos p)) in *.
    assert (1 <= d) by (subst d; lia).
    replace (Z.succ d - 1) with ((d - 1) + 1) by lia.
    replace (Z.succ d) with (d + 1) by lia.
    rewrite !pow2_succ by lia.
    replace d with ((d - 1) + 1) in IH at 2 by lia.
    rewrite pow2_succ in IH by lia.
    replace d with ((d - 1) + 1) at 2 by lia.
    rewrite pow2_succ by lia. lia.
  - rewrite Pos2Z.inj_succ. set (d := Zpos (digits2_pos p)) in *.
    assert (1 <= d) by (subst d; lia).
    replace (Z.succ d - 1) with ((d - 1) + 1) by lia.
    replace (Z.succ d) with (d + 1) by lia.
    rewrite !pow2_succ by lia.
    replace d with ((d - 1) + 1) in IH at 2 by lia.
    rewrite pow2_succ in IH by lia.
    replace d with ((d - 1) + 1) at 2 by lia.
    rewrite pow2_succ by lia. lia.
  - cbn. lia.
Qed.

Lemma digits_unique (p : positive) (d : Z) :
  2 ^ (d - 1) <= Zpos p < 2 ^ d -> Zpos (digits2_pos p) = d.
Proof.
  intros [Hlo Hhi]. pose proof (digits2_pos_bounds p) as [Blo Bhi].
  set (k := Zpos (digits2_pos p)) in *.
  assert (1 <= k) by (subst k; lia).
  assert (0 < d) as Hd.
  { destruct (Z.ltb_spec 0 d) as [|Hd]; [assumption|exfalso].
    destruct (Z.eq_dec d 0) as [->|Hn]; [cbn in Hhi; lia|].
    rewrite (Z.pow_neg_r 2 d) in Hhi by lia. lia. }
  destruct (Z.lt_trichotomy k d) as [T|[T|T]]; [|exact T|].
  - assert (2 ^ k <= 2 ^ (d - 1)) by (apply Z.pow_le_mono_r; lia). lia.
  - assert (2 ^ d <= 2 ^ (k - 1)) by (apply Z.pow_le_mono_r; lia). lia.
Qed.

(** *** Right shifts with round and sticky bits *)

Lemma iter_pos_nat {A} (f : A -> A) (p : positive) (x : A) :
  SpecFloat.iter_pos f p x = Nat.iter (Pos.to_nat p) f x.
Proof.
  revert x. induction p as [p IH|p IH|]; intros x; cbn [SpecFloat.iter_pos].
  - rewrite !IH, Pos2Nat.inj_xI.
    replace (S (2 * Pos.to_nat p))%nat
      with (Pos.to_nat p + (Pos.to_nat p + 1))%nat by lia.
    rewrite !Nat.iter_add. reflexivity.
  - rewrite !IH, Pos2Nat.inj_xO.
    replace (2 * Pos.to_nat p)%nat with (Pos.to_nat p + Pos.to_nat p)%nat by lia.
    rewrite Nat.iter_add. reflexivity.
  - reflexivity.
Qed.

Lemma shr_1_nonneg (m : Z) (r s : bool) :
  0 <= m ->
  shr_1 {| shr_m := m; shr_r := r; shr_s := s |}
  = {| shr_m := m / 2; shr_r := Z.odd m; shr_s := r || s |}.
Proof.
  intros Hm. destruct m as [|p|p]; [reflexivity| |lia].
  destruct p as [p|p|]; cbn [shr_1].
  - f_equal. rewrite Pos2Z.inj_xI.
    apply (Z.div_unique _ _ _ 1); lia.
  - f_equal. rewrite Pos2Z.inj_xO.
    apply (Z.div_unique _ _ _ 0); lia.
  - reflexivity.
Qed.

(** The record after [k] shifts. *)
Definition shifted (m : Z) (r s : bool) (k : nat) : shr_record :=
  match k with
  | O => {| shr_m := m; shr_r := r; shr_s := s |}
  | S k' =>
      {| shr_m := m / 2 ^ Z.of_nat k;
         shr_r := Z.testbit m (Z.of_nat k');
         shr_s := r || s || negb (m mod 2 ^ Z.of_nat k' =? 0) |}
  end.

Lemma mod_pow2_succ (m k : Z) :
  0 <= k ->
  (m mod 2 ^ (k + 1) =? 0)
  = negb (Z.testbit m k) && (m mod 2 ^ k =? 0).
Proof.
  intros Hk. rewrite pow2_succ by lia.
  pose proof (pow2_pos k Hk) as Hp.
  rewrite (Z.mul_comm 2), Z.rem_mul_r by lia.
  pose proof (Z.mod_pos_bound m (2 ^ k) Hp) as B1.
  destruct (Z.testbit m k) eqn:T.
  - apply Z.testbit_true in T; [|lia]. rewrite T. cbn.
    apply Z.eqb_neq. lia.
  - apply Z.testbit_false in T; [|lia]. rewrite T. cbn.
    rewrite Z.mul_0_r, Z.add_0_r. reflexivity.
Qed.

Lemma iter_shr_1 (k : nat) (m : Z) (r s : bool) :
  0 <= m ->
  Nat.iter k shr_1 {| shr_m := m; shr_r := r; shr_s := s |} = shifted m r s k.
Proof.
  intros Hm. induction k as [|k IH]; [reflexivity|].
  rewrite Nat.iter_succ, IH. destruct k as [|k].
  - cbn [shifted]. rewrite shr_1_nonneg by assumption.
    f_equal.
    change (2 ^ Z.of_nat 0) with 1. rewrite Z.mod_1_r. cbn.
    now rewrite orb_false_r.
  - cbn [shifted].
    rewrite shr_1_nonneg by (apply Z.div_pos; [lia|apply pow2_pos; lia]).
    f_equal.
    + rewrite Z.div_div by (try apply pow2_pos; lia).
      f_equal. replace (Z.of_nat (S (S k))) with (Z.of_nat (S k) + 1) by lia.
      rewrite pow2_succ by lia. lia.
    + rewrite Z.testbit_odd, Z.shiftr_div_pow2 by lia. reflexivity.
    + replace (Z.of_nat (S k)) with (Z.of_nat k + 1) by lia.
      rewrite mod_pow2_succ by lia.
      destruct (Z.testbit m (Z.of_nat k)), r, s, (m mod 2 ^ Z.of_nat k =? 0);
        reflexivity.
Qed.

Lemma shr_run (m : Z) (r s : bool) (e n : Z) :
  0 <= m ->
  shr {| shr_m := m; shr_r := r; shr_s := s |} e n
  = if 0 <? n then (shifted m r s (Z.to_nat n), e + n)
    else ({| shr_m := m; shr_r := r; shr_s := s |}, e).
Proof.
  intros Hm. destruct n as [|p|p]; try reflexivity.
  cbn [shr Z.ltb Z.compare]. rewrite iter_pos_nat, iter_shr_1 by assumption.
  reflexivity.
Qed.

(** *** Rounding to binary32 *)

Lemma fexp_eq (e : Z) : fexp prec emax e = Z.max (e - 24) (-149).
Proof. reflexivity. Qed.

Lemma record_of_loc (m : Z) (l : location) :
  exists r s, shr_record_of_loc m l = {| shr_m := m; shr_r := r; shr_s := s |}.
Proof. destruct l as [|[ | | ]]; cbn; eauto. Qed.

Lemma shifted_m (m : Z) (r s : bool) (k : nat) :
  shr_m (shifted m r s k) = m / 2 ^ Z.of_nat k.
Proof.
  destruct k; cbn [shifted shr_m]; [|reflexivity].
  change (2 ^ Z.of_nat 0) with 1. now rewrite Z.div_1_r.
Qed.

(** The mantissa [shr_fexp] leaves: the input shifted right by the number
    of bits that exceed the format. *)
Lemma shr_fexp_m (m e : Z) (l : location) :
  0 <= m ->
  let n := fexp prec emax (Zdigits2 m + e) - e in
  shr_m (fst (shr_fexp prec emax m e l)) = m / 2 ^ Z.max 0 n
  /\ snd (shr_fexp prec emax m e l) = e + Z.max 0 n.
Proof.
  intros Hm n. unfold shr_fexp. fold n.
  destruct (record_of_loc m l) as (r & s & ->).
  rewrite shr_run by assumption.
  destruct (Z.ltb_spec 0 n) as [Hn|Hn]; cbn [fst snd].
  - rewrite shifted_m, Z2Nat.id by lia.
    rewrite Z.max_r by lia. auto.
  - rewrite Z.max_l by lia. cbn [shr_m]. change (2 ^ 0) with 1.
    rewrite Z.div_1_r. split; [reflexivity|lia].
Qed.

Lemma round_nearest_even_range (m : Z) (l : location) :
  m <= round_nearest_even m l <= m + 1.
Proof.
  destruct l as [|[ | | ]]; cbn [round_nearest_even]; try lia.
  destruct (Z.even m); lia.
Qed.

(** Rounding a non-negative mantissa never yields NaN, and keeps the
    sign. *)
Lemma binary_round_aux_shape (sx : bool) (m e : Z) (l : location) :
  0 <= m ->
  binary_round_aux prec emax sx m e l = S754_zero sx
  \/ binary_round_aux prec emax sx m e l = S754_infinity sx
  \/ exists m' e', binary_round_aux prec emax sx m e l = S754_finite sx m' e'.
Proof.
  intros Hm. unfold binary_round_aux.
  destruct (shr_fexp prec emax m e l) as [mrs1 e1] eqn:E1.
  pose proof (shr_fexp_m m e l Hm) as [H1 _]. rewrite E1 in H1. cbn [fst] in H1.
  set (m1 := round_nearest_even (shr_m mrs1) (loc_of_shr_record mrs1)).
  assert (0 <= m1) as Hm1.
  { pose proof (round_nearest_even_range (shr_m mrs1) (loc_of_shr_record mrs1)).
    assert (0 <= shr_m mrs1).
    { rewrite H1. apply Z.div_pos; [lia|]. apply pow2_pos. lia. }
    subst m1. lia. }
  destruct (shr_fexp prec emax m1 e1 loc_Exact) as [mrs2 e2] eqn:E2.
  pose proof (shr_fexp_m m1 e1 loc_Exact Hm1) as [H2 _].
  rewrite E2 in H2. cbn [fst] in H2.
  assert (0 <= shr_m mrs2) as Hm2.
  { rewrite H2. apply Z.div_pos; [lia|]. apply pow2_pos. lia. }
  destruct (shr_m mrs2) as [|p|p]; [auto| |lia].
  destruct (e2 <=? emax - prec); eauto.
Qed.

(** The location a shift leaves when the bits shifted out are all zero. *)
Lemma shr_fexp_exact (m e : Z) :
  0 <= m ->
  let n := Z.max 0 (fexp prec emax (Zdigits2 m + e) - e) in
  m mod 2 ^ n = 0 ->
  loc_of_shr_record (fst (shr_fexp prec emax m e loc_Exact)) = loc_Exact.
Proof.
  intros Hm n Hexact. unfold shr_fexp. cbn [shr_record_of_loc].
  rewrite shr_run by assumption.
  destruct (Z.ltb_spec 0 (fexp prec emax (Zdigits2 m + e) - e)) as [Hn|Hn];
    cbn [fst]; [|reflexivity].
  subst n. rewrite Z.max_r in Hexact by lia.
  set (k := fexp prec emax (Zdigits2 m + e) - e) in *.
  destruct (Z.to_nat k) as [|k'] eqn:Ek; [lia|].
  cbn [shifted loc_of_shr_record].
  assert (k = Z.of_nat k' + 1) as Hk by lia.
  pose proof (mod_pow2_succ m (Z.of_nat k') ltac:(lia)) as Hs.
  rewrite <- Hk, Hexact in Hs. cbn in Hs. symmetry in Hs.
  apply andb_true_iff in Hs as [Hr Hz].
  apply negb_true_iff in Hr. rewrite Hr, Hz. reflexivity.
Qed.

Lemma Zdigits2_pos (m : Z) :
  0 < m -> 2 ^ (Zdigits2 m - 1) <= m < 2 ^ Zdigits2 m /\ 1 <= Zdigits2 m.
Proof.
  intros Hm. destruct m as [|p|p]; try lia.
  cbn [Zdigits2]. split; [apply digits2_pos_bounds|lia].
Qed.

Lemma Zdigits2_unique (m d : Z) :
  0 < m -> 2 ^ (d - 1) <= m < 2 ^ d -> Zdigits2 m = d.
Proof.
  intros Hm H. destruct m as [|p|p]; try lia.
  cbn [Zdigits2]. now apply digits_unique.
Qed.

Lemma div_pow2_bounds (m d n : Z) :
  0 <= n <= d - 1 ->
  2 ^ (d - 1) <= m < 2 ^ d ->
  2 ^ (d - n - 1) <= m / 2 ^ n < 2 ^ (d - n).
Proof.
  intros Hn [Hlo Hhi].
  pose proof (pow2_pos n ltac:(lia)) as Hp.
  replace (d - 1) with ((d - n - 1) + n) in Hlo by lia.
  replace d with ((d - n) + n) in Hhi by lia.
  rewrite Z.pow_add_r in Hlo, Hhi by lia.
  split.
  - apply Z.div_le_lower_bound; lia.
  - apply Z.div_lt_upper_bound; lia.
Qed.

(** What [binary_round_aux] returns when the input has at least as many
    digits as the format keeps: with [q] the mantissa shifted into the
    format, the rounded mantissa [m1] is [q] or [q + 1], and [q] itself when
    the input is exact and the shifted-out bits are zero; the result is zero
    when [m1] is, an infinity on overflow, and else a canonical float of
    value [m1 * 2 ^ E], renormalised by one bit when the rounding carried. *)
Lemma binary_round_aux_cases (sx : bool) (m e : Z) (l : location) :
  0 < m ->
  let n := fexp prec emax (Zdigits2 m + e) - e in
  let q := m / 2 ^ n in
  let E := e + n in
  0 <= n ->
  exists m1,
    q <= m1 <= q + 1
    /\ (l = loc_Exact -> m mod 2 ^ n = 0 -> m1 = q)
    /\ (binary_round_aux prec emax sx m e l = S754_zero sx /\ m1 = 0
        \/ binary_round_aux prec emax sx m e l = S754_infinity sx
           /\ emax - prec <= E
        \/ exists m2 e2,
             binary_round_aux prec emax sx m e l = S754_finite sx m2 e2
             /\ E <= e2 <= E + 1
             /\ Zpos m2 * 2 ^ (e2 - E) = m1
             /\ canonical_mantissa prec emax m2 e2 = true
             /\ e2 <= emax - prec).
Proof.
  intros Hm n q E Hn.
  pose proof (Zdigits2_pos m Hm) as [Hd Hd1].
  set (d := Zdigits2 m) in *.
  assert (fexp prec emax (d + e) = E) as HfE by (subst E n; lia).
  assert (0 <= q) as Hq0 by (apply Z.div_pos; [lia|apply pow2_pos; lia]).
  unfold binary_round_aux.
  pose proof (shr_fexp_m m e l ltac:(lia)) as [H1m H1e].
  fold d in H1m, H1e. fold n in H1m, H1e.
  rewrite Z.max_r in H1m, H1e by lia. fold q in H1m. fold E in H1e.
  assert (l = loc_Exact -> m mod 2 ^ n = 0 ->
          loc_of_shr_record (fst (shr_fexp prec emax m e l)) = loc_Exact)
    as Hexact.
  { intros -> Hz. apply shr_fexp_exact; [lia|].
    fold d. fold n. now rewrite Z.max_r by lia. }
  destruct (shr_fexp prec emax m e l) as [mrs1 e1].
  cbn [fst snd] in H1m, H1e, Hexact. subst e1.
  set (m1 := round_nearest_even (shr_m mrs1) (loc_of_shr_record mrs1)).
  assert (q <= m1 <= q + 1) as Hm1.
  { subst m1. rewrite <- H1m. apply round_nearest_even_range. }
  assert (l = loc_Exact -> m mod 2 ^ n = 0 -> m1 = q) as Hm1e.
  { intros Hl Hz. subst m1. rewrite (Hexact Hl Hz). cbn. exact H1m. }
  pose proof (shr_fexp_m m1 E loc_Exact ltac:(lia)) as [H2m H2e].
  destruct (shr_fexp prec emax m1 E loc_Exact) as [mrs2 e2].
  cbn [fst snd] in H2m, H2e.
  exists m1. split; [exact Hm1|]. split; [exact Hm1e|].
  (* the digits of the rounded mantissa decide the second shift *)
  assert (m1 = 0
          \/ (0 < m1 /\ fexp prec emax (Zdigits2 m1 + E) = E)
          \/ (0 < m1 /\ fexp prec emax (Zdigits2 m1 + E) = E + 1
              /\ exists k, 1 <= k /\ m1 = 2 ^ k /\ Zdigits2 m1 = k + 1))
    as Hcase.
  { destruct (Z.eq_dec m1 0) as [|Hnz]; [auto|right].
    destruct (Z.leb_spec 1 q) as [Hq|Hq].
    - (* no underflow *)
      assert (n <= d - 1) as Hnd.
      { destruct (Z.leb_spec n (d - 1)) as [|Hbig]; [assumption|exfalso].
        assert (2 ^ d <= 2 ^ n) by (apply Z.pow_le_mono_r; lia).
        assert (q = 0) by (apply Z.div_small; lia). lia. }
      pose proof (div_pow2_bounds m d n ltac:(lia) Hd) as Hqb. fold q in Hqb.
      destruct (Z.ltb_spec m1 (2 ^ (d - n))) as [Hlt|Hge].
      + left. split; [lia|].
        rewrite (Zdigits2_unique m1 (d - n)) by lia.
        replace (d - n + E) with (d + e) by (subst E; lia). exact HfE.
      + assert (m1 = 2 ^ (d - n)) as Hpow by lia.
        assert (Zdigits2 m1 = d - n + 1) as Hd1'.
        { apply Zdigits2_unique; [lia|]. rewrite Hpow.
          replace (d - n + 1 - 1) with (d - n) by lia.
          rewrite pow2_succ by lia.
          pose proof (pow2_pos (d - n) ltac:(lia)). lia. }
        assert (fexp prec emax (d + e + 1) = E
                \/ fexp prec emax (d + e + 1) = E + 1) as [Hf|Hf]
          by (rewrite fexp_eq in *; lia).
        * left. split; [lia|]. rewrite Hd1'.
          replace (d - n + 1 + E) with (d + e + 1) by (subst E; lia).
          exact Hf.
        * right. split; [lia|]. split.
          -- rewrite Hd1'.
             replace (d - n + 1 + E) with (d + e + 1) by (subst E; lia).
             exact Hf.
          -- exists (d - n). split; [lia|]. split; [exact Hpow|exact Hd1'].
    - (* underflow: the format's smallest exponent *)
      assert (m1 = 1) as -> by lia.
      left. split; [lia|]. cbn [Zdigits2 digits2_pos].
      assert (d <= n) as Hdn.
      { destruct (Z.leb_spec d n) as [|Hs]; [assumption|exfalso].
        assert (2 ^ n <= 2 ^ (d - 1)) by (apply Z.pow_le_mono_r; lia).
        assert (1 <= q).
        { apply Z.div_le_lower_bound; [apply pow2_pos|]; lia. }
        lia. }
      rewrite fexp_eq in *. lia. }
  destruct Hcase as [Hz | [[Hpos Hf] | (Hpos & Hf & k & Hk & Hpow & Hdk)]].
  - left. rewrite Hz in *. cbn [Zdigits2] in H2m.
    assert (m1 = 0) as Hz' by exact Hz.
    rewrite Z.div_0_l in H2m by (pose proof (pow2_pos (Z.max 0
      (fexp prec emax (0 + E) - E)) ltac:(lia)); lia).
    rewrite H2m. auto.
  - rewrite Hf, Z.sub_diag in H2m, H2e. change (Z.max 0 0) with 0 in H2m, H2e.
    change (2 ^ 0) with 1 in H2m. rewrite Z.div_1_r in H2m.
    rewrite Z.add_0_r in H2e. rewrite H2m, H2e.
    assert (exists p, m1 = Zpos p) as [p Ep]
      by (destruct m1; [lia|eauto|lia]).
    rewrite Ep.
    destruct (Z.leb_spec E (emax - prec)) as [Hfit|Hover].
    + right. right. exists p, E.
      split; [reflexivity|]. split; [lia|]. split; [|split; [|exact Hfit]].
      * rewrite Z.sub_diag. change (2 ^ 0) with 1. lia.
      * unfold canonical_mantissa. apply Z.eqb_eq.
        change (Zpos (digits2_pos p)) with (Zdigits2 (Zpos p)).
        rewrite <- Ep. exact Hf.
    + right. left. split; [reflexivity|lia].
  - replace (fexp prec emax (Zdigits2 m1 + E) - E) with 1 in H2m, H2e by lia.
    change (Z.max 0 1) with 1 in H2m, H2e. change (2 ^ 1) with 2 in H2m.
    assert (m1 / 2 = 2 ^ (k - 1)) as Hhalf.
    { rewrite Hpow, (pow2_pred k) by lia.
      rewrite Z.mul_comm. apply Z.div_mul. lia. }
    pose proof (pow2_pos (k - 1) ltac:(lia)) as Hpp.
    rewrite H2m, H2e, Hhalf.
    destruct (2 ^ (k - 1)) as [|p|p] eqn:Ep; try lia.
    destruct (Z.leb_spec (E + 1) (emax - prec)) as [Hfit|Hover].
    + right. right. exists p, (E + 1).
      split; [reflexivity|]. split; [lia|]. split; [|split; [|exact Hfit]].
      * replace (E + 1 - E) with 1 by lia. change (2 ^ 1) with 2.
        rewrite <- Ep, Hpow, (pow2_pred k) by lia. lia.
      * unfold canonical_mantissa. apply Z.eqb_eq.
        change (Zpos (digits2_pos p)) with (Zdigits2 (Zpos p)).
        rewrite <- Ep.
        assert (Zdigits2 (2 ^ (k - 1)) = k) as Hd2.
        { apply Zdigits2_unique; [lia|].
          rewrite (pow2_pred k) by lia. lia. }
        rewrite Hd2. rewrite Hdk in Hf.
        replace (k + (E + 1)) with (k + 1 + E) by lia. exact Hf.
    + right. left. split; [reflexivity|lia].
Qed.

Lemma binary_round_aux_spec (sx : bool) (m e : Z) (l : location) :
  0 < m ->
  let n := fexp prec emax (Zdigits2 m + e) - e in
  let q := m / 2 ^ n in
  let E := e + n in
  0 <= n ->
  1 <= q ->
  E + 1 <= emax - prec ->
  exists m1 m2 e2,
    binary_round_aux prec emax sx m e l = S754_finite sx m2 e2
    /\ q <= m1 <= q + 1
    /\ (l = loc_Exact -> m mod 2 ^ n = 0 -> m1 = q)
    /\ E <= e2 <= E + 1
    /\ Zpos m2 * 2 ^ (e2 - E) = m1
    /\ canonical_mantissa prec emax m2 e2 = true.
Proof.
  intros Hm n q E Hn Hq Hmax.
  destruct (binary_round_aux_cases sx m e l Hm Hn)
    as (m1 & Hm1 & Hex & [[_ Hz] | [[_ Hover] | (m2 & e2 & Hr & He2 & Hv & Hc & _)]]).
  - subst q n. lia.
  - subst E n. lia.
  - exists m1, m2, e2. subst q E n. auto 10.
Qed.


(** *** Alignment and [binary_round] *)

Lemma iter_xO (m d : positive) :
  Zpos (Pos.iter xO m d) = Zpos m * 2 ^ Zpos d.
Proof.
  induction d as [|d IH] using Pos.peano_ind.
  - cbn [Pos.iter]. rewrite Pos2Z.inj_xO. change (2 ^ 1) with 2. lia.
  - rewrite Pos.iter_succ, Pos2Z.inj_xO, IH, Pos2Z.inj_succ.
    replace (Z.succ (Zpos d)) with (Zpos d + 1) by lia.
    rewrite pow2_succ by lia. lia.
Qed.

Lemma shl_align_spec (mx : positive) (ex ex' : Z) :
  snd (shl_align mx ex ex') = Z.min ex ex'
  /\ Zpos (fst (shl_align mx ex ex')) = Zpos mx * 2 ^ (ex - Z.min ex ex').
Proof.
  unfold shl_align. destruct (ex' - ex) as [|d|d] eqn:Ed; cbn [fst snd].
  - rewrite Z.min_l by lia. rewrite Z.sub_diag. change (2 ^ 0) with 1. lia.
  - rewrite Z.min_l by lia. rewrite Z.sub_diag. change (2 ^ 0) with 1. lia.
  - rewrite Z.min_r by lia. rewrite iter_xO.
    replace (ex - ex') with (Zpos d) by lia. lia.
Qed.

Lemma Zdigits2_shift (m k : Z) :
  0 < m -> 0 <= k -> Zdigits2 (m * 2 ^ k) = Zdigits2 m + k.
Proof.
  intros Hm Hk. pose proof (Zdigits2_pos m Hm) as [[Hlo Hhi] Hd].
  pose proof (pow2_pos k Hk) as Hp.
  apply Zdigits2_unique; [lia|].
  replace (Zdigits2 m + k - 1) with ((Zdigits2 m - 1) + k) by lia.
  rewrite !Z.pow_add_r by lia. nia.
Qed.

(** [binary_round] on a positive mantissa: the aligned mantissa [mz] is
    rounded at the format's exponent [f]. *)
Lemma binary_round_cases (sx : bool) (mx : positive) (ex : Z) :
  let f := fexp prec emax (Zpos (digits2_pos mx) + ex) in
  let ez := Z.min ex f in
  let mz := Zpos mx * 2 ^ (ex - ez) in
  let q := mz / 2 ^ (f - ez) in
  exists m1,
    q <= m1 <= q + 1
    /\ (mz mod 2 ^ (f - ez) = 0 -> m1 = q)
    /\ (binary_round prec emax sx mx ex = S754_zero sx /\ m1 = 0
        \/ binary_round prec emax sx mx ex = S754_infinity sx
           /\ emax - prec <= f
        \/ exists m2 e2,
             binary_round prec emax sx mx ex = S754_finite sx m2 e2
             /\ f <= e2 <= f + 1
             /\ Zpos m2 * 2 ^ (e2 - f) = m1
             /\ canonical_mantissa prec emax m2 e2 = true
             /\ e2 <= emax - prec).
Proof.
  intros f ez mz q. unfold binary_round. fold f.
  pose proof (shl_align_spec mx ex f) as [Hs Hm].
  destruct (shl_align mx ex f) as [mz' ez']. cbn [fst snd] in Hs, Hm.
  fold ez in Hs, Hm. subst ez'. fold mz in Hm.
  assert (Zdigits2 (Zpos mz') + ez = Zpos (digits2_pos mx) + ex) as Hdig.
  { rewrite Hm. unfold mz. rewrite Zdigits2_shift by lia. cbn [Zdigits2]. lia. }
  assert (fexp prec emax (Zdigits2 (Zpos mz') + ez) - ez = f - ez) as Hn
    by (rewrite Hdig; reflexivity).
  destruct (binary_round_aux_cases sx (Zpos mz') ez loc_Exact ltac:(lia))
    as (m1 & Hm1 & Hex & Hcases).
  - rewrite Hn. lia.
  - rewrite Hn, Hm in *. replace (ez + (f - ez)) with f in * by lia.
    exists m1. split; [exact Hm1|]. split; [|exact Hcases].
    intros Hz. now apply Hex.
Qed.

Lemma binary_round_spec (sx : bool) (mx : positive) (ex : Z) :
  let f := fexp prec emax (Zpos (digits2_pos mx) + ex) in
  let ez := Z.min ex f in
  let mz := Zpos mx * 2 ^ (ex - ez) in
  let q := mz / 2 ^ (f - ez) in
  1 <= q ->
  f + 1 <= emax - prec ->
  exists m1 m2 e2,
    binary_round prec emax sx mx ex = S754_finite sx m2 e2
    /\ q <= m1 <= q + 1
    /\ (mz mod 2 ^ (f - ez) = 0 -> m1 = q)
    /\ f <= e2 <= f + 1
    /\ Zpos m2 * 2 ^ (e2 - f) = m1
    /\ canonical_mantissa prec emax m2 e2 = true.
Proof.
  intros f ez mz q Hq Hmax.
  destruct (binary_round_cases sx mx ex)
    as (m1 & Hm1 & Hex & [[_ Hz] | [[_ Hover] | (m2 & e2 & Hr & He2 & Hv & Hc & _)]]).
  - subst q mz ez f. lia.
  - subst f. lia.
  - exists m1, m2, e2. subst q mz ez f. auto 10.
Qed.

(** *** NaN-freeness of the operations *)

Lemma binary_round_not_nan (sx : bool) (mx : positive) (ex : Z) :
  is_nan (binary_round prec emax sx mx ex) = false.
Proof.
  unfold binary_round.
  destruct (shl_align mx ex _) as [mz ez].
  destruct (binary_round_aux_shape sx (Zpos mz) ez loc_Exact ltac:(lia))
    as [-> | [-> | (m' & e' & ->)]]; reflexivity.
Qed.

Lemma binary_normalize_not_nan (m e : Z) (sz : bool) :
  is_nan (binary_normalize prec emax m e sz) = false.
Proof.
  destruct m; cbn [binary_normalize];
    [reflexivity|apply binary_round_not_nan|apply binary_round_not_nan].
Qed.

Lemma mul_finite_not_nan (x : float32) (s : bool) (m : positive) (e : Z) :
  is_nan x = false ->
  is_nan (mul x (S754_finite s m e)) = false
  /\ is_nan (mul (S754_finite s m e) x) = false.
Proof.
  intros Hx. unfold mul.
  destruct x as [sx|sx| |sx mx ex]; try discriminate;
    cbn [SFmul is_nan]; try (split; reflexivity).
  split.
  - destruct (binary_round_aux_shape (xorb sx s) (Zpos (mx * m)) (ex + e)
                loc_Exact ltac:(lia)) as [-> | [-> | (m' & e' & ->)]];
      reflexivity.
  - destruct (binary_round_aux_shape (xorb s sx) (Zpos (m * mx)) (e + ex)
                loc_Exact ltac:(lia)) as [-> | [-> | (m' & e' & ->)]];
      reflexivity.
Qed.

Lemma add_finite_not_nan (x y : float32) :
  is_nan x = false -> isfinite y = true ->
  is_nan (add y x) = false.
Proof.
  intros Hx Hy. unfold add.
  destruct x as [sx|sx| |sx mx ex]; try discriminate;
    destruct y as [sy|sy| |sy my ey]; try discriminate;
    cbn [SFadd is_nan]; try reflexivity.
  - destruct sy, sx; reflexivity.
  - apply binary_normalize_not_nan.
Qed.

Lemma sub_finite_not_nan (x y : float32) :
  is_nan x = false -> isfinite y = true ->
  is_nan (sub x y) = false.
Proof.
  intros Hx Hy. unfold sub.
  destruct x as [sx|sx| |sx mx ex]; try discriminate;
    destruct y as [sy|sy| |sy my ey]; try discriminate;
    cbn [SFsub is_nan]; try reflexivity.
  - destruct sx, sy; reflexivity.
  - apply binary_normalize_not_nan.
Qed.

(** *** Conversion of small integers *)

(** A positive finite float with a full 24-bit mantissa. *)
Definition normal_pos (x : float32) (lo hi : Z) : Prop :=
  exists m e,
    x = S754_finite false m e
    /\ 2 ^ 23 <= Zpos m < 2 ^ 24
    /\ lo <= e <= hi.

Lemma canonical_normal (m : positive) (e : Z) :
  canonical_mantissa prec emax m e = true ->
  -149 < e ->
  2 ^ 23 <= Zpos m < 2 ^ 24.
Proof.
  unfold canonical_mantissa. intros Hc He. apply Z.eqb_eq in Hc.
  rewrite fexp_eq in Hc.
  assert (Zpos (digits2_pos m) = 24) as Hd by lia.
  pose proof (digits2_pos_bounds m) as B. rewrite Hd in B. exact B.
Qed.

Lemma of_Z_pos (z : Z) :
  0 < z < 2 ^ 24 ->
  normal_pos (of_Z z) (Zdigits2 z - 24) (Zdigits2 z - 23).
Proof.
  intros Hz. destruct z as [|p|p]; try lia.
  unfold of_Z. cbn [binary_normalize].
  pose proof (digits2_pos_bounds p) as Hd.
  set (d := Zpos (digits2_pos p)) in *.
  assert (1 <= d <= 24) as Hd24.
  { split; [subst d; lia|].
    destruct (Z.leb_spec d 24) as [|Hbig]; [assumption|exfalso].
    assert (2 ^ 24 <= 2 ^ (d - 1)) by (apply Z.pow_le_mono_r; lia). lia. }
  pose proof (binary_round_spec false p 0) as H. cbv zeta in H.
  fold d in H. rewrite Z.add_0_r, fexp_eq in H.
  rewrite (Z.max_l (d - 24)), (Z.min_r 0) in H by lia.
  rewrite Z.sub_diag in H. change (2 ^ 0) with 1 in H.
  rewrite Z.div_1_r in H.
  destruct H as (m1 & m2 & e2 & Hr & _ & _ & He2 & _ & Hcan).
  - pose proof (pow2_pos (0 - (d - 24)) ltac:(lia)). nia.
  - unfold emax, prec. lia.
  - exists m2, e2. rewrite Hr. split; [reflexivity|]. split.
    + apply (canonical_normal m2 e2 Hcan). lia.
    + cbn [Zdigits2]. fold d. lia.
Qed.

Lemma of_Z_finite (z : Z) : - 2 ^ 24 < z < 2 ^ 24 -> isfinite (of_Z z) = true.
Proof.
  intros Hz. destruct z as [|p|p].
  - reflexivity.
  - destruct (of_Z_pos (Zpos p) ltac:(lia)) as (m & e & -> & _). reflexivity.
  - unfold of_Z. cbn [binary_normalize].
    pose proof (digits2_pos_bounds p) as Hd.
    set (d := Zpos (digits2_pos p)) in *.
    assert (1 <= d <= 24) as Hd24.
    { split; [subst d; lia|].
      destruct (Z.leb_spec d 24) as [|Hbig]; [assumption|exfalso].
      assert (2 ^ 24 <= 2 ^ (d - 1)) by (apply Z.pow_le_mono_r; lia). lia. }
    pose proof (binary_round_spec true p 0) as H. cbv zeta in H.
    fold d in H. rewrite Z.add_0_r, fexp_eq in H.
    rewrite (Z.max_l (d - 24)), (Z.min_r 0) in H by lia.
    rewrite Z.sub_diag in H. change (2 ^ 0) with 1 in H.
    rewrite Z.div_1_r in H.
    destruct H as (m1 & m2 & e2 & Hr & _).
    + pose proof (pow2_pos (0 - (d - 24)) ltac:(lia)). nia.
    + unfold emax, prec. lia.
    + rewrite Hr. reflexivity.
Qed.

(** *** Division of normal numbers *)

Lemma div_normal (m1 m2 : positive) (e1 e2 : Z) :
  2 ^ 23 <= Zpos m1 < 2 ^ 24 ->
  2 ^ 23 <= Zpos m2 < 2 ^ 24 ->
  -100 <= e1 - e2 <= 100 ->
  normal_pos (div (S754_finite false m1 e1) (S754_finite false m2 e2))
             (e1 - e2 - 24) (e1 - e2 - 22).
Proof.
  intros H1 H2 He.
  assert (Zdigits2 (Zpos m1) = 24) as D1 by (apply Zdigits2_unique; lia).
  assert (Zdigits2 (Zpos m2) = 24) as D2 by (apply Zdigits2_unique; lia).
  unfold div, SFdiv, SFdiv_core_binary. rewrite D1, D2.
  replace (24 + e1 - (24 + e2)) with (e1 - e2) by lia.
  rewrite fexp_eq, (Z.max_l (e1 - e2 - 24)) by lia.
  rewrite (Z.min_l (e1 - e2 - 24)) by lia.
  replace (e1 - e2 - (e1 - e2 - 24)) with 24 by lia.
  cbv iota beta. rewrite Z.shiftl_mul_pow2 by lia.
  set (a := Zpos m1 * 2 ^ 24).
  pose proof (Z.div_eucl_eq a (Zpos m2) ltac:(lia)) as Hdiv.
  pose proof (Z.mod_pos_bound a (Zpos m2) ltac:(lia)) as Hmod.
  unfold Z.modulo in Hmod.
  destruct (Z.div_eucl a (Zpos m2)) as [q r]. cbn [xorb].
  assert (2 ^ 23 <= q < 2 ^ 25) as Hq.
  { subst a. change (2 ^ 25) with (2 * 2 ^ 24).
    change (2 ^ 24) with 16777216 in *. change (2 ^ 23) with 8388608 in *.
    nia. }
  set (l := new_location (Zpos m2) r).
  assert (Zdigits2 q = 24 \/ Zdigits2 q = 25) as Dq.
  { destruct (Z.ltb_spec q (2 ^ 24)).
    - left. apply Zdigits2_unique; lia.
    - right. apply Zdigits2_unique; lia. }
  pose proof (binary_round_aux_spec false q (e1 - e2 - 24) l ltac:(lia)) as H.
  cbv zeta in H. rewrite fexp_eq in H.
  destruct Dq as [Dq|Dq]; rewrite Dq in H.
  - rewrite (Z.max_l (24 + (e1 - e2 - 24) - 24)) in H by lia.
    replace (24 + (e1 - e2 - 24) - 24 - (e1 - e2 - 24)) with 0 in H by lia.
    change (2 ^ 0) with 1 in H. rewrite Z.div_1_r in H.
    destruct H as (m1' & m' & e' & Hr & _ & _ & He' & _ & Hcan);
      [lia|lia|unfold emax, prec; lia|].
    exists m', e'. rewrite Hr. split; [reflexivity|]. split.
    + apply (canonical_normal m' e' Hcan). lia.
    + lia.
  - rewrite (Z.max_l (25 + (e1 - e2 - 24) - 24)) in H by lia.
    replace (25 + (e1 - e2 - 24) - 24 - (e1 - e2 - 24)) with 1 in H by lia.
    change (2 ^ 1) with 2 in H.
    assert (2 ^ 23 <= q / 2) as Hq2.
    { apply Z.div_le_lower_bound; [lia|].
      assert (Zdigits2 q = 25) as Dq' by exact Dq.
      pose proof (Zdigits2_pos q ltac:(lia)) as [[B _] _].
      rewrite Dq' in B. change (2 ^ (25 - 1)) with (2 * 2 ^ 23) in B. lia. }
    destruct H as (m1' & m' & e' & Hr & _ & _ & He' & _ & Hcan);
      [lia|lia|unfold emax, prec; lia|].
    exists m', e'. rewrite Hr. split; [reflexivity|]. split.
    + apply (canonical_normal m' e' Hcan). lia.
    + lia.
Qed.

(** *** Comparisons *)

Lemma SFcompare_antisym (x y : float32) :
  SFcompare y x = option_map CompOpp (SFcompare x y).
Proof.
  destruct x as [sx|sx| |sx mx ex], y as [sy|sy| |sy my ey];
    cbn [SFcompare option_map CompOpp]; try reflexivity;
    try (destruct sx; reflexivity); try (destruct sy; reflexivity);
    try (destruct sx, sy; reflexivity).
  destruct sx, sy; cbn [CompOpp]; try reflexivity;
    rewrite (Z.compare_antisym ey ex);
    destruct (ey ?= ex); cbn [CompOpp]; try reflexivity;
    rewrite (Pos.compare_cont_antisym mx my Eq); cbn [CompOpp];
    destruct (Pos.compare_cont Eq mx my); reflexivity.
Qed.

Lemma SFcompare_some (x y : float32) :
  is_nan x = false -> is_nan y = false -> exists c, SFcompare x y = Some c.
Proof.
  destruct x, y; try discriminate; intros _ _; cbn [SFcompare]; eauto.
Qed.

(** On numbers, "not greater" is "at most". *)
Lemma not_gtb_leb (x y : float32) :
  is_nan x = false -> is_nan y = false -> gtb x y = false -> leb x y = true.
Proof.
  unfold gtb, leb, SFltb, SFleb. intros Hx Hy.
  rewrite (SFcompare_antisym x y).
  destruct (SFcompare_some x y Hx Hy) as [c ->].
  destruct c; cbn; congruence.
Qed.

Lemma not_ltb_geb (x y : float32) :
  is_nan x = false -> is_nan y = false -> ltb x y = false -> leb y x = true.
Proof.
  intros Hx Hy H. apply not_gtb_leb; assumption.
Qed.

(** Widening a bound between two positive finite constants of the same
    exponent. *)
Lemma leb_widen (x : float32) (m m' : positive) (e : Z) :
  (m <= m')%positive ->
  leb x (S754_finite false m e) = true ->
  leb x (S754_finite false m' e) = true.
Proof.
  unfold leb, SFleb. intros Hm.
  destruct x as [sx|sx| |sx mx ex]; cbn [SFcompare].
  - intros _. reflexivity.
  - destruct sx; [reflexivity|discriminate].
  - discriminate.
  - destruct sx; [reflexivity|].
    destruct (ex ?= e); try (intros; assumption).
    rewrite !Pos.compare_cont_spec. cbn [Pos.switch_Eq].
    destruct (Pos.compare_spec mx m); destruct (Pos.compare_spec mx m');
      try discriminate; try reflexivity; lia.
Qed.

Lemma geb_widen_strict (x : float32) (m m' : positive) (e : Z) :
  (m < m')%positive ->
  leb (S754_finite true m e) x = true ->
  ltb (S754_finite true m' e) x = true.
Proof.
  unfold leb, ltb, SFleb, SFltb. intros Hm.
  destruct x as [sx|sx| |sx mx ex]; cbn [SFcompare].
  - intros _. reflexivity.
  - destruct sx; [discriminate|reflexivity].
  - discriminate.
  - destruct sx; [|reflexivity].
    destruct (e ?= ex); try (intros; assumption).
    rewrite !Pos.compare_cont_spec. cbn [Pos.switch_Eq].
    destruct (Pos.compare_spec m mx); destruct (Pos.compare_spec m' mx);
      cbn [CompOpp]; try discriminate; try reflexivity; lia.
Qed.

(** *** Quotients of positive numbers *)

Lemma div_pos_nonneg (m1 m2 : positive) (e1 e2 : Z) :
  nonneg (div (S754_finite false m1 e1) (S754_finite false m2 e2)) = true.
Proof.
  unfold div, SFdiv, SFdiv_core_binary.
  set (e' := Z.min _ _). set (a := match _ with Z0 => _ | _ => _ end).
  assert (0 <= a) as Ha.
  { subst a. destruct (e1 - e2 - e') eqn:E; try lia.
    rewrite Z.shiftl_mul_pow2 by lia.
    pose proof (pow2_pos (Zpos p) ltac:(lia)). nia. }
  pose proof (Z.div_pos a (Zpos m2) Ha ltac:(lia)) as Hq.
  unfold Z.div in Hq. destruct (Z.div_eucl a (Zpos m2)) as [q r].
  cbn [fst xorb] in *.
  destruct (binary_round_aux_shape false q e' (new_location (Zpos m2) r) Hq)
    as [-> | [-> | (m' & e'' & ->)]]; reflexivity.
Qed.

(** *** Validity of the operations' results *)





(** *** Adding one half and truncating *)



Lemma pow2_split (a b : Z) :
  0 <= b <= a -> 2 ^ a = 2 ^ (a - b) * 2 ^ b.
Proof.
  intros H. rewrite <- Z.pow_add_r by lia. f_equal. lia.
Qed.

Lemma pow2_mod (a b : Z) : 0 <= b <= a -> 2 ^ a mod 2 ^ b = 0.
Proof.
  intros H. rewrite (pow2_split a b H). apply Z.mod_mul.
  pose proof (pow2_pos b ltac:(lia)). lia.
Qed.

Lemma pow2_le (a b : Z) : 0 <= a <= b -> 2 ^ a <= 2 ^ b.
Proof. intros H. apply Z.pow_le_mono_r; lia. Qed.






Lemma canonical_digits (m : positive) (e : Z) :
  canonical_mantissa prec emax m e = true ->
  Zpos m < 2 ^ 24 /\ -149 <= e.
Proof.
  unfold canonical_mantissa. intros Hc. apply Z.eqb_eq in Hc.
  rewrite fexp_eq in Hc.
  pose proof (digits2_pos_bounds m) as [_ Hhi].
  assert (Zpos (digits2_pos m) <= 24) as Hd by lia.
  assert (2 ^ Zpos (digits2_pos m) <= 2 ^ 24) by (apply pow2_le; lia).
  lia.
Qed.


End F32Facts.

(** * Order and rounding of binary32 *)

Module F32Order.
Import F32Facts.








(** *** Rounding cannot cross a float *)







(** *** Rounding error *)






(** *** The step of a moving average *)





Section Band.

(** The bounds of the band: two canonical floats. *)
Variables mlo mhi : positive.
Variables elo ehi : Z.
Hypothesis lo_canonical : canonical_mantissa prec emax mlo elo = true.
Hypothesis hi_canonical : canonical_mantissa prec emax mhi ehi = true.
Hypothesis lo_exponent : -120 <= elo.
Hypothesis hi_exponent : ehi <= 70.




End Band.

End F32Order.

(** * Properties of the frequency acquisition engine *)

Module FreqProps.
Import Freq.

Lemma freq_read_no_capture t_ok t_chk st :
  s_newCap st = false ->
  freq_read t_ok t_chk st = (timeout_check t_chk st, st).
Proof. intros H. unfold freq_read. now rewrite H. Qed.

Lemma freq_read_priming t_ok t_chk st :
  s_newCap st = true -> s_prevIcr32 st = 0 ->
  freq_read t_ok t_chk st
  = (s_freq_ema st, set_prevIcr32 (s_icr32 st) (set_newCap false st)).
Proof.
  intros H1 H2. unfold freq_read. rewrite H1. cbn. now rewrite H2.
Qed.

Lemma freq_read_period t_ok t_chk st :
  s_newCap st = true -> s_prevIcr32 st <> 0 ->
  let ticks := Int.u32 (s_icr32 st - s_prevIcr32 st) in
  let st' := accept ticks t_ok
               (set_prevIcr32 (s_icr32 st) (set_newCap false st)) in
  freq_read t_ok t_chk st = (timeout_check t_chk st', st').
Proof.
  intros H1 H2. unfold freq_read. rewrite H1. cbn.
  destruct (Z.eqb_spec (s_prevIcr32 st) 0) as [E|E]; [contradiction|].
  reflexivity.
Qed.

Lemma accept_baseline ticks now st :
  s_prevIcr32 (accept ticks now st) = s_prevIcr32 st.
Proof.
  unfold accept.
  destruct ((TICKS_MIN <=? ticks) && (ticks <=? TICKS_MAX)); [|reflexivity].
  destruct (isfinite (raw_hz ticks)); reflexivity.
Qed.

Lemma accept_out_of_band ticks now st :
  ticks < TICKS_MIN \/ TICKS_MAX < ticks -> accept ticks now st = st.
Proof.
  intros H. unfold accept.
  destruct (Z.leb_spec TICKS_MIN ticks), (Z.leb_spec ticks TICKS_MAX);
    cbn; try reflexivity; lia.
Qed.

Lemma timeout_check_elapsed now st :
  Int.u32 (Int.u32 now - s_lastOkMs st) > NO_SIGNAL_TIMEOUT_MS ->
  timeout_check now st = NO_SIGNAL.
Proof.
  intros H. unfold timeout_check.
  destruct (Z.gtb_spec (Int.u32 (Int.u32 now - s_lastOkMs st))
                       NO_SIGNAL_TIMEOUT_MS); [reflexivity|lia].
Qed.


(** Every reading of the valid band is a finite float above zero. *)
Lemma band_reading_positive ticks :
  TICKS_MIN <= ticks <= TICKS_MAX -> is_pos_finite (raw_hz ticks) = true.
Proof.
  unfold TICKS_MIN, TICKS_MAX. intros Hband. unfold raw_hz.
  change (of_Z TIMER1_CLK_HZ) with (S754_finite false 16000000 (-3)).
  destruct (F32Facts.of_Z_pos ticks) as (m & e & -> & Hm & He).
  { change (2 ^ 24) with 16777216. lia. }
  pose proof (F32Facts.Zdigits2_pos ticks ltac:(lia)) as [[Dlo Dhi] D1].
  assert (8 <= Zdigits2 ticks <= 17) as Hd.
  { split.
    - destruct (Z.leb_spec 8 (Zdigits2 ticks)) as [|Hs]; [assumption|exfalso].
      assert (2 ^ Zdigits2 ticks <= 2 ^ 7) by (apply Z.pow_le_mono_r; lia).
      change (2 ^ 7) with 128 in *. lia.
    - destruct (Z.leb_spec (Zdigits2 ticks) 17) as [|Hs]; [assumption|exfalso].
      assert (2 ^ 17 <= 2 ^ (Zdigits2 ticks - 1))
        by (apply Z.pow_le_mono_r; lia).
      change (2 ^ 17) with 131072 in *. lia. }
  destruct (F32Facts.div_normal 16000000 m (-3) e) as (m' & e' & -> & _).
  - change (2 ^ 23) with 8388608. change (2 ^ 24) with 16777216. lia.
  - exact Hm.
  - lia.
  - reflexivity.
Qed.

(** A state that holds a valid estimate of 440 Hz, last updated at
    millisecond [last], with baseline [prev] and a pending capture [cap]
    when [pending] is set. *)
Definition tracking (prev cap : Z) (pending : bool) (last : Z) : state :=
  {| s_ovf := 0; s_icr32 := cap; s_newCap := pending; s_prevIcr32 := prev;
     s_freq_ema := lit 440 1; s_freq_raw := lit 440 1; s_lastOkMs := last |}.

(** C5: a [freq_read] call that consumes a sample with the baseline set
    stores that sample as the new baseline whatever its delta; when the
    delta is outside [TICKS_MIN, TICKS_MAX], and for the delta
    [TICKS_MAX + 1] in particular, the smoothed estimate, the raw reading
    and the last-valid time are left as they were. *)
Theorem out_of_band_delta_rejected t_ok t_chk st :
  s_newCap st = true ->
  s_prevIcr32 st <> 0 ->
  let ticks := Int.u32 (s_icr32 st - s_prevIcr32 st) in
  let st' := snd (freq_read t_ok t_chk st) in
  s_prevIcr32 st' = s_icr32 st
  /\ (ticks < TICKS_MIN \/ TICKS_MAX < ticks ->
        s_freq_ema st' = s_freq_ema st
        /\ s_freq_raw st' = s_freq_raw st
        /\ s_lastOkMs st' = s_lastOkMs st)
  /\ (ticks = TICKS_MAX + 1 -> s_freq_ema st' = s_freq_ema st).
Proof.
  intros Hcap Hprev ticks st'. subst st'.
  rewrite (freq_read_period t_ok t_chk st Hcap Hprev). cbn [snd].
  fold ticks. split; [|split].
  - now rewrite accept_baseline.
  - intros Hout. rewrite (accept_out_of_band _ _ _ Hout). cbn. auto.
  - intros Hmax. rewrite accept_out_of_band by lia. reflexivity.
Qed.

Lemma out_of_band_delta_rejected_witness :
  let st := tracking 1000 (1000 + (TICKS_MAX + 1)) true 0 in
  s_prevIcr32 (snd (freq_read 5 5 st)) = 67667
  /\ s_freq_ema (snd (freq_read 5 5 st)) = lit 440 1.
Proof.
  cbv zeta.
  destruct (out_of_band_delta_rejected 5 5
              (tracking 1000 (1000 + (TICKS_MAX + 1)) true 0))
    as [H1 [_ H3]].
  - reflexivity.
  - cbn. discriminate.
  - split; [exact H1|]. apply H3. vm_compute. reflexivity.
Defined.

(** The baseline stays 0 from [freq_init] until a sample is consumed, so
    the first sample consumed after initialisation is always primed. *)
Definition is_read (ev : event) : bool :=
  match ev with EvRead _ _ => true | _ => false end.

Lemma baseline_until_first_read evs :
  forallb (fun ev => negb (is_read ev)) evs = true ->
  forall st, s_prevIcr32 st = 0 -> s_prevIcr32 (fst (run st evs)) = 0.
Proof.
  induction evs as [|ev evs IH]; intros Hevs st Hst; [exact Hst|].
  cbn in Hevs. apply andb_prop in Hevs as [Hev Hevs].
  cbn [run]. destruct (step st ev) as [st1 r] eqn:Estep.
  specialize (IH Hevs st1).
  destruct (run st1 evs) as [st2 rs]. cbn [fst] in *.
  apply IH. destruct ev; cbn in Estep; try discriminate;
    inversion Estep; subst; exact Hst.
Qed.

Lemma first_sample_is_primed evs now t_ok t_chk :
  forallb (fun ev => negb (is_read ev)) evs = true ->
  let st := fst (run (freq_init now) evs) in
  s_newCap st = true ->
  freq_read t_ok t_chk st
  = (s_freq_ema st, set_prevIcr32 (s_icr32 st) (set_newCap false st)).
Proof.
  intros Hevs st Hcap. apply freq_read_priming; [exact Hcap|].
  apply (baseline_until_first_read evs Hevs). reflexivity.
Qed.

(** C6 (the code at the failing input): the first capture carries the
    extended timestamp 0; the second sample, 1000 ticks later, is primed
    again and no frequency is derived from it.  With the first capture at
    tick 1 the same period yields 2000 Hz. *)
Theorem zero_timestamp_primes_twice :
  run (freq_init 0)
      [EvCapture 0 false; EvRead 1 1; EvCapture 1000 false; EvRead 2 2]
  = ({| s_ovf := 0; s_icr32 := 1000; s_newCap := false; s_prevIcr32 := 1000;
        s_freq_ema := NaN; s_freq_raw := NaN; s_lastOkMs := 0 |},
     [NaN; NaN])
  /\ run (freq_init 0)
      [EvCapture 1 false; EvRead 1 1; EvCapture 1001 false; EvRead 2 2]
  = ({| s_ovf := 0; s_icr32 := 1001; s_newCap := false; s_prevIcr32 := 1001;
        s_freq_ema := lit 2000 1; s_freq_raw := lit 2000 1; s_lastOkMs := 2 |},
     [NaN; lit 2000 1]).
Proof. split; vm_compute; reflexivity. Qed.

End FreqProps.

(** * Properties of the pitch mapper and of the renderer *)

Module HTProps.
Import HT.
Local Open Scope ht_scope.

(** An erased table ROM and a stand-in for [logf], for the concrete runs
    that reach neither. *)
Definition erased : rom :=
  {| Font_6x8 := fun _ _ => 0;
     font_small_numbers := fun _ _ => 0;
     font_tall6_notes_condensed := fun _ _ => 0;
     font_tall6_alterations := fun _ _ => 0;
     font_micro_numbers := fun _ _ => 0;
     font_keyboard := repeat 0 40 |}.

Definition no_logf : float32 -> float32 := fun _ => NaN.

(** A coarse stand-in for [logf], for the concrete runs that need a
    logarithm: [ln 2] times the binary exponent of the argument, which is
    the logarithm at the powers of two and 0 at 1. *)
Definition LN2 : float32 :=
  Eval vm_compute in lit 6931471805599453 10000000000000000.

Definition logf_coarse (x : float32) : float32 :=
  match x with
  | S754_nan => NaN
  | S754_zero _ => S754_infinity true
  | S754_infinity s => if s then NaN else x
  | S754_finite s m e =>
      if s then NaN else mul (of_Z (Zpos (digits2_pos m) + e - 1)) LN2
  end.

(** Middle C for A4 = 440 Hz, as the piano view computes it. *)
Definition middle_c : float32 := Eval vm_compute in mul c_440 A2C4.

Definition with_mode (m : tuner_view_mode_t) (st : state) : state :=
  state_of (set_mode m st).

Definition with_prev_col (c : Z) (st : state) : state :=
  state_of (set_prev_col c st).

(** The bus traffic of one [write_byte] call. *)
Definition byte_write (addr idx v : Z) : list wire :=
  [Begin addr; Write CMD_DISPLAY_DATA_INPUT_COMMAND;
   Write (Int.u8 (Int.u8 idx * 2)); Write v; End_; Delay 1].

(** The bus traffic of one [clear_display] call. *)
Definition row_clear (addr rown : Z) : list wire :=
  [Begin addr; Write CMD_DISPLAY_DATA_INPUT_COMMAND; Write rown]
  ++ repeat (Write 0) 8 ++ [End_; Delay 1].

Definition clear_traffic (addr : Z) : list wire :=
  row_clear addr 0 ++ row_clear addr 16 ++ row_clear addr 32
  ++ row_clear addr 48 ++ row_clear addr 64.

(** The bus traffic of [i2c_sendout_bitmap(0)] for a 40-byte buffer. *)
Definition bitmap_traffic (addr : Z) (buf : list Z) : list wire :=
  [Begin addr; Write CMD_DISPLAY_DATA_INPUT_COMMAND; Write 0]
  ++ map Write (take 30 buf) ++ [End_; Delay 1]
  ++ [Begin addr; Write CMD_DISPLAY_DATA_INPUT_COMMAND; Write 60]
  ++ map Write (drop 30 buf) ++ [End_; Delay 1].

(** The bus traffic of the label transaction. *)
Definition label_traffic (addr : Z) (bytes : list Z) : list wire :=
  [Begin addr; Write CMD_DISPLAY_DATA_INPUT_COMMAND; Write 64]
  ++ map Write bytes ++ [End_].

Lemma write_byte_run idx v st :
  write_byte idx v st
  = (Int.u8 (Int.u8 idx + 2),
     state_of (set_memory_pointer (Int.u8 idx + 2) st),
     byte_write (_device_i2c_addr st) idx v).
Proof. destruct st. reflexivity. Qed.

Lemma column_in_range st_c : 0 <= column_of_semitones st_c <= 27.
Proof. unfold column_of_semitones. apply IntFacts.constrain_range. lia. Qed.

Lemma move_cursor_same col st :
  col = s_prev_col st -> move_cursor col st = (tt, st, []).
Proof.
  intros ->. destruct st. unfold move_cursor, bind, get. cbn.
  rewrite Z.eqb_refl. reflexivity.
Qed.

Lemma move_cursor_replace col st :
  col <> s_prev_col st -> 0 <= s_prev_col st <= 27 ->
  let addr := _device_i2c_addr st in
  let buf := _bitmap_buffer st in
  let old_px := col_to_buf_row6 (Int.u8 (s_prev_col st)) in
  let new_px := col_to_buf_row6 (Int.u8 col) in
  let v1 := Z.lxor (buf_get buf (fst old_px)) (snd old_px) in
  let buf1 := buf_set buf (fst old_px) v1 in
  let v2 := Z.lxor (buf_get buf1 (fst new_px)) (snd new_px) in
  trace_of (move_cursor col st)
  = byte_write addr (fst old_px) v1 ++ byte_write addr (fst new_px) v2
  /\ _bitmap_buffer (state_of (move_cursor col st)) = buf_set buf1 (fst new_px) v2
  /\ s_prev_col (state_of (move_cursor col st)) = Int.i8 col.
Proof.
  intros Hne Hin. destruct st as [addr mp buf mode pc pn pa po].
  cbn [s_prev_col _device_i2c_addr _bitmap_buffer] in *.
  unfold move_cursor, bind, get. cbn -[col_to_buf_row6 Int.u8 Int.i8 buf_get buf_set].
  destruct (Z.eqb_spec col pc) as [E|_]; [contradiction|].
  destruct (Z.geb_spec pc 0) as [_|F]; [|lia].
  destruct (Z.leb_spec pc 27) as [_|F]; [|lia].
  cbn -[col_to_buf_row6 Int.u8 Int.i8 buf_get buf_set].
  destruct (col_to_buf_row6 (Int.u8 pc)) as [pidx pmask].
  destruct (col_to_buf_row6 (Int.u8 col)) as [bidx bmask].
  cbn -[Int.u8 Int.i8 buf_get buf_set]. auto.
Qed.

Lemma move_cursor_first col st :
  col <> s_prev_col st -> ~ (0 <= s_prev_col st <= 27) ->
  let addr := _device_i2c_addr st in
  let buf := _bitmap_buffer st in
  let new_px := col_to_buf_row6 (Int.u8 col) in
  let v2 := Z.lxor (buf_get buf (fst new_px)) (snd new_px) in
  trace_of (move_cursor col st) = byte_write addr (fst new_px) v2
  /\ _bitmap_buffer (state_of (move_cursor col st)) = buf_set buf (fst new_px) v2
  /\ s_prev_col (state_of (move_cursor col st)) = Int.i8 col.
Proof.
  intros Hne Hout. destruct st as [addr mp buf mode pc pn pa po].
  cbn [s_prev_col _device_i2c_addr _bitmap_buffer] in *.
  unfold move_cursor, bind, get. cbn -[col_to_buf_row6 Int.u8 Int.i8 buf_get buf_set].
  destruct (Z.eqb_spec col pc) as [E|_]; [contradiction|].
  assert ((pc >=? 0) && (pc <=? 27) = false) as ->.
  { destruct (Z.geb_spec pc 0), (Z.leb_spec pc 27); cbn; try reflexivity; lia. }
  cbn -[col_to_buf_row6 Int.u8 Int.i8 buf_get buf_set].
  destruct (col_to_buf_row6 (Int.u8 col)) as [bidx bmask].
  cbn -[Int.u8 Int.i8 buf_get buf_set]. auto.
Qed.

Lemma move_cursor_keeps_label col st :
  s_prev_note_idx (state_of (move_cursor col st)) = s_prev_note_idx st.
Proof.
  destruct st as [addr mp b mode pc pn pa po].
  unfold move_cursor, bind, get. cbn -[col_to_buf_row6 Int.u8 Int.i8 buf_get buf_set].
  destruct (col =? pc); [reflexivity|].
  destruct ((pc >=? 0) && (pc <=? 27));
    cbn -[col_to_buf_row6 Int.u8 Int.i8 buf_get buf_set];
    repeat match goal with
           | |- context [col_to_buf_row6 ?c] => destruct (col_to_buf_row6 c)
           end; reflexivity.
Qed.

Lemma move_cursor_keeps_addr col st :
  _device_i2c_addr (state_of (move_cursor col st)) = _device_i2c_addr st.
Proof.
  destruct st as [addr mp b mode pc pn pa po].
  unfold move_cursor, bind, get. cbn -[col_to_buf_row6 Int.u8 Int.i8 buf_get buf_set].
  destruct (col =? pc); [reflexivity|].
  destruct ((pc >=? 0) && (pc <=? 27));
    cbn -[col_to_buf_row6 Int.u8 Int.i8 buf_get buf_set];
    repeat match goal with
           | |- context [col_to_buf_row6 ?c] => destruct (col_to_buf_row6 c)
           end; reflexivity.
Qed.

(** The piano draw of a finite positive frequency: its column and the
    split of its bus traffic. *)
Lemma piano_cursor_shape logf tables freq ref_a4 st :
  isfinite freq = true ->
  leb freq zero = false ->
  let st_c := semitones_from_c4 logf freq (effective_reference ref_a4) in
  let col := column_of_semitones st_c in
  0 <= col <= 27
  /\ trace_of (display_keyboard_drift logf tables freq ref_a4 st)
     = trace_of (move_cursor col st)
       ++ trace_of (update_label tables col (octave_of_semitones st_c)
                                 (state_of (move_cursor col st))).
Proof.
  intros Hfin Hpos st_c col.
  split; [apply column_in_range|].
  unfold display_keyboard_drift. rewrite Hfin, Hpos. cbn [negb orb].
  fold st_c. fold col. unfold bind, trace_of, state_of.
  destruct (move_cursor col st) as [[u st1] t1]. cbn [fst snd].
  destruct (update_label tables col (octave_of_semitones st_c) st1)
    as [[u2 st2] t2]. reflexivity.
Qed.

(** C9 (as amended): in piano-keyboard mode the cursor column is clamped
    to [0, 27]; the call's bus traffic is that of the cursor update followed
    by that of the label update; the cursor update writes nothing when the
    column is the previous one, two single bytes (the XOR-toggled byte of
    the previous pixel, then the XOR-toggled byte of the new pixel) when the
    previous column is a visible one, and the new pixel's byte alone when
    the previous column is the "unknown" sentinel. *)
Theorem piano_cursor_writes logf tables freq ref_a4 st :
  isfinite freq = true ->
  leb freq zero = false ->
  let st_c := semitones_from_c4 logf freq (effective_reference ref_a4) in
  let col := column_of_semitones st_c in
  let addr := _device_i2c_addr st in
  let buf := _bitmap_buffer st in
  let old_px := col_to_buf_row6 (Int.u8 (s_prev_col st)) in
  let new_px := col_to_buf_row6 (Int.u8 col) in
  let v1 := Z.lxor (buf_get buf (fst old_px)) (snd old_px) in
  let buf1 := buf_set buf (fst old_px) v1 in
  0 <= col <= 27
  /\ trace_of (display_keyboard_drift logf tables freq ref_a4 st)
     = trace_of (move_cursor col st)
       ++ trace_of (update_label tables col (octave_of_semitones st_c)
                                 (state_of (move_cursor col st)))
  /\ (col = s_prev_col st -> move_cursor col st = (tt, st, []))
  /\ (col <> s_prev_col st -> 0 <= s_prev_col st <= 27 ->
        trace_of (move_cursor col st)
        = byte_write addr (fst old_px) v1
          ++ byte_write addr (fst new_px)
               (Z.lxor (buf_get buf1 (fst new_px)) (snd new_px)))
  /\ (col <> s_prev_col st -> ~ (0 <= s_prev_col st <= 27) ->
        trace_of (move_cursor col st)
        = byte_write addr (fst new_px)
            (Z.lxor (buf_get buf (fst new_px)) (snd new_px))).
Proof.
  intros Hfin Hpos st_c col addr buf old_px new_px v1 buf1.
  destruct (piano_cursor_shape logf tables freq ref_a4 st Hfin Hpos)
    as (Hcol & Htrace).
  split; [exact Hcol|]. split; [exact Htrace|]. split; [|split].
  - apply move_cursor_same.
  - intros Hne Hin. apply (move_cursor_replace col st Hne Hin).
  - intros Hne Hout. apply (move_cursor_first col st Hne Hout).
Qed.

Lemma piano_cursor_writes_witness :
  trace_of (move_cursor
              (column_of_semitones
                 (semitones_from_c4 logf_coarse middle_c
                                    (effective_reference c_440)))
              (with_prev_col 5 initial))
  = byte_write 104 6 4 ++ byte_write 104 6 36.
Proof.
  pose proof (piano_cursor_writes logf_coarse erased middle_c c_440
                (with_prev_col 5 initial) eq_refl eq_refl) as H.
  cbv zeta in H. destruct H as (_ & _ & _ & H & _).
  rewrite H.
  - vm_compute. reflexivity.
  - vm_compute. discriminate.
  - vm_compute. split; discriminate.
Defined.

(** C9 (as stated) fails: right after the keyboard is drawn the previous
    column is the sentinel -1, and moving the cursor to column 20 makes one
    single-byte write, not two. *)
Lemma first_cursor_draw_is_one_write :
  20 <> s_prev_col initial
  /\ trace_of (move_cursor 20 initial) = byte_write 104 22 8.
Proof. split; [discriminate|vm_compute; reflexivity]. Qed.

(** *** The mode switch *)

Ltac split_list40 l :=
  do 40 (destruct l as [|? l]; [discriminate|]);
  destruct l; [|discriminate].

Lemma sendout_full buf st :
  length buf = 40%nat ->
  _bitmap_buffer st = buf ->
  i2c_sendout_bitmap 0 st = (tt, st, bitmap_traffic (_device_i2c_addr st) buf).
Proof.
  intros Hlen Hbuf. destruct st as [addr mp b mode pc pn pa po].
  cbn in Hbuf. subst b. split_list40 buf. reflexivity.
Qed.

Lemma clear_display_run st :
  clear_display st
  = (tt,
     state_of (set_memory_pointer 0 (state_of (set_bitmap_buffer (repeat 0 40) st))),
     clear_traffic (_device_i2c_addr st)).
Proof. destruct st. reflexivity. Qed.

Lemma display_keyboard_run tables st :
  length (font_keyboard tables) = 40%nat ->
  length (_bitmap_buffer st) = 40%nat ->
  display_keyboard tables st
  = (tt,
     state_of (set_prev_label 255 99 99
       (state_of (set_prev_col (-1)
         (state_of (set_bitmap_buffer (font_keyboard tables) st))))),
     bitmap_traffic (_device_i2c_addr st) (font_keyboard tables)).
Proof.
  intros Hfk Hbuf. destruct st as [addr mp b mode pc pn pa po].
  cbn in Hbuf. unfold display_keyboard, bind, get.
  cbn [_bitmap_buffer]. rewrite Hfk.
  replace (drop 40 b) with (@nil Z) by (split_list40 b; reflexivity).
  rewrite app_nil_r.
  unfold set_bitmap_buffer, state_of. cbn [fst snd].
  cbv beta iota zeta.
  rewrite (sendout_full (font_keyboard tables)) by (assumption || reflexivity).
  cbn [set_prev_col set_prev_label _device_i2c_addr app].
  rewrite app_nil_r. reflexivity.
Qed.

Lemma note_index_small n : 0 <= nth n kCol2NoteIdx 0 <= 6.
Proof.
  do 28 (destruct n as [|n]; [cbn; lia|]). destruct n; cbn; lia.
Qed.

Lemma update_label_forced tables col oct st :
  s_prev_note_idx st = 255 ->
  exists bytes,
    trace_of (update_label tables col oct st)
    = label_traffic (_device_i2c_addr st) bytes
    /\ length bytes = 8%nat.
Proof.
  intros Hprev. destruct st as [addr mp b mode pc pn pa po].
  cbn in Hprev. subst pn. unfold update_label, bind, get.
  cbn [s_prev_note_idx s_prev_alt s_prev_octave].
  pose proof (note_index_small (Z.to_nat col)) as Hn.
  destruct (Z.eqb_spec (nth (Z.to_nat col) kCol2NoteIdx 0) 255) as [E|_];
    [lia|].
  cbn [negb orb].
  exists (map (fun i => label_byte tables (nth (Z.to_nat col) kCol2NoteIdx 0)
                             (Int.i8 (Int.u8 (nth (Z.to_nat col) kCol2Alter 0)))
                             oct (Z.of_nat i)) (seq 0 8)).
  split; reflexivity.
Qed.

Lemma set_tuner_view_mode_piano tables st :
  length (font_keyboard tables) = 40%nat ->
  set_tuner_view_mode tables piano_view st
  = (piano_view,
     {| _device_i2c_addr := _device_i2c_addr st;
        _memory_pointer := 0;
        _bitmap_buffer := font_keyboard tables;
        _tuner_view_mode := piano_view;
        s_prev_col := -1;
        s_prev_note_idx := 255;
        s_prev_alt := 99;
        s_prev_octave := 99 |},
     clear_traffic (_device_i2c_addr st)
     ++ bitmap_traffic (_device_i2c_addr st) (font_keyboard tables)).
Proof.
  intros Hfk. destruct st as [addr mp b mode pc pn pa po].
  unfold set_tuner_view_mode, update_display, bind, get.
  cbn [set_mode]. rewrite clear_display_run.
  cbn [state_of set_memory_pointer set_bitmap_buffer fst snd
       _tuner_view_mode mode_eqb _device_i2c_addr _bitmap_buffer
       _memory_pointer s_prev_col s_prev_note_idx s_prev_alt s_prev_octave].
  rewrite (display_keyboard_run tables) by (assumption || reflexivity).
  cbn [state_of set_prev_label set_prev_col set_bitmap_buffer fst snd
       _tuner_view_mode _device_i2c_addr _bitmap_buffer
       _memory_pointer s_prev_col s_prev_note_idx s_prev_alt s_prev_octave ret].
  rewrite !app_nil_r, !app_nil_l. reflexivity.
Qed.

Lemma set_tuner_view_mode_other tables mode st :
  mode <> piano_view ->
  set_tuner_view_mode tables mode st
  = (mode,
     {| _device_i2c_addr := _device_i2c_addr st;
        _memory_pointer := 0;
        _bitmap_buffer := repeat 0 40;
        _tuner_view_mode := mode;
        s_prev_col := s_prev_col st;
        s_prev_note_idx := s_prev_note_idx st;
        s_prev_alt := s_prev_alt st;
        s_prev_octave := s_prev_octave st |},
     clear_traffic (_device_i2c_addr st) ++ clear_traffic (_device_i2c_addr st)).
Proof.
  intros Hmode. destruct st as [addr mp b m0 pc pn pa po].
  destruct mode; [reflexivity|reflexivity|contradiction].
Qed.

(** C8 (as amended): every [set_tuner_view_mode] call stores the mode and
    clears the framebuffer and the display.  When the new mode is the piano
    view the keyboard bitmap is then sent in full and the piano view's
    diff-tracking state (previous column, previous note, accidental and
    octave) is reset to the sentinels -1, 255, 99 and 99, so that the next
    piano draw of a finite positive frequency writes the cursor byte and the
    label whatever was drawn before; for the other two modes the display is
    cleared a second time and that state is left as it was. *)
Theorem mode_switch_redraws tables mode st :
  length (font_keyboard tables) = 40%nat ->
  let r := set_tuner_view_mode tables mode st in
  let addr := _device_i2c_addr st in
  value_of r = mode
  /\ _tuner_view_mode (state_of r) = mode
  /\ (mode = piano_view ->
        trace_of r
        = clear_traffic addr ++ bitmap_traffic addr (font_keyboard tables)
        /\ _bitmap_buffer (state_of r) = font_keyboard tables
        /\ s_prev_col (state_of r) = -1
        /\ s_prev_note_idx (state_of r) = 255
        /\ s_prev_alt (state_of r) = 99
        /\ s_prev_octave (state_of r) = 99
        /\ (forall logf freq ref_a4,
              isfinite freq = true -> leb freq zero = false ->
              exists idx v bytes,
                trace_of (display_keyboard_drift logf tables freq ref_a4
                            (state_of r))
                = byte_write addr idx v ++ label_traffic addr bytes
                /\ length bytes = 8%nat))
  /\ (mode <> piano_view ->
        trace_of r = clear_traffic addr ++ clear_traffic addr
        /\ _bitmap_buffer (state_of r) = repeat 0 40
        /\ s_prev_col (state_of r) = s_prev_col st
        /\ s_prev_note_idx (state_of r) = s_prev_note_idx st
        /\ s_prev_alt (state_of r) = s_prev_alt st
        /\ s_prev_octave (state_of r) = s_prev_octave st).
Proof.
  intros Hfk r addr. subst r addr.
  split; [|split; [|split]].
  - destruct mode.
    + rewrite set_tuner_view_mode_other by discriminate. reflexivity.
    + rewrite set_tuner_view_mode_other by discriminate. reflexivity.
    + rewrite set_tuner_view_mode_piano by assumption. reflexivity.
  - destruct mode.
    + rewrite set_tuner_view_mode_other by discriminate. reflexivity.
    + rewrite set_tuner_view_mode_other by discriminate. reflexivity.
    + rewrite set_tuner_view_mode_piano by assumption. reflexivity.
  - intros ->. rewrite set_tuner_view_mode_piano by assumption.
    do 6 (split; [reflexivity|]).
    intros logf freq ref_a4 Hfin Hpos.
    match goal with
    | |- context [display_keyboard_drift _ _ _ _ ?s] => set (st1 := s)
    end.
    destruct (piano_cursor_shape logf tables freq ref_a4 st1 Hfin Hpos)
      as (Hcol & Htrace).
    rewrite Htrace.
    set (col := column_of_semitones _) in *.
    destruct (move_cursor_first col st1) as (Hmove & _ & _).
    { change (s_prev_col st1) with (-1). lia. }
    { change (s_prev_col st1) with (-1). lia. }
    rewrite Hmove.
    destruct (update_label_forced tables col
                (octave_of_semitones
                   (semitones_from_c4 logf freq (effective_reference ref_a4)))
                (state_of (move_cursor col st1))) as (bytes & Hlabel & Hlen).
    { rewrite move_cursor_keeps_label. reflexivity. }
    rewrite Hlabel, move_cursor_keeps_addr.
    eexists _, _, bytes. split; [reflexivity|exact Hlen].
  - intros Hmode. rewrite set_tuner_view_mode_other by assumption.
    unfold trace_of, state_of. cbn. auto 10.
Qed.

Lemma mode_switch_redraws_witness :
  s_prev_col (state_of (set_tuner_view_mode erased piano_view
                          (with_prev_col 5 initial))) = -1
  /\ s_prev_col (state_of (set_tuner_view_mode erased bar_graph
                             (with_prev_col 5 initial))) = 5.
Proof.
  split.
  - destruct (mode_switch_redraws erased piano_view (with_prev_col 5 initial)
                eq_refl) as (_ & _ & H & _).
    destruct (H eq_refl) as (_ & _ & Hcol & _). exact Hcol.
  - destruct (mode_switch_redraws erased bar_graph (with_prev_col 5 initial)
                eq_refl) as (_ & _ & _ & H).
    destruct H as (_ & _ & Hcol & _); [discriminate|exact Hcol].
Defined.

(** C8 (as stated) fails: after a piano draw of middle C the diff-tracking
    state is (column 2, note 0, natural, octave 4); a switch to the numeric
    view leaves it there instead of resetting it to the sentinels. *)
Lemma switch_to_numeric_keeps_diff_state :
  let drawn :=
    state_of (display_keyboard_drift logf_coarse erased middle_c c_440 initial) in
  let st := state_of (set_tuner_view_mode erased numeric drawn) in
  (s_prev_col st, s_prev_note_idx st, s_prev_alt st, s_prev_octave st)
  = (2, 0, 0, 4)
  /\ s_prev_col st <> -1.
Proof. cbv zeta. split; [vm_compute; reflexivity|vm_compute; discriminate]. Qed.

(** *** The renderer's entry point *)

(** The glyph of character code [c], as [print_string5] sends it. *)
Definition glyph (tables : rom) (c : Z) : list wire :=
  map (fun i => Write (Font_6x8 tables (c - 32) (Z.of_nat i))) (seq 0 8).

(** The bus traffic of [print_string5("-    ")]. *)
Definition placeholder_traffic (tables : rom) (addr : Z) : list wire :=
  [Begin addr; Write CMD_DISPLAY_DATA_INPUT_COMMAND; Write 0]
  ++ glyph tables 45 ++ glyph tables 32 ++ glyph tables 32
  ++ [End_; Delay 1]
  ++ [Begin addr; Write CMD_DISPLAY_DATA_INPUT_COMMAND; Write 48]
  ++ glyph tables 32 ++ glyph tables 32
  ++ [End_; Delay 1].

Lemma print_placeholder_run tables st :
  print_string5 tables placeholder st
  = (tt, state_of (set_memory_pointer 80 st),
     placeholder_traffic tables (_device_i2c_addr st)).
Proof. destruct st. reflexivity. Qed.

Lemma ltb_not_nan x y : ltb x y = true -> x <> NaN /\ y <> NaN.
Proof.
  unfold ltb, SFltb. intros H. split; intros ->.
  - discriminate.
  - destruct x; discriminate.
Qed.

(** C4 (as amended): when the frequency compares below the floor
    ([freq < min_valid_freq], which no NaN satisfies), the call, in any of
    the three view modes, does exactly what [print_string5("-    ")] does:
    it sends the five placeholder glyphs and nothing else, and the result
    does not depend on the pitch mapper's logarithm. *)
Theorem below_floor_shows_placeholder
    logf tables freq concert_ref_a min_valid_freq st :
  ltb freq min_valid_freq = true ->
  render_pitch_and_drift logf tables freq concert_ref_a min_valid_freq st
  = print_string5 tables placeholder st
  /\ trace_of (render_pitch_and_drift logf tables freq concert_ref_a
                 min_valid_freq st)
     = placeholder_traffic tables (_device_i2c_addr st)
  /\ (forall logf',
        render_pitch_and_drift logf' tables freq concert_ref_a min_valid_freq st
        = render_pitch_and_drift logf tables freq concert_ref_a min_valid_freq st)
  /\ freq <> NaN.
Proof.
  intros Hlow. unfold render_pitch_and_drift. rewrite Hlow.
  split; [reflexivity|]. split; [|split].
  - now rewrite print_placeholder_run.
  - reflexivity.
  - now apply ltb_not_nan in Hlow.
Qed.

Lemma below_floor_shows_placeholder_witness :
  trace_of (render_pitch_and_drift no_logf erased (lit 5 1) c_440 (lit 10 1)
              (with_mode bar_graph initial))
  = placeholder_traffic erased 104.
Proof.
  destruct (below_floor_shows_placeholder no_logf erased (lit 5 1) c_440
              (lit 10 1) (with_mode bar_graph initial) eq_refl)
    as (_ & H & _).
  exact H.
Defined.

(** C4 (as stated) fails for a NaN frequency, which is not below any
    floor: in the numeric view the call prints the mapper's empty name and
    a drift of zero, and in the piano view it sends nothing at all. *)
Lemma nan_frequency_is_not_short_circuited :
  isfinite NaN = false
  /\ trace_of (render_pitch_and_drift no_logf erased NaN c_440 (lit 10 1)
                 (with_mode numeric initial))
     = trace_of (bind (print_string5 erased (name (frequency_to_note no_logf NaN c_440)))
                      (fun _ => print_drift erased zero)
                      (with_mode numeric initial))
  /\ trace_of (render_pitch_and_drift no_logf erased NaN c_440 (lit 10 1)
                 (with_mode numeric initial))
     <> placeholder_traffic erased 104
  /\ trace_of (render_pitch_and_drift no_logf erased NaN c_440 (lit 10 1)
                 initial)
     = [].
Proof.
  split; [reflexivity|]. split; [reflexivity|]. split.
  - vm_compute. discriminate.
  - vm_compute. reflexivity.
Qed.

(** *** The pitch mapper's guards *)

(** The result for a rejected frequency. *)
Definition neutral : note := {| name := ""; cent_drift := zero; midi_note := 0 |}.

(** C7: for a frequency that is not finite or compares below 1 Hz the
    mapper returns the empty name, zero cents and MIDI number zero; for a
    reference pitch that is not finite or compares at most 0 the mapper
    computes what it computes for the reference 440 Hz. *)
Theorem invalid_inputs_are_neutralised logf freq pitch_concert_a :
  (isfinite freq = false \/ ltb freq c_1 = true ->
     frequency_to_note logf freq pitch_concert_a = neutral)
  /\ (isfinite pitch_concert_a = false \/ leb pitch_concert_a zero = true ->
        effective_reference pitch_concert_a = c_440
        /\ frequency_to_note logf freq pitch_concert_a
           = frequency_to_note logf freq c_440).
Proof.
  split.
  - intros H. unfold frequency_to_note.
    destruct H as [-> | ->]; [reflexivity|].
    now rewrite orb_true_r.
  - intros H.
    assert (effective_reference pitch_concert_a = c_440) as E.
    { unfold effective_reference.
      destruct H as [-> | ->]; [reflexivity|]. now rewrite orb_true_r. }
    split; [exact E|].
    unfold frequency_to_note. rewrite E. reflexivity.
Qed.

Lemma invalid_inputs_are_neutralised_witness :
  frequency_to_note logf_coarse (lit 1 2) c_440 = neutral
  /\ frequency_to_note logf_coarse S754_nan c_440 = neutral
  /\ frequency_to_note logf_coarse c_440 (lit (-3) 1)
     = frequency_to_note logf_coarse c_440 c_440.
Proof.
  split; [|split].
  - destruct (invalid_inputs_are_neutralised logf_coarse (lit 1 2) c_440)
      as [H _].
    apply H. right. reflexivity.
  - destruct (invalid_inputs_are_neutralised logf_coarse S754_nan c_440)
      as [H _].
    apply H. left. reflexivity.
  - destruct (invalid_inputs_are_neutralised logf_coarse c_440 (lit (-3) 1))
      as [_ H].
    apply H. right. reflexivity.
Defined.

(** *** The cents *)

Definition c_50 : float32 := Eval vm_compute in lit 50 1.

Lemma guard_passes_positive freq :
  isfinite freq = true -> ltb freq c_1 = false ->
  exists m e, freq = S754_finite false m e.
Proof.
  destruct freq as [s|s| |s m e]; intros Hfin Hone.
  - destruct s; discriminate Hone.
  - discriminate Hfin.
  - discriminate Hfin.
  - destruct s; [discriminate Hone|eauto].
Qed.

Lemma effective_reference_positive pitch_concert_a :
  exists m e, effective_reference pitch_concert_a = S754_finite false m e.
Proof.
  unfold effective_reference.
  destruct pitch_concert_a as [s|s| |s m e]; cbn [isfinite negb orb].
  - destruct s; unfold c_440; eauto.
  - unfold c_440; eauto.
  - unfold c_440; eauto.
  - destruct s; [unfold c_440; eauto|].
    change (leb (S754_finite false m e) zero) with false. eauto.
Qed.

Lemma midi_float_not_nan logf m1 e1 m2 e2 :
  (forall x, nonneg x = true -> is_nan (logf x) = false) ->
  is_nan (midi_float logf (S754_finite false m1 e1) (S754_finite false m2 e2))
  = false.
Proof.
  intros Hlog. unfold midi_float.
  apply F32Facts.add_finite_not_nan; [|reflexivity].
  apply (F32Facts.mul_finite_not_nan _ false 12582912 (-20)).
  apply (F32Facts.mul_finite_not_nan _ false 12102203 (-23)).
  apply Hlog, F32Facts.div_pos_nonneg.
Qed.

Lemma clamp_cents_range x :
  is_nan x = false ->
  leb (neg c_49_99) (clamp_cents x) = true
  /\ leb (clamp_cents x) c_49_99 = true.
Proof.
  intros Hx. unfold clamp_cents.
  destruct (gtb x c_49_99) eqn:Hhi; [split; reflexivity|].
  destruct (ltb x (neg c_49_99)) eqn:Hlo; [split; reflexivity|].
  split.
  - apply F32Facts.not_ltb_geb; [assumption|reflexivity|assumption].
  - apply F32Facts.not_gtb_leb; [assumption|reflexivity|assumption].
Qed.

(** C3: provided [logf] returns a number (not NaN) whenever its argument is
    a number that is not negative, the cents [frequency_to_note] stores lie
    in the clamp interval [-49.99f, 49.99f], and hence in (-50, 50], for
    every frequency and reference pitch. *)
Theorem cents_within_half_semitone logf freq pitch_concert_a :
  (forall x, nonneg x = true -> is_nan (logf x) = false) ->
  let cents := cent_drift (frequency_to_note logf freq pitch_concert_a) in
  leb (neg c_49_99) cents = true
  /\ leb cents c_49_99 = true
  /\ ltb (neg c_50) cents = true
  /\ leb cents c_50 = true.
Proof.
  intros Hlog cents.
  assert (leb (neg c_49_99) cents = true /\ leb cents c_49_99 = true)
    as [Hlo Hhi].
  { subst cents. unfold frequency_to_note.
    destruct (isfinite freq) eqn:Hfin; cbn [negb orb]; [|split; reflexivity].
    destruct (ltb freq c_1) eqn:Hone; [split; reflexivity|].
    cbn [cent_drift].
    destruct (guard_passes_positive freq Hfin Hone) as (m1 & e1 & ->).
    destruct (effective_reference_positive pitch_concert_a) as (m2 & e2 & ->).
    apply clamp_cents_range.
    apply (F32Facts.mul_finite_not_nan _ false 13107200 (-17)).
    apply F32Facts.sub_finite_not_nan.
    - now apply midi_float_not_nan.
    - apply F32Facts.of_Z_finite.
      pose proof (IntFacts.i16_range
                    (trunc (add (midi_float logf (S754_finite false m1 e1)
                                            (S754_finite false m2 e2))
                                (if geb (midi_float logf (S754_finite false m1 e1)
                                                    (S754_finite false m2 e2)) zero
                                 then c_0_5 else neg c_0_5)))) as R.
      unfold round_midi. change (2 ^ 15) with 32768 in R.
      change (2 ^ 24) with 16777216. lia. }
  split; [exact Hlo|]. split; [exact Hhi|]. split.
  - apply (F32Facts.geb_widen_strict cents 13104579 13107200 (-18));
      [reflexivity|exact Hlo].
  - apply (F32Facts.leb_widen cents 13104579 13107200 (-18));
      [discriminate|exact Hhi].
Qed.

Lemma logf_coarse_is_number x :
  nonneg x = true -> is_nan (logf_coarse x) = false.
Proof.
  destruct x as [s|s| |s m e]; try discriminate; cbn [nonneg logf_coarse].
  - reflexivity.
  - destruct s; [discriminate|reflexivity].
  - destruct s; [discriminate|]. intros _.
    apply (F32Facts.mul_finite_not_nan _ false 11629080 (-24)).
    apply F32Facts.binary_normalize_not_nan.
Qed.

Lemma cents_within_half_semitone_witness :
  let cents := cent_drift (frequency_to_note logf_coarse c_440 c_440) in
  ltb (neg c_50) cents = true /\ leb cents c_50 = true.
Proof.
  destruct (cents_within_half_semitone logf_coarse c_440 c_440
              logf_coarse_is_number) as (_ & _ & H1 & H2).
  split; assumption.
Defined.

(** *** The MIDI number *)


(** The integer nearest to the exact value of a float, halves away from
    zero: the rounding the mapper is specified with. *)
Definition nearest_away (x : float32) : Z :=
  match x with
  | S754_finite s m e =>
      cond_Zopp s (if 0 <=? e then Zpos m * 2 ^ e
                   else (2 * Zpos m + 2 ^ (- e)) / 2 ^ (1 - e))
  | _ => 0
  end.




End HTProps.

(** * More facts about the fixed-width integers *)

Module IntMore.
Import Int.

Lemma u8_range z : 0 <= u8 z < 256.
Proof. unfold u8, wrap_u. apply Z.mod_pos_bound. reflexivity. Qed.

Lemma u8_small z : 0 <= z < 256 -> u8 z = z.
Proof. intros H. unfold u8, wrap_u. now apply Z.mod_small. Qed.

Lemma u16_range z : 0 <= u16 z < 65536.
Proof. unfold u16, wrap_u. apply Z.mod_pos_bound. reflexivity. Qed.

Lemma i8_range z : -128 <= i8 z < 128.
Proof.
  unfold i8, wrap_s. change (2 ^ (8 - 1)) with 128. change (2 ^ 8) with 256.
  pose proof (Z.mod_pos_bound (z + 128) 256 ltac:(lia)). lia.
Qed.

Lemma i8_small z : -128 <= z < 128 -> i8 z = z.
Proof.
  intros H. unfold i8, wrap_s. change (2 ^ (8 - 1)) with 128.
  change (2 ^ 8) with 256. rewrite Z.mod_small by lia. lia.
Qed.

End IntMore.

(** * More properties of the frequency acquisition engine *)

Module FreqMore.
Import Freq FreqProps IntMore.

(** *** The interrupt handlers *)

(** The extended timestamp is the overflow count times [2 ^ 16] plus the
    latched counter. *)
Lemma stamp_value (ovf icr : Z) :
  0 <= ovf < 65536 -> 0 <= icr < 65536 ->
  Z.lor (Int.u32 (Z.shiftl ovf 16)) icr = ovf * 65536 + icr.
Proof.
  intros Ho Hi. rewrite Z.shiftl_mul_pow2 by lia.
  change (2 ^ 16) with 65536.
  rewrite IntFacts.u32_small by (change (2 ^ 32) with 4294967296; lia).
  rewrite <- Z.lxor_lor.
  - rewrite <- Z.add_nocarry_lxor; [reflexivity|].
    apply Z.bits_inj'. intros n Hn. rewrite Z.land_spec, Z.bits_0.
    destruct (Z.ltb_spec n 16).
    + replace (ovf * 65536) with (ovf * 2 ^ 16) by reflexivity.
      rewrite Z.mul_pow2_bits_low by lia. reflexivity.
    + rewrite (Z.bits_above_log2 icr n); [apply andb_false_r|lia|].
      destruct (Z.eq_dec icr 0) as [->|Hnz]; [cbn; lia|].
      apply Z.log2_lt_pow2; [lia|].
      assert (2 ^ 16 <= 2 ^ n) by (apply Z.pow_le_mono_r; lia).
      change (2 ^ 16) with 65536 in *. lia.
  - apply Z.bits_inj'. intros n Hn. rewrite Z.land_spec, Z.bits_0.
    destruct (Z.ltb_spec n 16).
    + replace (ovf * 65536) with (ovf * 2 ^ 16) by reflexivity.
      rewrite Z.mul_pow2_bits_low by lia. reflexivity.
    + rewrite (Z.bits_above_log2 icr n); [apply andb_false_r|lia|].
      destruct (Z.eq_dec icr 0) as [->|Hnz]; [cbn; lia|].
      apply Z.log2_lt_pow2; [lia|].
      assert (2 ^ 16 <= 2 ^ n) by (apply Z.pow_le_mono_r; lia).
      change (2 ^ 16) with 65536 in *. lia.
Qed.

(** X1: a capture taken while a timer overflow is pending and whose latched
    counter is in the lower half is stamped as if the overflow handler had
    run first: capture handler then overflow handler leave the state that
    overflow handler then capture handler leave.  With the counter in the
    upper half the pending overflow is ignored. *)
Theorem pending_overflow_capture icr st :
  (0 <= icr < 32768 ->
     isr_ovf (isr_capt icr true st) = isr_capt icr false (isr_ovf st))
  /\ (32768 <= icr ->
        isr_capt icr true st = isr_capt icr false st).
Proof.
  split; intros H; unfold isr_capt, isr_ovf; cbn [s_ovf s_icr32 s_newCap
    s_prevIcr32 s_freq_ema s_freq_raw s_lastOkMs].
  - destruct (Z.ltb_spec icr 32768); [|lia]. reflexivity.
  - destruct (Z.ltb_spec icr 32768); [lia|]. reflexivity.
Qed.

Lemma pending_overflow_capture_witness :
  isr_ovf (isr_capt 100 true (freq_init 0))
  = isr_capt 100 false (isr_ovf (freq_init 0))
  /\ isr_capt 40000 true (freq_init 0) = isr_capt 40000 false (freq_init 0).
Proof.
  destruct (pending_overflow_capture 100 (freq_init 0)) as [H _].
  destruct (pending_overflow_capture 40000 (freq_init 0)) as [_ H'].
  split; [apply H; lia|apply H'; lia].
Defined.

(** *** Whole periods *)

Lemma run_app st evs1 evs2 :
  run st (evs1 ++ evs2)
  = (fst (run (fst (run st evs1)) evs2),
     snd (run st evs1) ++ snd (run (fst (run st evs1)) evs2)).
Proof.
  revert st. induction evs1 as [|ev evs1 IH]; intros st.
  - cbn. now destruct (run st evs2).
  - cbn [app run]. destruct (step st ev) as [st1 r].
    rewrite IH. destruct (run st1 evs1) as [st2 rs]. cbn [fst snd].
    destruct (run st2 evs2) as [st3 rs']. cbn [fst snd].
    destruct r; reflexivity.
Qed.

Definition set_ovf (v : Z) (st : state) : state :=
  {| s_ovf := v; s_icr32 := s_icr32 st; s_newCap := s_newCap st;
     s_prevIcr32 := s_prevIcr32 st; s_freq_ema := s_freq_ema st;
     s_freq_raw := s_freq_raw st; s_lastOkMs := s_lastOkMs st |}.

Lemma run_overflows (k : nat) st :
  0 <= s_ovf st < 65536 ->
  run st (repeat EvOverflow k)
  = (set_ovf (Int.u16 (s_ovf st + Z.of_nat k)) st, []).
Proof.
  revert st. induction k as [|k IH]; intros st Ho.
  - cbn [repeat run]. rewrite Z.add_0_r.
    unfold Int.u16, Int.wrap_u. rewrite Z.mod_small by exact Ho.
    destruct st; reflexivity.
  - cbn [repeat run step]. rewrite IH by (cbn; apply u16_range).
    cbn [isr_ovf s_ovf]. f_equal. unfold set_ovf. cbn. f_equal.
    unfold Int.u16, Int.wrap_u. rewrite Zplus_mod_idemp_l. f_equal. lia.
Qed.

Lemma accept_in_band ticks now st :
  TICKS_MIN <= ticks <= TICKS_MAX ->
  accept ticks now st
  = set_valid (raw_hz ticks) (ema_update (s_freq_ema st) (raw_hz ticks)) now st.
Proof.
  intros Hband. unfold accept.
  destruct (Z.leb_spec TICKS_MIN ticks); [|lia].
  destruct (Z.leb_spec ticks TICKS_MAX); [|lia]. cbn [andb].
  pose proof (band_reading_positive ticks Hband) as Hp.
  destruct (raw_hz ticks) as [| | |[|] m e]; try discriminate. reflexivity.
Qed.

(** X2: with the baseline taken at counter value [icr1] of the current
    timer epoch, [k] timer overflows followed by a capture at counter value
    [icr2] make [freq_read] measure [k * 65536 + icr2 - icr1] ticks, also
    when the 16-bit overflow count wraps in between: when that period is in
    the valid band it becomes the raw reading, enters the moving average,
    and the capture's extended timestamp becomes the new baseline. *)
Theorem period_across_overflows (k : nat) icr1 icr2 t_ok t_chk st :
  0 <= s_ovf st < 65536 ->
  0 <= icr1 < 65536 ->
  0 <= icr2 < 65536 ->
  s_prevIcr32 st = s_ovf st * 65536 + icr1 ->
  s_prevIcr32 st <> 0 ->
  let d := Z.of_nat k * 65536 + icr2 - icr1 in
  TICKS_MIN <= d <= TICKS_MAX ->
  let r := run st (repeat EvOverflow k
                   ++ [EvCapture icr2 false; EvRead t_ok t_chk]) in
  s_freq_raw (fst r) = raw_hz d
  /\ s_freq_ema (fst r) = ema_update (s_freq_ema st) (raw_hz d)
  /\ s_lastOkMs (fst r) = Int.u32 t_ok
  /\ s_prevIcr32 (fst r) = Int.u16 (s_ovf st + Z.of_nat k) * 65536 + icr2.
Proof.
  intros Ho H1 H2 Hbase Hnz d Hband r. subst r.
  rewrite run_app, (run_overflows k st Ho). cbn [fst snd].
  cbn [run step]. cbn [isr_capt andb].
  match goal with
  | |- context [freq_read t_ok t_chk ?s] => set (st1 := s)
  end.
  assert (s_prevIcr32 st1 <> 0) as Hp1 by exact Hnz.
  rewrite (freq_read_period t_ok t_chk st1 eq_refl Hp1). cbn [fst snd].
  assert (Int.u32 (s_icr32 st1 - s_prevIcr32 st1) = d) as ->.
  { subst st1. unfold isr_capt.
    cbn [s_icr32 s_prevIcr32 set_ovf s_ovf andb].
    pose proof (u16_range (s_ovf st + Z.of_nat k)) as Hu.
    rewrite stamp_value by assumption. rewrite Hbase.
    unfold Int.u32, Int.wrap_u.
    assert (Int.u16 (s_ovf st + Z.of_nat k)
            = s_ovf st + Z.of_nat k
              - 65536 * ((s_ovf st + Z.of_nat k) / 65536)) as ->.
    { unfold Int.u16, Int.wrap_u. change (2 ^ 16) with 65536.
      rewrite Z.mod_eq by lia. reflexivity. }
    replace ((s_ovf st + Z.of_nat k
              - 65536 * ((s_ovf st + Z.of_nat k) / 65536)) * 65536 + icr2
             - (s_ovf st * 65536 + icr1))
      with (d + (- ((s_ovf st + Z.of_nat k) / 65536)) * 2 ^ 32)
      by (subst d; change (2 ^ 32) with 4294967296; lia).
    rewrite Z_mod_plus_full. apply Z.mod_small.
    unfold TICKS_MIN, TICKS_MAX in Hband.
    change (2 ^ 32) with 4294967296. lia. }
  rewrite accept_in_band by exact Hband.
  subst st1. unfold isr_capt.
  cbn [set_valid set_prevIcr32 set_newCap set_ovf s_ovf s_icr32 s_newCap
       s_prevIcr32 s_freq_ema s_freq_raw s_lastOkMs andb].
  repeat split; try reflexivity.
  rewrite stamp_value; [reflexivity|apply u16_range|assumption].
Qed.

Lemma period_across_overflows_witness :
  s_freq_raw
    (fst (run (set_ovf 65535 (tracking (65535 * 65536 + 65000) 0 false 0))
              (repeat EvOverflow 1
               ++ [EvCapture 464 false; EvRead 7 7])))
  = raw_hz 1000.
Proof.
  pose proof (period_across_overflows 1 65000 464 7 7
                (set_ovf 65535 (tracking (65535 * 65536 + 65000) 0 false 0)))
    as H.
  cbv zeta in H. apply H; cbn; try lia.
  unfold TICKS_MIN, TICKS_MAX. lia.
Defined.

(** *** The moving average *)

Definition EMA_ALPHA : float32 :=
  Eval vm_compute in div (of_Z EMA_NUM) (of_Z EMA_DEN).

Lemma ema_update_fixed (s : bool) (m : positive) (e : Z) :
  ema_update (S754_finite s m e) (S754_finite s m e) = S754_finite s m e.
Proof.
  unfold ema_update. cbn [isfinite negb].
  change (div (of_Z EMA_NUM) (of_Z EMA_DEN)) with EMA_ALPHA.
  assert (sub (S754_finite s m e) (S754_finite s m e) = S754_zero false) as ->.
  { unfold sub. cbn [SFsub]. rewrite Z.sub_diag. reflexivity. }
  reflexivity.
Qed.

Lemma ema_update_number ema f :
  isfinite f = true -> is_nan (ema_update ema f) = false.
Proof.
  intros Hf. unfold ema_update.
  destruct (isfinite ema) eqn:He; cbn [negb].
  - change (div (of_Z EMA_NUM) (of_Z EMA_DEN)) with EMA_ALPHA.
    apply F32Facts.add_finite_not_nan; [|exact He].
    apply (F32Facts.mul_finite_not_nan _ false 8388608 (-25)).
    apply F32Facts.sub_finite_not_nan; [|exact He].
    destruct f; try discriminate; reflexivity.
  - destruct f; try discriminate; reflexivity.
Qed.

(** X3: when the stored estimate is the frequency of [d] ticks, or is not
    finite, an accepted period of [d] ticks leaves the estimate exactly at
    that frequency (the moving average has no rounding drift on a steady
    signal, and adopts the first valid reading as it is); the call returns
    it unless the timeout has run out between its two clock readings. *)
Theorem steady_period_keeps_estimate t_ok t_chk st d :
  s_newCap st = true ->
  s_prevIcr32 st <> 0 ->
  Int.u32 (s_icr32 st - s_prevIcr32 st) = d ->
  TICKS_MIN <= d <= TICKS_MAX ->
  s_freq_ema st = raw_hz d \/ isfinite (s_freq_ema st) = false ->
  let st' := snd (freq_read t_ok t_chk st) in
  s_freq_ema st' = raw_hz d
  /\ s_freq_raw st' = raw_hz d
  /\ s_lastOkMs st' = Int.u32 t_ok
  /\ (Int.u32 (Int.u32 t_chk - Int.u32 t_ok) <= NO_SIGNAL_TIMEOUT_MS ->
      fst (freq_read t_ok t_chk st) = raw_hz d).
Proof.
  intros Hcap Hprev Hd Hband Hema st'. subst st'.
  rewrite (freq_read_period t_ok t_chk st Hcap Hprev). cbn [fst snd].
  rewrite Hd, accept_in_band by exact Hband.
  cbn [set_valid set_prevIcr32 set_newCap s_freq_ema s_freq_raw s_lastOkMs].
  assert (ema_update (s_freq_ema st) (raw_hz d) = raw_hz d) as E.
  { pose proof (band_reading_positive d Hband) as Hp.
    destruct Hema as [-> | Hinf].
    - destruct (raw_hz d) as [| | |[|] m e]; try discriminate.
      apply ema_update_fixed.
    - unfold ema_update. now rewrite Hinf. }
  rewrite E. repeat split; try reflexivity.
  intros Hfresh. unfold timeout_check.
  cbn [set_valid s_lastOkMs s_freq_ema].
  destruct (Z.gtb_spec (Int.u32 (Int.u32 t_chk - Int.u32 t_ok))
                       NO_SIGNAL_TIMEOUT_MS); [lia|reflexivity].
Qed.

Lemma steady_period_keeps_estimate_witness :
  fst (freq_read 5 6
         {| s_ovf := 0; s_icr32 := 6000; s_newCap := true;
            s_prevIcr32 := 1000; s_freq_ema := raw_hz 5000;
            s_freq_raw := raw_hz 4000; s_lastOkMs := 0 |})
  = raw_hz 5000.
Proof.
  eapply steady_period_keeps_estimate; try reflexivity.
  - cbn. discriminate.
  - unfold TICKS_MIN, TICKS_MAX. lia.
  - left. reflexivity.
  - vm_compute. discriminate.
Defined.

Lemma accept_number ticks now st :
  is_nan (s_freq_ema st) = false ->
  is_nan (s_freq_ema (accept ticks now st)) = false.
Proof.
  intros H. unfold accept.
  destruct ((TICKS_MIN <=? ticks) && (ticks <=? TICKS_MAX)); [|exact H].
  destruct (isfinite (raw_hz ticks)) eqn:Hf; [|exact H].
  cbn [set_valid s_freq_ema]. now apply ema_update_number.
Qed.

Lemma freq_read_number t_ok t_chk st :
  is_nan (s_freq_ema st) = false ->
  is_nan (fst (freq_read t_ok t_chk st)) = false
  /\ is_nan (s_freq_ema (snd (freq_read t_ok t_chk st))) = false.
Proof.
  intros H. unfold freq_read.
  destruct (s_newCap st).
  - cbn [set_newCap s_prevIcr32 s_freq_ema s_icr32].
    destruct (s_prevIcr32 st =? 0); cbn [fst snd].
    + split; exact H.
    + match goal with
      | |- context [accept ?t ?n ?s] =>
          pose proof (accept_number t n s H) as Ha;
          set (st1 := accept t n s) in *
      end.
      split; [|exact Ha]. unfold timeout_check.
      destruct (_ >? _); [reflexivity|exact Ha].
  - cbn [fst snd]. split; [|exact H]. unfold timeout_check.
    destruct (_ >? _); [reflexivity|exact H].
Qed.

(** X4: once the smoothed estimate is a number it stays one, over every
    sequence of captures, overflows and reads, and no later [freq_read]
    returns NaN: NaN is only ever read before the first accepted period. *)
Theorem estimate_stays_a_number evs st :
  is_nan (s_freq_ema st) = false ->
  is_nan (s_freq_ema (fst (run st evs))) = false
  /\ Forall (fun r => is_nan r = false) (snd (run st evs)).
Proof.
  revert st. induction evs as [|ev evs IH]; intros st H.
  - cbn. split; [exact H|constructor].
  - cbn [run]. destruct (step st ev) as [st1 r] eqn:Es.
    assert (is_nan (s_freq_ema st1) = false
            /\ match r with Some x => is_nan x = false | None => True end)
      as [H1 Hr].
    { destruct ev as [icr tov| |t_ok t_chk]; cbn in Es.
      - inversion Es; subst. split; [exact H|exact I].
      - inversion Es; subst. split; [exact H|exact I].
      - pose proof (freq_read_number t_ok t_chk st H) as [Ha Hb].
        destruct (freq_read t_ok t_chk st) as [x st']. inversion Es; subst.
        split; assumption. }
    specialize (IH st1 H1). destruct (run st1 evs) as [st2 rs].
    cbn [fst snd] in *. destruct IH as [IH1 IH2]. split; [exact IH1|].
    destruct r; [constructor; assumption|assumption].
Qed.

Lemma estimate_stays_a_number_witness :
  Forall (fun r => is_nan r = false)
    (snd (run (tracking 1000 0 false 0)
              [EvCapture 3000 false; EvRead 1 1; EvOverflow; EvRead 200 200])).
Proof.
  apply (estimate_stays_a_number
           [EvCapture 3000 false; EvRead 1 1; EvOverflow; EvRead 200 200]
           (tracking 1000 0 false 0)).
  reflexivity.
Defined.

(** *** The timeout *)

(** X5: with no capture pending, [freq_read] called [d] milliseconds after
    the last accepted sample returns the sentinel when [d > 120] and the
    stored estimate otherwise, also when the 32-bit millisecond clock has
    wrapped around in between. *)
Theorem timeout_spans_millis_wrap t_ok last d st :
  s_newCap st = false ->
  s_lastOkMs st = last ->
  0 <= last < 2 ^ 32 ->
  0 <= d < 2 ^ 32 ->
  fst (freq_read t_ok (Int.u32 (last + d)) st)
  = (if d >? NO_SIGNAL_TIMEOUT_MS then NO_SIGNAL else s_freq_ema st).
Proof.
  intros Hcap Hlast Hl Hd.
  rewrite (freq_read_no_capture t_ok _ st Hcap). cbn [fst].
  unfold timeout_check. rewrite Hlast.
  assert (Int.u32 (Int.u32 (Int.u32 (last + d)) - last) = d) as ->.
  { unfold Int.u32, Int.wrap_u. rewrite Z.mod_mod by lia.
    rewrite Zminus_mod_idemp_l.
    replace (last + d - last) with d by lia. now apply Z.mod_small. }
  reflexivity.
Qed.

Lemma timeout_spans_millis_wrap_witness :
  fst (freq_read 0 (Int.u32 (4294967290 + 121))
         (tracking 1000 0 false 4294967290)) = NO_SIGNAL
  /\ fst (freq_read 0 (Int.u32 (4294967290 + 120))
            (tracking 1000 0 false 4294967290)) = lit 440 1.
Proof.
  split.
  - rewrite (timeout_spans_millis_wrap 0 4294967290 121); try reflexivity;
      cbn; lia.
  - rewrite (timeout_spans_millis_wrap 0 4294967290 120); try reflexivity;
      cbn; lia.
Defined.

End FreqMore.

(** * The estimate stays in the valid band *)

Module FreqBand.
Import Freq FreqProps FreqMore F32Facts F32Order.

(** *** The readings of the valid band *)





(** *** The estimate over whole runs *)












End FreqBand.

(** * More properties of the display driver and of the renderer *)

Module HTMore.
Import HT HAL HTProps IntMore.
Local Open Scope ht_scope.

(** *** The cursor pixel *)

Lemma col_to_buf_row6_value col :
  0 <= col < 256 ->
  col_to_buf_row6 col = (8 * (col / 8) + 6, 2 ^ (7 - col mod 8)).
Proof.
  intros H. unfold col_to_buf_row6.
  pose proof (Z.mod_pos_bound col 8 ltac:(lia)) as Hm.
  assert (0 <= col / 8 < 32) as Hq.
  { split; [apply Z.div_pos; lia|apply Z.div_lt_upper_bound; lia]. }
  rewrite (u8_small (col / 8)) by lia.
  rewrite (u8_small (7 - col mod 8)) by lia.
  rewrite (u8_small (col / 8 * 8 + 6)) by lia.
  rewrite Z.shiftl_1_l.
  assert (0 < 2 ^ (7 - col mod 8) <= 2 ^ 7) as Hp.
  { split; [apply Z.pow_pos_nonneg; lia|apply Z.pow_le_mono_r; lia]. }
  change (2 ^ 7) with 128 in Hp.
  rewrite u8_small by lia. f_equal. lia.
Qed.

(** X6: every cursor column 0..27 has a pixel of its own: its byte is row
    6 of one of the four panels, inside the 40-byte frame buffer, its mask
    is the single bit [2 ^ (7 - col mod 8)], and two columns with the same
    byte and mask are the same column. *)
Theorem cursor_pixels_distinct c1 c2 :
  0 <= c1 <= 27 ->
  0 <= c2 <= 27 ->
  0 <= fst (col_to_buf_row6 c1) < HT_RAM_LAST_ADDRESS
  /\ fst (col_to_buf_row6 c1) mod 8 = 6
  /\ snd (col_to_buf_row6 c1) = 2 ^ (7 - c1 mod 8)
  /\ (col_to_buf_row6 c1 = col_to_buf_row6 c2 -> c1 = c2).
Proof.
  intros H1 H2.
  rewrite !col_to_buf_row6_value by lia. cbn [fst snd].
  pose proof (Z.mod_pos_bound c1 8 ltac:(lia)) as Hm1.
  pose proof (Z.mod_pos_bound c2 8 ltac:(lia)) as Hm2.
  assert (0 <= c1 / 8 < 4) as Hq.
  { split; [apply Z.div_pos; lia|apply Z.div_lt_upper_bound; lia]. }
  unfold HT_RAM_LAST_ADDRESS. split; [lia|]. split.
  - rewrite Z.add_comm, Z.mul_comm, Z_mod_plus_full. reflexivity.
  - split; [reflexivity|]. intros E. injection E as Ei Em.
    apply Z.pow_inj_r in Em; [|lia..].
    rewrite (Z.div_mod c1 8), (Z.div_mod c2 8) by lia. lia.
Qed.

Lemma cursor_pixels_distinct_witness :
  0 <= fst (col_to_buf_row6 27) < HT_RAM_LAST_ADDRESS
  /\ snd (col_to_buf_row6 27) = 2 ^ (7 - 27 mod 8)
  /\ (col_to_buf_row6 27 = col_to_buf_row6 0 -> 27 = 0).
Proof.
  destruct (cursor_pixels_distinct 27 0) as (H1 & _ & H3 & H4); [lia..|].
  split; [exact H1|]. split; [exact H3|exact H4].
Defined.

(** *** The cursor over a run of draws *)

(** The frame buffer with the pixel of column [col] toggled. *)
Definition toggled (b : list Z) (col : Z) : list Z :=
  let px := col_to_buf_row6 (Int.u8 col) in
  buf_set b (fst px) (Z.lxor (buf_get b (fst px)) (snd px)).

Lemma buf_get_set b i v :
  (Z.to_nat i < length b)%nat -> buf_get (buf_set b i v) i = v.
Proof.
  intros H. unfold buf_get, buf_set.
  apply nth_lookup_Some. now apply list_lookup_insert_eq.
Qed.

Lemma buf_set_get b i : buf_set b i (buf_get b i) = b.
Proof.
  unfold buf_get, buf_set. apply list_insert_id'. intros H.
  destruct (nth_lookup_or_length b (Z.to_nat i) 0) as [E|E]; [exact E|lia].
Qed.

Lemma toggled_twice b c :
  length b = 40%nat -> 0 <= c <= 27 -> toggled (toggled b c) c = b.
Proof.
  intros Hlen Hc. unfold toggled.
  rewrite u8_small by lia. rewrite col_to_buf_row6_value by lia.
  cbn [fst snd].
  assert (0 <= c / 8 < 4) as Hq.
  { split; [apply Z.div_pos; lia|apply Z.div_lt_upper_bound; lia]. }
  rewrite buf_get_set by lia.
  unfold buf_set at 1 2. rewrite list_insert_insert_eq.
  rewrite Z.lxor_assoc, Z.lxor_nilpotent, Z.lxor_0_r.
  apply buf_set_get.
Qed.

(** What the frame buffer and the stored column are after cursor updates
    on a keyboard image [b0]. *)
Definition cursor_at (b0 : list Z) (st : state) : Prop :=
  (s_prev_col st = -1 /\ _bitmap_buffer st = b0)
  \/ (0 <= s_prev_col st <= 27
      /\ _bitmap_buffer st = toggled b0 (s_prev_col st)).

Lemma move_cursor_at b0 c st :
  length b0 = 40%nat -> 0 <= c <= 27 ->
  cursor_at b0 st ->
  s_prev_col (state_of (move_cursor c st)) = c
  /\ _bitmap_buffer (state_of (move_cursor c st)) = toggled b0 c.
Proof.
  intros Hlen Hc Hinv.
  destruct (Z.eq_dec c (s_prev_col st)) as [E|Hne].
  - rewrite (move_cursor_same c st E). unfold state_of. cbn [fst snd].
    destruct Hinv as [[H _]|[_ H]]; [lia|]. split; [now symmetry|].
    now rewrite E.
  - destruct Hinv as [[Hp Hb]|[Hp Hb]].
    + destruct (move_cursor_first c st Hne ltac:(lia)) as (_ & Hbuf & Hcol).
      rewrite Hcol, Hbuf, Hb, i8_small by lia. split; reflexivity.
    + destruct (move_cursor_replace c st Hne Hp) as (_ & Hbuf & Hcol).
      rewrite Hcol, Hbuf, i8_small by lia. split; [reflexivity|].
      cbv zeta. rewrite Hb.
      change (buf_set (toggled b0 (s_prev_col st))
                (fst (col_to_buf_row6 (Int.u8 (s_prev_col st))))
                (Z.lxor (buf_get (toggled b0 (s_prev_col st))
                           (fst (col_to_buf_row6 (Int.u8 (s_prev_col st)))))
                        (snd (col_to_buf_row6 (Int.u8 (s_prev_col st))))))
        with (toggled (toggled b0 (s_prev_col st)) (s_prev_col st)).
      rewrite toggled_twice by assumption. reflexivity.
Qed.

Lemma move_cursor_col c st :
  0 <= c <= 27 -> s_prev_col (state_of (move_cursor c st)) = c.
Proof.
  intros Hc. destruct (Z.eq_dec c (s_prev_col st)) as [E|Hne].
  - rewrite (move_cursor_same c st E). now symmetry.
  - assert (0 <= s_prev_col st <= 27 \/ ~ (0 <= s_prev_col st <= 27))
      as [Hp|Hp] by lia.
    + destruct (move_cursor_replace c st Hne Hp) as (_ & _ & ->).
      apply i8_small. lia.
    + destruct (move_cursor_first c st Hne Hp) as (_ & _ & ->).
      apply i8_small. lia.
Qed.

Section Label.

Variable tables : rom.

Definition label_note (col : Z) : Z := nth (Z.to_nat col) kCol2NoteIdx 0.

Definition label_alter (col : Z) : Z :=
  Int.i8 (Int.u8 (nth (Z.to_nat col) kCol2Alter 0)).

Lemma update_label_quiet col oct st :
  s_prev_note_idx st = label_note col ->
  s_prev_alt st = label_alter col ->
  s_prev_octave st = oct ->
  update_label tables col oct st = (tt, st, []).
Proof.
  intros H1 H2 H3. unfold update_label, bind, get.
  fold (label_note col). fold (label_alter col).
  rewrite H1, H2, H3, !Z.eqb_refl. reflexivity.
Qed.

Lemma update_label_state col oct st :
  let st' := state_of (update_label tables col oct st) in
  s_prev_note_idx st' = label_note col
  /\ s_prev_alt st' = label_alter col
  /\ s_prev_octave st' = oct
  /\ s_prev_col st' = s_prev_col st
  /\ _bitmap_buffer st' = _bitmap_buffer st
  /\ _device_i2c_addr st' = _device_i2c_addr st
  /\ _tuner_view_mode st' = _tuner_view_mode st
  /\ _memory_pointer st' = _memory_pointer st.
Proof.
  destruct st as [addr mp b mode pc pn pa po].
  unfold update_label, bind, get.
  fold (label_note col). fold (label_alter col).
  cbn [s_prev_note_idx s_prev_alt s_prev_octave].
  destruct (Z.eqb_spec (label_note col) pn) as [E1|E1];
    destruct (Z.eqb_spec (label_alter col) pa) as [E2|E2];
    destruct (Z.eqb_spec oct po) as [E3|E3];
    cbn; subst; repeat split; reflexivity.
Qed.

End Label.

Section Piano.

Variable logf : float32 -> float32.
Variable tables : rom.

Lemma display_keyboard_drift_skip freq ref_a4 st :
  negb (isfinite freq) || leb freq zero = true ->
  display_keyboard_drift logf tables freq ref_a4 st = (tt, st, []).
Proof. intros H. unfold display_keyboard_drift. now rewrite H. Qed.

Lemma display_keyboard_drift_state freq ref_a4 st :
  negb (isfinite freq) || leb freq zero = false ->
  let st_c := semitones_from_c4 logf freq (effective_reference ref_a4) in
  let col := column_of_semitones st_c in
  state_of (display_keyboard_drift logf tables freq ref_a4 st)
  = state_of (update_label tables col (octave_of_semitones st_c)
                (state_of (move_cursor col st)))
  /\ trace_of (display_keyboard_drift logf tables freq ref_a4 st)
     = trace_of (move_cursor col st)
       ++ trace_of (update_label tables col (octave_of_semitones st_c)
                      (state_of (move_cursor col st))).
Proof.
  intros H st_c col. unfold display_keyboard_drift. rewrite H.
  fold st_c. fold col. unfold bind, state_of, trace_of.
  destruct (move_cursor col st) as [[u s1] t1]. cbn [fst snd].
  destruct (update_label tables col (octave_of_semitones st_c) s1)
    as [[u2 s2] t2]. split; reflexivity.
Qed.

(** Piano draws for the frequencies [fs], in order. *)
Fixpoint draw_all (ref_a4 : float32) (fs : list float32) : M unit :=
  match fs with
  | [] => ret tt
  | f :: rest =>
      display_keyboard_drift logf tables f ref_a4 ;;; draw_all ref_a4 rest
  end.

Lemma display_keyboard_drift_at b0 freq ref_a4 st :
  length b0 = 40%nat ->
  cursor_at b0 st ->
  cursor_at b0 (state_of (display_keyboard_drift logf tables freq ref_a4 st)).
Proof.
  intros Hlen Hinv.
  destruct (negb (isfinite freq) || leb freq zero) eqn:Hg.
  - now rewrite display_keyboard_drift_skip.
  - destruct (display_keyboard_drift_state freq ref_a4 st Hg) as [-> _].
    set (st_c := semitones_from_c4 logf freq (effective_reference ref_a4)).
    pose proof (column_in_range st_c) as Hc.
    destruct (move_cursor_at b0 (column_of_semitones st_c) st Hlen Hc Hinv)
      as [H1 H2].
    destruct (update_label_state tables (column_of_semitones st_c)
                (octave_of_semitones st_c)
                (state_of (move_cursor (column_of_semitones st_c) st)))
      as (_ & _ & _ & Hk1 & Hk2 & _).
    right. rewrite Hk1, Hk2, H1. split; [exact Hc|exact H2].
Qed.

(** X7: piano draws toggle the cursor and nothing else.  Starting from an
    image [b0] with no cursor drawn, after piano draws for any frequencies
    the frame buffer is [b0] itself (no draw took place) or [b0] with the
    pixel of the stored column toggled, and toggling that pixel again gives
    [b0] back: the previous cursor is always erased. *)
Theorem cursor_leaves_one_pixel ref_a4 fs b0 st :
  length b0 = 40%nat ->
  _bitmap_buffer st = b0 ->
  s_prev_col st = -1 ->
  let st' := state_of (draw_all ref_a4 fs st) in
  (s_prev_col st' = -1 /\ _bitmap_buffer st' = b0)
  \/ (0 <= s_prev_col st' <= 27
      /\ _bitmap_buffer st' = toggled b0 (s_prev_col st')
      /\ toggled (_bitmap_buffer st') (s_prev_col st') = b0).
Proof.
  intros Hlen Hb Hp st'.
  assert (cursor_at b0 st') as [H|[H1 H2]].
  { subst st'. assert (cursor_at b0 st) as Hinv by (left; split; assumption).
    clear Hb Hp. revert st Hinv. induction fs as [|f fs' IH]; intros st Hinv.
    - exact Hinv.
    - cbn [draw_all]. unfold bind, state_of.
      pose proof (display_keyboard_drift_at b0 f ref_a4 st Hlen Hinv) as H.
      unfold state_of in H.
      destruct (display_keyboard_drift logf tables f ref_a4 st)
        as [[u s] t]. cbn [fst snd] in *.
      specialize (IH s H). unfold state_of in IH.
      destruct (draw_all ref_a4 fs' s) as [[u1 s1] t1]. exact IH. }
  - left. exact H.
  - right. split; [exact H1|]. split; [exact H2|].
    rewrite H2. now apply toggled_twice.
Qed.

(** X8: a piano draw repeated with the same frequency and reference sends
    nothing on the bus and leaves the state as the first draw left it. *)
Theorem repeated_pitch_is_silent freq ref_a4 st :
  let st1 := state_of (display_keyboard_drift logf tables freq ref_a4 st) in
  display_keyboard_drift logf tables freq ref_a4 st1 = (tt, st1, []).
Proof.
  intros st1.
  destruct (negb (isfinite freq) || leb freq zero) eqn:Hg.
  - now apply display_keyboard_drift_skip.
  - destruct (display_keyboard_drift_state freq ref_a4 st Hg) as [E _].
    set (st_c := semitones_from_c4 logf freq (effective_reference ref_a4)) in *.
    set (col := column_of_semitones st_c) in *.
    set (oct := octave_of_semitones st_c) in *.
    pose proof (column_in_range st_c) as Hc. fold col in Hc.
    destruct (update_label_state tables col oct (state_of (move_cursor col st)))
      as (L1 & L2 & L3 & L4 & _).
    cbv zeta in L1, L2, L3, L4. rewrite <- E in L1, L2, L3, L4.
    fold st1 in L1, L2, L3, L4.
    rewrite (move_cursor_col col st Hc) in L4.
    unfold display_keyboard_drift. rewrite Hg. fold st_c. fold col. fold oct.
    unfold bind.
    rewrite (move_cursor_same col st1) by (now symmetry).
    rewrite (update_label_quiet tables col oct st1 L1 L2 L3). reflexivity.
Qed.

End Piano.

(** *** Sending the frame buffer *)

(** One data transaction: the RAM address [ram], then the bytes. *)
Definition block (addr ram : Z) (bytes : list Z) : list wire :=
  [Begin addr; Write CMD_DISPLAY_DATA_INPUT_COMMAND; Write ram]
  ++ map Write bytes ++ [End_; Delay 1].

Lemma sendout_loop_done n i ram st :
  HT_RAM_LAST_ADDRESS <= i -> sendout_loop n i ram st = (tt, st, []).
Proof.
  intros H. destruct n; [reflexivity|]. cbn [sendout_loop].
  destruct (Z.ltb_spec i HT_RAM_LAST_ADDRESS); [lia|reflexivity].
Qed.

(** X9: [i2c_sendout_bitmap(start)] leaves the object untouched and sends
    the frame buffer from byte [start] to the end, each transaction
    announcing the RAM address twice its first byte's index and carrying at
    most 30 bytes: two transactions when [start < 10], one when
    [10 <= start < 40], and nothing at all from 40 on. *)
Theorem sendout_covers_buffer start st :
  length (_bitmap_buffer st) = 40%nat ->
  0 <= start < 256 ->
  let buf := _bitmap_buffer st in
  let addr := _device_i2c_addr st in
  i2c_sendout_bitmap start st
  = (tt, st,
     if start <? 10 then
       block addr (2 * start) (take 30 (drop (Z.to_nat start) buf))
       ++ block addr (2 * start + 60) (drop (Z.to_nat start + 30) buf)
     else if start <? HT_RAM_LAST_ADDRESS then
       block addr (2 * start) (drop (Z.to_nat start) buf)
     else []).
Proof.
  intros Hlen Hs. destruct st as [addr mp b mode pc pn pa po].
  cbn [_bitmap_buffer _device_i2c_addr] in *. cbv zeta.
  destruct (Z.ltb_spec start HT_RAM_LAST_ADDRESS) as [Hin|Hout].
  - unfold HT_RAM_LAST_ADDRESS in Hin.
    rewrite <- (Z2Nat.id start) by lia.
    assert (Z.to_nat start < 40)%nat as Hn by lia.
    rewrite Nat2Z.id. generalize dependent (Z.to_nat start). intros n Hn.
    split_list40 b.
    do 40 (destruct n as [|n]; [vm_compute; reflexivity|]).
    exfalso. do 40 (apply Nat.succ_lt_mono in Hn). exact (Nat.nlt_0_r _ Hn).
  - unfold i2c_sendout_bitmap. rewrite sendout_loop_done by exact Hout.
    unfold HT_RAM_LAST_ADDRESS in *.
    destruct (Z.ltb_spec start 40) as [|_]; [lia|].
    destruct (Z.ltb_spec start 10) as [|_]; [lia|]. reflexivity.
Qed.

Lemma sendout_covers_buffer_witness :
  trace_of (i2c_sendout_bitmap 36 initial) = block 104 72 [0; 0; 0; 0].
Proof.
  rewrite (sendout_covers_buffer 36 initial); [reflexivity|reflexivity|lia].
Defined.

(** X10: [print_bytes] puts a 40-byte image on the bus exactly as
    [i2c_sendout_bitmap()] puts the frame buffer (30 bytes from RAM address
    0, then 10 bytes from RAM address 60), without touching the frame
    buffer, and leaves the memory pointer at 60. *)
Theorem print_bytes_matches_sendout str st :
  length str = 40%nat ->
  trace_of (print_bytes str st) = bitmap_traffic (_device_i2c_addr st) str
  /\ (_bitmap_buffer st = str ->
      trace_of (print_bytes str st) = trace_of (i2c_sendout_bitmap 0 st))
  /\ _memory_pointer (state_of (print_bytes str st)) = 60
  /\ _bitmap_buffer (state_of (print_bytes str st)) = _bitmap_buffer st.
Proof.
  intros Hlen.
  assert (trace_of (print_bytes str st)
          = bitmap_traffic (_device_i2c_addr st) str) as Ht.
  { destruct st as [addr mp b mode pc pn pa po]. split_list40 str.
    reflexivity. }
  split; [exact Ht|]. split; [|split].
  - intros Hb. rewrite Ht, (sendout_full str st Hlen Hb). reflexivity.
  - destruct st. reflexivity.
  - destruct st. reflexivity.
Qed.

Lemma print_bytes_matches_sendout_witness :
  trace_of (print_bytes (repeat 7 40) initial) = bitmap_traffic 104 (repeat 7 40).
Proof.
  destruct (print_bytes_matches_sendout (repeat 7 40) initial eq_refl)
    as [H _].
  exact H.
Defined.

(** *** Text *)

Section Text.

Variable tables : rom.

Lemma i8_char c : 0 < c < 128 -> (0 <? Int.i8 c) = true.
Proof.
  intros H. unfold Int.i8, Int.wrap_s. change (2 ^ (8 - 1)) with 128.
  change (2 ^ 8) with 256. rewrite Z.mod_small by lia.
  apply Z.ltb_lt. lia.
Qed.

Lemma trace_of_mk {A} (a : A) (s : state) (t : list wire) :
  trace_of (a, s, t) = t.
Proof. reflexivity. Qed.

Lemma state_of_mk {A} (a : A) (s : state) (t : list wire) :
  state_of (a, s, t) = s.
Proof. reflexivity. Qed.

Definition advance (st : state) : state :=
  state_of (set_memory_pointer (_memory_pointer st + 16) st).

(** One pass of the loop, away from the split and at the split. *)
Lemma print_string5_loop_step c chars pos st :
  0 < c < 128 ->
  print_string5_loop tables (c :: chars) pos st
  = (tt,
     state_of (print_string5_loop tables chars (pos + 1) (advance st)),
     (if pos =? 3
      then [End_; Delay 1; Begin (_device_i2c_addr st);
            Write CMD_DISPLAY_DATA_INPUT_COMMAND; Write (_memory_pointer st)]
      else [])
     ++ glyph tables c
     ++ trace_of (print_string5_loop tables chars (pos + 1) (advance st))).
Proof.
  intros Hc. cbn [print_string5_loop]. rewrite (i8_char c Hc).
  destruct st as [addr mp b mode pc pn pa po].
  unfold advance, state_of, trace_of.
  destruct (pos =? 3);
    cbv beta iota zeta delta
      [bind begin_data get emit ret set_memory_pointer fst snd app
       _memory_pointer _device_i2c_addr _bitmap_buffer
       _tuner_view_mode s_prev_col s_prev_note_idx s_prev_alt
       s_prev_octave];
    match goal with
    | |- context [print_string5_loop tables chars ?p ?s] =>
        destruct (print_string5_loop tables chars p s) as [[[] s2] t2]
    end; cbn [fst snd]; reflexivity.
Qed.

Lemma advance_pointer st :
  _memory_pointer (advance st) = Int.u8 (_memory_pointer st + 16).
Proof. destruct st. reflexivity. Qed.

Lemma advance_addr st : _device_i2c_addr (advance st) = _device_i2c_addr st.
Proof. destruct st. reflexivity. Qed.

(** The loop away from the split: the glyphs, one after the other. *)
Lemma print_string5_loop_run chars : forall pos st,
  Forall (fun c => 0 < c < 128) chars ->
  3 < pos \/ pos + Z.of_nat (length chars) <= 3 ->
  trace_of (print_string5_loop tables chars pos st)
  = flat_map (glyph tables) chars
  /\ _memory_pointer (state_of (print_string5_loop tables chars pos st))
     = Int.u8 (_memory_pointer st + 16 * Z.of_nat (length chars))
       + (if chars is [] then _memory_pointer st - Int.u8 (_memory_pointer st)
          else 0).
Proof.
  induction chars as [|c chars IH]; intros pos st Hall Hpos.
  - cbn. split; [reflexivity|]. rewrite Z.add_0_r. lia.
  - inversion Hall as [|? ? Hc Hrest]; subst.
    rewrite (print_string5_loop_step c chars pos st Hc).
    rewrite trace_of_mk, state_of_mk.
    destruct (Z.eqb_spec pos 3) as [E|_].
    { cbn [length] in Hpos. lia. }
    destruct (IH (pos + 1) (advance st) Hrest) as [Ht Hm].
    { cbn [length] in Hpos. lia. }
    rewrite Ht, Hm.
    split; [reflexivity|]. rewrite advance_pointer, Z.add_0_r.
    cbn [length].
    destruct chars as [|c' chars'].
    + cbn [length]. unfold Int.u8, Int.wrap_u. rewrite Z.mod_mod by lia.
      rewrite Zplus_mod_idemp_l. 
      replace (_memory_pointer st + 16 + 16 * Z.of_nat 0)
        with (_memory_pointer st + 16 * Z.of_nat 1) by lia. lia.
    + unfold Int.u8, Int.wrap_u. rewrite Zplus_mod_idemp_l.
      rewrite Z.add_0_r. f_equal. lia.
Qed.

(** X11: for a text of characters 1..127, [print_string5] sends the
    glyphs of the first three characters in a transaction at RAM address 0
    and, when there are more, the glyphs of the others in a second
    transaction at RAM address 48; it leaves the memory pointer at 16 times
    the length (modulo 256). *)
Theorem print_string5_layout str st :
  Forall (fun c => 0 < c < 128) (codes_of str) ->
  let cs := codes_of str in
  let addr := _device_i2c_addr st in
  trace_of (print_string5 tables str st)
  = [Begin addr; Write CMD_DISPLAY_DATA_INPUT_COMMAND; Write 0]
    ++ flat_map (glyph tables) (take 3 cs)
    ++ (if (3 <? length cs)%nat
        then [End_; Delay 1;
              Begin addr; Write CMD_DISPLAY_DATA_INPUT_COMMAND; Write 48]
             ++ flat_map (glyph tables) (drop 3 cs)
        else [])
    ++ [End_; Delay 1]
  /\ _memory_pointer (state_of (print_string5 tables str st))
     = Int.u8 (16 * Z.of_nat (length cs)).
Proof.
  intros Hall cs addr. subst addr. fold cs in Hall.
  set (st0 := state_of (set_memory_pointer 0 st)).
  assert (print_string5 tables str st
          = (tt, state_of (print_string5_loop tables cs 0 st0),
             [Begin (_device_i2c_addr st);
              Write CMD_DISPLAY_DATA_INPUT_COMMAND; Write 0]
             ++ trace_of (print_string5_loop tables cs 0 st0)
             ++ [End_; Delay 1])) as ->.
  { unfold print_string5. fold cs. subst st0.
    destruct st as [addr mp b mode pc pn pa po].
    cbv beta iota zeta delta
      [bind begin_data get emit ret set_memory_pointer state_of trace_of
       fst snd app _memory_pointer _device_i2c_addr _bitmap_buffer
       _tuner_view_mode s_prev_col s_prev_note_idx s_prev_alt
       s_prev_octave].
    match goal with
    | |- context [print_string5_loop tables cs 0 ?s] =>
        destruct (print_string5_loop tables cs 0 s) as [[[] s2] t2]
    end. reflexivity. }
  assert (_memory_pointer st0 = 0) as Hmp0 by (destruct st; reflexivity).
  assert (_device_i2c_addr st0 = _device_i2c_addr st) as Ha0
    by (destruct st; reflexivity).
  rewrite trace_of_mk, state_of_mk.
  clearbody cs st0.
  destruct cs as [|c0 [|c1 [|c2 [|c3 rest]]]].
  1-4: destruct (print_string5_loop_run _ 0 st0 Hall) as [Ht Hm];
    [right; cbn; lia|]; rewrite Ht, Hm, Hmp0;
    cbn [take drop length Nat.ltb Nat.leb app]; rewrite ?app_nil_r;
    split; reflexivity.
  inversion Hall as [|? ? H0 Hall1]; subst.
  inversion Hall1 as [|? ? H1 Hall2]; subst.
  inversion Hall2 as [|? ? H2 Hall3]; subst.
  inversion Hall3 as [|? ? H3 Hall4]; subst.
  rewrite (print_string5_loop_step c0 _ 0 st0 H0).
  rewrite trace_of_mk, state_of_mk.
  rewrite (print_string5_loop_step c1 _ (0 + 1) _ H1).
  rewrite trace_of_mk, state_of_mk.
  rewrite (print_string5_loop_step c2 _ (0 + 1 + 1) _ H2).
  rewrite trace_of_mk, state_of_mk.
  rewrite (print_string5_loop_step c3 _ (0 + 1 + 1 + 1) _ H3).
  rewrite trace_of_mk, state_of_mk.
  change (0 =? 3) with false. change (0 + 1 =? 3) with false.
  change (0 + 1 + 1 =? 3) with false. change (0 + 1 + 1 + 1 =? 3) with true.
  cbv iota.
  destruct (print_string5_loop_run rest (0 + 1 + 1 + 1 + 1)
              (advance (advance (advance (advance st0)))) Hall4)
    as [Ht Hm]; [left; lia|].
  rewrite Ht, Hm, !advance_pointer, !advance_addr, Hmp0, Ha0.
  change (Int.u8 (Int.u8 (Int.u8 (0 + 16) + 16) + 16)) with 48.
  change (Int.u8 (48 + 16)) with 64.
  cbn [take drop length Nat.ltb Nat.leb flat_map app].
  split.
  - rewrite <- !app_assoc. cbn [app]. reflexivity.
  - assert ((if rest is [] then 64 - Int.u8 64 else 0) = 0) as ->
      by (destruct rest; reflexivity).
    rewrite Z.add_0_r. f_equal. lia.
Qed.

End Text.

(** *** The note name *)

(** The decimal numeral of an integer. *)
Definition decimal (z : Z) : string := NilEmpty.string_of_int (Z.to_int z).

(** The two characters of a pitch class. *)
Definition pitch_class (i : Z) : string :=
  nth (Z.to_nat i) note_names ""%string.

Lemma note_index_range midi_i :
  0 <= Z.rem (Z.rem midi_i 12 + 12) 12 < 12.
Proof.
  pose proof (Z.rem_bound_abs midi_i 12 ltac:(lia)) as Hb.
  assert (0 < Z.rem midi_i 12 + 12 < 24) as Hr by lia.
  split.
  - apply Z.rem_nonneg; lia.
  - pose proof (Z.rem_bound_pos (Z.rem midi_i 12 + 12) 12 ltac:(lia)
                  ltac:(lia)). lia.
Qed.

Lemma pitch_class_two i :
  0 <= i < 12 ->
  substring 0 2 (pitch_class i) = pitch_class i
  /\ String.length (pitch_class i) = 2%nat.
Proof.
  intros H. unfold pitch_class.
  assert (Z.to_nat i < 12)%nat as Hn by lia.
  generalize dependent (Z.to_nat i). intros n Hn. clear H.
  do 12 (destruct n as [|n]; [split; reflexivity|]).
  exfalso. do 12 (apply Nat.succ_lt_mono in Hn). exact (Nat.nlt_0_r _ Hn).
Qed.

Lemma string_length_app (a b : string) :
  String.length (a ++ b) = (String.length a + String.length b)%nat.
Proof. induction a as [|c a IH]; cbn; [reflexivity|now rewrite IH]. Qed.

Lemma octave_suffix_short o : (String.length (octave_suffix o) <= 3)%nat.
Proof.
  unfold octave_suffix.
  destruct (o <? 0); destruct (_ >=? 10); cbn; lia.
Qed.

(** X12: the name [frequency_to_note] returns has at most five
    characters, for every frequency, reference pitch and logarithm: with
    its terminator it fits the six bytes of the static result buffer. *)
Theorem note_name_fits_buffer logf freq pitch_concert_a :
  (String.length (name (frequency_to_note logf freq pitch_concert_a)) <= 5)%nat.
Proof.
  unfold frequency_to_note.
  destruct (negb (isfinite freq) || ltb freq c_1); [cbn; lia|].
  cbn [name]. unfold note_name.
  set (midi_i := round_midi _).
  pose proof (note_index_range midi_i) as Hr.
  rewrite u8_small by lia.
  fold (pitch_class (Z.rem (Z.rem midi_i 12 + 12) 12)).
  destruct (pitch_class_two _ Hr) as [-> Hlen].
  rewrite string_length_app, Hlen.
  pose proof (octave_suffix_short (Int.i8 (Z.quot midi_i 12 - 1))). lia.
Qed.

Lemma octave_suffix_decimal o :
  -9 <= o <= 19 -> octave_suffix o = decimal o.
Proof.
  intros H.
  assert (exists n, (n < 29)%nat /\ o = Z.of_nat n - 9) as (n & Hn & ->).
  { exists (Z.to_nat (o + 9)). split; lia. }
  clear H.
  do 29 (destruct n as [|n]; [reflexivity|]).
  exfalso. do 29 (apply Nat.succ_lt_mono in Hn). exact (Nat.nlt_0_r _ Hn).
Qed.

(** The name of a note index and octave reached from MIDI number
    [midi_i]. *)
Lemma name_of_midi logf freq pitch_concert_a :
  isfinite freq = true -> ltb freq c_1 = false ->
  let n := frequency_to_note logf freq pitch_concert_a in
  name n
  = (pitch_class (Z.rem (Z.rem (midi_note n) 12 + 12) 12)
     ++ octave_suffix (Int.i8 (Z.quot (midi_note n) 12 - 1)))%string.
Proof.
  intros Hfin Hone. cbv zeta. unfold frequency_to_note.
  rewrite Hfin, Hone. cbn [negb orb name midi_note]. unfold note_name.
  set (midi_i := round_midi _).
  pose proof (note_index_range midi_i) as Hr.
  rewrite u8_small by lia.
  fold (pitch_class (Z.rem (Z.rem midi_i 12 + 12) 12)).
  destruct (pitch_class_two _ Hr) as [-> _]. reflexivity.
Qed.

(** X13: for an accepted frequency whose MIDI number [n] is in 0..251 the
    name is the pitch class of [n mod 12] followed by the decimal numeral of
    the octave [n / 12 - 1] (-1 to 19).  For [n] in -11..-1 the name carries
    the octave -1, where [n / 12 - 1] is -2: C's division truncates toward
    zero. *)
Theorem note_name_spells_midi logf freq pitch_concert_a :
  isfinite freq = true ->
  ltb freq c_1 = false ->
  let n := frequency_to_note logf freq pitch_concert_a in
  (0 <= midi_note n <= 251 ->
   name n = (pitch_class (midi_note n mod 12)
             ++ decimal (midi_note n / 12 - 1))%string)
  /\ (-11 <= midi_note n <= -1 ->
      name n = (pitch_class (midi_note n mod 12) ++ "-1")%string
      /\ midi_note n / 12 - 1 = -2).
Proof.
  intros Hfin Hone n.
  pose proof (name_of_midi logf freq pitch_concert_a Hfin Hone) as E.
  cbv zeta in E. fold n in E. rewrite E. clear E.
  generalize (midi_note n). intros m. split.
  - intros Hm.
    rewrite (Z.rem_mod_nonneg m 12) by lia.
    rewrite Z.quot_div_nonneg by lia.
    pose proof (Z.mod_pos_bound m 12 ltac:(lia)) as Hmod.
    rewrite (Z.rem_mod_nonneg (m mod 12 + 12) 12) by lia.
    replace ((m mod 12 + 12) mod 12) with (m mod 12)
      by (rewrite <- (Z.mod_small (m mod 12) 12) at 1 by lia;
          rewrite <- Z.add_mod_idemp_r by lia; 
          change (12 mod 12) with 0; rewrite Z.add_0_r, Z.mod_mod by lia;
          reflexivity).
    assert (0 <= m / 12 <= 20) as Hq.
    { split; [apply Z.div_pos; lia|].
      apply Z.lt_succ_r, Z.div_lt_upper_bound; lia. }
    rewrite i8_small by lia.
    rewrite octave_suffix_decimal by lia. reflexivity.
  - intros Hm.
    assert (Z.quot m 12 = 0) as -> by (apply Z.quot_small_iff; lia).
    assert (Z.rem m 12 = m) as -> by (apply Z.rem_small_iff; lia).
    rewrite Z.rem_mod_nonneg by lia.
    replace ((m + 12) mod 12) with (m mod 12)
      by (rewrite <- Z.add_mod_idemp_r by lia;
          change (12 mod 12) with 0; rewrite Z.add_0_r; reflexivity).
    split; [reflexivity|].
    assert (m / 12 = -1); [|lia].
    symmetry. apply (Z.div_unique m 12 (-1) (m + 12)); lia.
Qed.

(** [logf] at the two arguments the runs below pass to it: 1, where the
    logarithm is 0, and the binary32 quotient 6 / 440, where the value is
    the binary32 nearest to the natural logarithm, -4.2950153; NaN
    elsewhere. *)
Definition logf_sampled (x : float32) : float32 :=
  match x with
  | S754_finite false m e =>
      if (Zpos m =? 8388608) && (e =? -23) then zero
      else if (Zpos m =? 14641934) && (e =? -30)
      then S754_finite true 9007300 (-21)
      else NaN
  | _ => NaN
  end.

Lemma note_name_spells_midi_witness :
  (midi_note (frequency_to_note logf_sampled c_440 c_440) = 69
   /\ name (frequency_to_note logf_sampled c_440 c_440) = "A 4"%string)
  /\ (midi_note (frequency_to_note logf_sampled (lit 6 1) c_440) = -5
      /\ name (frequency_to_note logf_sampled (lit 6 1) c_440)
         = "G -1"%string).
Proof.
  split.
  - destruct (note_name_spells_midi logf_sampled c_440 c_440 eq_refl eq_refl)
      as [H _].
    split; [reflexivity|].
    rewrite H; [reflexivity|vm_compute; split; discriminate].
  - destruct (note_name_spells_midi logf_sampled (lit 6 1) c_440
                eq_refl eq_refl) as [_ H].
    split; [reflexivity|].
    destruct H as [H _]; [vm_compute; split; discriminate|].
    rewrite H. reflexivity.
Defined.

(** *** The drift display *)

(** The order of two finite floats of the same sign, as [SFcompare]
    decides it. *)
Lemma leb_pos_finite (m1 m2 : positive) (e1 e2 : Z) :
  leb (S754_finite false m1 e1) (S754_finite false m2 e2) = true ->
  e1 < e2 \/ (e1 = e2 /\ Zpos m1 <= Zpos m2).
Proof.
  unfold leb, SFleb. cbn [SFcompare].
  destruct (Z.compare_spec e1 e2) as [E|E|E].
  - rewrite Pos.compare_cont_spec. cbn [Pos.switch_Eq].
    destruct (Pos.compare_spec m1 m2) as [H|H|H];
      intros Hc; try discriminate; right; split; try assumption; lia.
  - intros _. left. exact E.
  - discriminate.
Qed.

Lemma leb_neg_finite (m1 m2 : positive) (e1 e2 : Z) :
  leb (S754_finite true m2 e2) (S754_finite true m1 e1) = true ->
  e1 < e2 \/ (e1 = e2 /\ Zpos m1 <= Zpos m2).
Proof.
  unfold leb, SFleb. cbn [SFcompare].
  destruct (Z.compare_spec e2 e1) as [E|E|E].
  - rewrite Pos.compare_cont_spec. cbn [Pos.switch_Eq].
    destruct (Pos.compare_spec m2 m1) as [H|H|H]; cbn [CompOpp];
      intros Hc; try discriminate; right; split; try (now symmetry); lia.
  - discriminate.
  - intros _. left. lia.
Qed.

Lemma within_clamp (s : bool) (m : positive) (e : Z) :
  leb (neg c_49_99) (S754_finite s m e) = true ->
  leb (S754_finite s m e) c_49_99 = true ->
  e < -18 \/ (e = -18 /\ Zpos m <= 13104579).
Proof.
  destruct s; intros Hlo Hhi.
  - exact (leb_neg_finite m 13104579 e (-18) Hlo).
  - exact (leb_pos_finite m 13104579 e (-18) Hhi).
Qed.

(** Rounding half away from zero, on the quotient by a power of two. *)
Lemma half_away_shift (m k : Z) :
  0 <= m -> 0 <= k ->
  (m / 2 ^ k + 1) / 2 = (2 * m + 2 ^ (k + 1)) / 2 ^ (k + 2).
Proof.
  intros Hm Hk.
  pose proof (F32Facts.pow2_pos k Hk) as Hp.
  replace (k + 2) with (k + 1 + 1) by lia.
  rewrite (F32Facts.pow2_succ (k + 1)) by lia.
  rewrite (F32Facts.pow2_succ k) by lia.
  replace (2 * m + 2 * 2 ^ k) with ((m + 2 ^ k) * 2) by lia.
  replace (2 * (2 * 2 ^ k)) with ((2 ^ k * 2) * 2) by lia.
  rewrite Z.div_mul_cancel_r by lia.
  rewrite <- Z.div_div by lia.
  replace (m + 2 ^ k) with (m + 1 * 2 ^ k) by lia.
  rewrite Z.div_add by lia. reflexivity.
Qed.

(** The integer [roundf] yields on a valid float within the clamp. *)
Lemma roundf_within_clamp (s : bool) (m : positive) (e : Z) :
  canonical_mantissa prec emax m e = true ->
  e < -18 \/ (e = -18 /\ Zpos m <= 13104579) ->
  let r := Z.abs (nearest_away (S754_finite s m e)) in
  0 <= r <= 50
  /\ nearest_away (S754_finite s m e) = cond_Zopp s r
  /\ roundf (S754_finite s m e)
     = (if r =? 0 then S754_zero s else of_Z (cond_Zopp s r)).
Proof.
  intros Hc Hle r.
  pose proof (F32Facts.canonical_digits m e Hc) as [Hm He].
  change (2 ^ 24) with 16777216 in Hm.
  assert (e < 0) as Hneg by lia.
  set (k := - e - 1).
  assert (0 <= k) as Hk by (subst k; lia).
  assert (Z.shiftl (Zpos m) (e + 1) = Zpos m / 2 ^ k) as Hsh.
  { replace (e + 1) with (- k) by (subst k; lia).
    rewrite Z.shiftl_opp_r, Z.shiftr_div_pow2 by lia. reflexivity. }
  assert (nearest_away (S754_finite s m e)
          = cond_Zopp s ((Zpos m / 2 ^ k + 1) / 2)) as Hn.
  { cbn [nearest_away]. destruct (Z.leb_spec 0 e); [lia|]. f_equal.
    rewrite half_away_shift by lia.
    replace (k + 1) with (- e) by (subst k; lia).
    replace (k + 2) with (1 - e) by (subst k; lia). reflexivity. }
  assert (0 <= (Zpos m / 2 ^ k + 1) / 2 <= 50) as Hr.
  { pose proof (F32Facts.pow2_pos k Hk) as Hp.
    assert (0 <= Zpos m / 2 ^ k) by (apply Z.div_pos; lia).
    split; [apply Z.div_pos; lia|].
    apply Z.lt_succ_r, Z.div_lt_upper_bound; [lia|].
    assert (Zpos m / 2 ^ k < 100); [|lia].
    apply Z.div_lt_upper_bound; [lia|].
    assert (2 ^ 17 <= 2 ^ k) as H17 by (apply F32Facts.pow2_le; subst k; lia).
    change (2 ^ 17) with 131072 in H17.
    destruct Hle as [Hlt|[-> Hm']].
    - assert (2 ^ 18 <= 2 ^ k) as H18
        by (apply F32Facts.pow2_le; subst k; lia).
      change (2 ^ 18) with 262144 in H18. lia.
    - lia. }
  assert (r = (Zpos m / 2 ^ k + 1) / 2) as Er.
  { subst r. rewrite Hn. destruct s; cbn [cond_Zopp]; lia. }
  split; [lia|]. split; [rewrite Hn, Er; reflexivity|].
  cbn [roundf]. destruct (Z.leb_spec 0 e); [lia|].
  rewrite Hsh, <- Er. reflexivity.
Qed.

Lemma trunc_of_small (s : bool) (r : Z) :
  0 <= r <= 50 ->
  trunc (if r =? 0 then S754_zero s else of_Z (cond_Zopp s r))
  = cond_Zopp s r
  /\ trunc (div (if r =? 0 then S754_zero s else of_Z (cond_Zopp s r))
                (of_Z 10))
     = Z.quot (cond_Zopp s r) 10.
Proof.
  intros H.
  assert (exists n, (n < 51)%nat /\ r = Z.of_nat n) as (n & Hn & ->)
    by (exists (Z.to_nat r); split; lia).
  clear H.
  do 51 (destruct n as [|n];
         [destruct s; split; vm_compute; reflexivity|]).
  exfalso. do 51 (apply Nat.succ_lt_mono in Hn). exact (Nat.nlt_0_r _ Hn).
Qed.


Section Drift.

Variable tables : rom.

(** One row of a glyph of the small digits font. *)
Definition digit_row (i : Z) (y : nat) : Z :=
  font_small_numbers tables i (Z.of_nat y).

(** The number the numeric view prints (lines 365-380). *)
Lemma numeric_cents drift :
  valid_binary prec emax drift = true ->
  leb (neg c_49_99) drift = true ->
  leb drift c_49_99 = true ->
  let r := Z.abs (nearest_away drift) in
  0 <= r <= 50
  /\ Int.i8 (trunc (roundf (if ltb drift zero then neg drift else drift))) = r.
Proof.
  intros Hv Hlo Hhi r.
  destruct drift as [s|s| |s m e]; try discriminate.
  - subst r. cbn. split; [lia|]. destruct s; reflexivity.
  - destruct s; discriminate.
  - cbn [valid_binary] in Hv. unfold bounded in Hv.
    apply andb_true_iff in Hv as [Hc _].
    pose proof (within_clamp s m e Hlo Hhi) as Hcl.
    assert ((if ltb (S754_finite s m e) zero
             then neg (S754_finite s m e) else S754_finite s m e)
            = S754_finite false m e) as -> by (destruct s; reflexivity).
    destruct (roundf_within_clamp false m e Hc Hcl) as (Hr & _ & ->).
    assert (Z.abs (nearest_away (S754_finite false m e)) = r) as E.
    { subst r. cbn [nearest_away]. destruct s; cbn [cond_Zopp]; lia. }
    rewrite E in *.
    split; [exact Hr|].
    destruct (trunc_of_small false r Hr) as [-> _]. cbn [cond_Zopp].
    apply i8_small. lia.
Qed.

(** X14: in the numeric view, for a valid drift within the clamp
    [-49.99, 49.99], [print_drift] sends the sign glyph (11 when the drift
    is below zero, 10 otherwise) and then the glyphs of the tens and units
    of the drift's magnitude rounded to the nearest integer, halves away
    from zero; that integer is at most 50. *)
Theorem numeric_drift_digits drift st :
  _tuner_view_mode st = numeric ->
  valid_binary prec emax drift = true ->
  leb (neg c_49_99) drift = true ->
  leb drift c_49_99 = true ->
  let r := Z.abs (nearest_away drift) in
  let sign := if ltb drift zero then 11 else 10 in
  r <= 50
  /\ trace_of (print_drift tables drift st)
     = [Begin (_device_i2c_addr st); Write CMD_DISPLAY_DATA_INPUT_COMMAND;
        Write (_memory_pointer st)]
       ++ map (fun y => Write (digit_row sign y)) (seq 0 5)
       ++ [Write 0; Write 0; Write 0]
       ++ map (fun y => Write (Z.lor (Int.u8 (Z.shiftl (digit_row (r / 10) y) 4))
                                     (digit_row (r mod 10) y)))
              (seq 0 5)
       ++ [Write 0; Write 0; Write 0; End_; Delay 1].
Proof.
  intros Hmode Hv Hlo Hhi r sign.
  destruct (numeric_cents drift Hv Hlo Hhi) as [Hr Hc]. fold r in Hr, Hc.
  split; [lia|].
  destruct st as [addr mp b mode pc pn pa po]. cbn in Hmode. subst mode.
  unfold print_drift, bind, get, begin_data, emit, trace_of.
  cbn [_tuner_view_mode _device_i2c_addr _memory_pointer fst snd].
  rewrite Hc.
  assert (Int.u8 (Z.rem (Z.quot r 10) 10) = r / 10) as ->.
  { rewrite Z.quot_div_nonneg by lia.
    assert (0 <= r / 10 <= 5).
    { split; [apply Z.div_pos; lia|].
      apply Z.lt_succ_r, Z.div_lt_upper_bound; lia. }
    rewrite Z.rem_small by lia. apply u8_small. lia. }
  assert (Int.u8 (Z.rem r 10) = r mod 10) as ->.
  { rewrite Z.rem_mod_nonneg by lia.
    pose proof (Z.mod_pos_bound r 10 ltac:(lia)). apply u8_small. lia. }
  subst sign. unfold digit_row. cbn [app seq map]. reflexivity.
Qed.

(** X15: for a valid drift within the clamp [-49.99, 49.99] the bar-graph
    mask lights exactly the bits between the centre bit 5 and bit [5 + k],
    both included, where [k] in -5..5 is the drift rounded to the nearest
    integer and divided by ten toward zero. *)
Theorem bar_graph_mask drift :
  valid_binary prec emax drift = true ->
  leb (neg c_49_99) drift = true ->
  leb drift c_49_99 = true ->
  let k := Z.quot (nearest_away drift) 10 in
  -5 <= k <= 5
  /\ bar_mask_of drift = 2 ^ (Z.max 5 (5 + k) + 1) - 2 ^ Z.min 5 (5 + k).
Proof.
  intros Hv Hlo Hhi k.
  assert (-50 <= nearest_away drift <= 50
          /\ Int.i8 (trunc (div (roundf drift) (of_Z 10))) = k) as [Hn Hk].
  { destruct drift as [s|s| |s m e]; try discriminate.
    - subst k. split; [cbn; lia|]. destruct s; reflexivity.
    - destruct s; discriminate.
    - cbn [valid_binary] in Hv. unfold bounded in Hv.
      apply andb_true_iff in Hv as [Hc _].
      pose proof (within_clamp s m e Hlo Hhi) as Hcl.
      destruct (roundf_within_clamp s m e Hc Hcl) as (Hr & Hna & ->).
      destruct (trunc_of_small s _ Hr) as [_ ->].
      subst k.
      generalize dependent (Z.abs (nearest_away (S754_finite s m e))).
      intros r Hr Hna. rewrite Hna.
      split; [destruct s; cbn [cond_Zopp]; lia|].
      apply i8_small.
      assert (-5 <= Z.quot (cond_Zopp s r) 10 <= 5); [|lia].
      destruct s; cbn [cond_Zopp].
      + rewrite Z.quot_opp_l by lia. rewrite Z.quot_div_nonneg by lia.
        assert (0 <= r / 10 <= 5); [|lia].
        split; [apply Z.div_pos; lia|].
        apply Z.lt_succ_r, Z.div_lt_upper_bound; lia.
      + rewrite Z.quot_div_nonneg by lia.
        assert (0 <= r / 10 <= 5); [|lia].
        split; [apply Z.div_pos; lia|].
        apply Z.lt_succ_r, Z.div_lt_upper_bound; lia. }
  assert (-5 <= k <= 5) as Hrange.
  { subst k. split.
    - apply Z.quot_le_lower_bound; lia.
    - apply Z.quot_le_upper_bound; lia. }
  split; [exact Hrange|].
  unfold bar_mask_of. rewrite Hk. clearbody k. clear - Hrange.
  assert (k = -5 \/ k = -4 \/ k = -3 \/ k = -2 \/ k = -1 \/ k = 0
          \/ k = 1 \/ k = 2 \/ k = 3 \/ k = 4 \/ k = 5) as H by lia.
  repeat (destruct H as [->|H]; [reflexivity|]). subst k. reflexivity.
Qed.

End Drift.

(** *** Concrete runs *)

(** A table ROM whose small digits font returns the glyph's index in every
    row, so that a run shows which glyphs were sent. *)
Definition probe : rom :=
  {| Font_6x8 := fun _ _ => 0;
     font_small_numbers := fun i _ => i;
     font_tall6_notes_condensed := fun _ _ => 0;
     font_tall6_alterations := fun _ _ => 0;
     font_micro_numbers := fun _ _ => 0;
     font_keyboard := repeat 0 40 |}.

Lemma cursor_leaves_one_pixel_witness :
  let st' :=
    state_of (draw_all logf_coarse erased c_440 [middle_c; c_440] initial) in
  (s_prev_col st' = -1 /\ _bitmap_buffer st' = repeat 0 40)
  \/ (0 <= s_prev_col st' <= 27
      /\ _bitmap_buffer st' = toggled (repeat 0 40) (s_prev_col st')
      /\ toggled (_bitmap_buffer st') (s_prev_col st') = repeat 0 40).
Proof.
  apply (cursor_leaves_one_pixel logf_coarse erased c_440 [middle_c; c_440]
           (repeat 0 40) initial); reflexivity.
Defined.

Lemma print_string5_layout_witness :
  _memory_pointer (state_of (print_string5 erased "MUTED" initial)) = 80.
Proof.
  destruct (print_string5_layout erased "MUTED" initial) as [_ H].
  - cbn. repeat constructor; lia.
  - rewrite H. reflexivity.
Defined.

Lemma numeric_drift_digits_witness :
  trace_of (print_drift probe (lit (-375) 10) (with_mode numeric initial))
  = [Begin 104; Write 128; Write 0]
    ++ repeat (Write 11) 5 ++ repeat (Write 0) 3
    ++ repeat (Write 56) 5 ++ repeat (Write 0) 3 ++ [End_; Delay 1].
Proof.
  destruct (numeric_drift_digits probe (lit (-375) 10)
              (with_mode numeric initial)) as [_ H]; [reflexivity..|].
  rewrite H. reflexivity.
Defined.

Lemma bar_graph_mask_witness :
  bar_mask_of (lit 375 10) = 480 /\ bar_mask_of (lit (-375) 10) = 60.
Proof.
  split.
  - destruct (bar_graph_mask (lit 375 10)) as [_ H]; [reflexivity..|].
    rewrite H. reflexivity.
  - destruct (bar_graph_mask (lit (-375) 10)) as [_ H]; [reflexivity..|].
    rewrite H. reflexivity.
Defined.

End HTMore.

(** * Properties of the driver's settings *)

Module HALProps.
Import HT HAL HTProps IntMore.

Section Device.

Variable bus_status : Z -> Z -> Z.
Variable font_open_termin_logo : Z -> Z.

(** The bus traffic of one [send_cmd] call. *)
Definition command (addr opcode mode : Z) : list wire :=
  [Begin addr; Write opcode; Write mode; End_; Delay 1].

(** The duty [set_pwm_value] sends for the argument [pwm]. *)
Definition duty (pwm : Z) : Z := Z.min (Int.u8 pwm) 15.

Lemma duty_range pwm : 0 <= duty pwm <= 15.
Proof. unfold duty. pose proof (u8_range pwm). lia. Qed.

Lemma set_pwm_value_run pwm d :
  set_pwm_value bus_status pwm d
  = (Int.u8 (bus_status CMD_PWM_DUTY (duty pwm)),
     device_of (store_pwm (duty pwm) d),
     command (_device_i2c_addr (renderer d)) CMD_PWM_DUTY (duty pwm)).
Proof.
  unfold set_pwm_value, duty.
  destruct (Z.gtb_spec (Int.u8 pwm) 15).
  - rewrite Z.min_r by lia. destruct d. reflexivity.
  - rewrite Z.min_l by lia. destruct d. reflexivity.
Qed.

(** X16: [UpdateRegisters] puts the chip in standby, sends the stored
    blink, cascade, COM-pin and PWM settings in this order, clears the
    display RAM and switches the display on last; the PWM duty it sends and
    stores is at most 15 whatever was stored. *)
Theorem update_registers_sequence d :
  let addr := _device_i2c_addr (renderer d) in
  dtrace_of (UpdateRegisters bus_status d)
  = command addr CMD_SYSTEM_MODE (power_code POWER_STANDBY)
    ++ command addr CMD_BLINK_FREQUENCY (blink_code (_blink_setting d))
    ++ command addr CMD_CASCADE (cascade_code (_cascade_mode d))
    ++ command addr CMD_COM_OPTION (com_pins_code (_com_pins_mode d))
    ++ command addr CMD_PWM_DUTY (duty (_pwm_setting d))
    ++ clear_traffic addr
    ++ command addr CMD_SYSTEM_MODE (power_code POWER_ON)
  /\ 0 <= duty (_pwm_setting d) <= 15
  /\ device_of (UpdateRegisters bus_status d)
     = {| renderer :=
            state_of (set_memory_pointer 0
                        (state_of (set_bitmap_buffer (repeat 0 40)
                                     (renderer d))));
          _pwm_setting := duty (_pwm_setting d);
          _com_pins_mode := _com_pins_mode d;
          _blink_setting := _blink_setting d;
          _power_mode := POWER_ON;
          _cascade_mode := _cascade_mode d |}.
Proof.
  cbv zeta. split; [|split; [apply duty_range|]].
  - unfold UpdateRegisters.
    destruct d as [[addr mp b mode pc pn pa po] pwm com blink pow casc].
    cbv beta iota zeta delta
      [dbind lift dget demit dret set_power_mode set_blink_mode
       set_cascade_mode set_com_pins_mode store_power store_blink
       store_cascade store_com_pins send_cmd set_memory_pointer
       renderer _pwm_setting _com_pins_mode _blink_setting _power_mode
       _cascade_mode fst snd _device_i2c_addr dtrace_of].
    rewrite set_pwm_value_run, clear_display_run. reflexivity.
  - unfold UpdateRegisters.
    destruct d as [[addr mp b mode pc pn pa po] pwm com blink pow casc].
    cbv beta iota zeta delta
      [dbind lift dget demit dret set_power_mode set_blink_mode
       set_cascade_mode set_com_pins_mode store_power store_blink
       store_cascade store_com_pins send_cmd set_memory_pointer
       renderer _pwm_setting _com_pins_mode _blink_setting _power_mode
       _cascade_mode fst snd _device_i2c_addr device_of].
    rewrite set_pwm_value_run, clear_display_run. reflexivity.
Qed.

(** The device [ResetDefaults] leaves, whatever it was. *)
Definition defaults (d : device) : device :=
  {| renderer :=
       {| _device_i2c_addr := HT1635_I2C_ADDRESS;
          _memory_pointer := 0;
          _bitmap_buffer := repeat 0 40;
          _tuner_view_mode := _tuner_view_mode (renderer d);
          s_prev_col := s_prev_col (renderer d);
          s_prev_note_idx := s_prev_note_idx (renderer d);
          s_prev_alt := s_prev_alt (renderer d);
          s_prev_octave := s_prev_octave (renderer d) |};
     _pwm_setting := 0;
     _com_pins_mode := PIN_P_MOS;
     _blink_setting := BLINK_OFF;
     _power_mode := POWER_ON;
     _cascade_mode := RC_MASTERMODE_0 |}.

(** X17: [ResetDefaults] sends the same bytes and leaves the same settings
    (address 0x68, P-MOS, no blink, RC master mode, duty 0, display on,
    cleared frame buffer) whatever the object's state was; running it again
    changes nothing. *)
Theorem reset_defaults_from_any_state d :
  dtrace_of (ResetDefaults bus_status d)
  = command 104 CMD_SYSTEM_MODE 2
    ++ command 104 CMD_BLINK_FREQUENCY 0
    ++ command 104 CMD_CASCADE 4
    ++ command 104 CMD_COM_OPTION 1
    ++ command 104 CMD_PWM_DUTY 0
    ++ clear_traffic 104
    ++ command 104 CMD_SYSTEM_MODE 3
  /\ device_of (ResetDefaults bus_status d) = defaults d
  /\ device_of (ResetDefaults bus_status (defaults d)) = defaults d.
Proof.
  assert (forall d,
            ResetDefaults bus_status d
            = (tt, defaults d,
               command 104 CMD_SYSTEM_MODE 2
               ++ command 104 CMD_BLINK_FREQUENCY 0
               ++ command 104 CMD_CASCADE 4
               ++ command 104 CMD_COM_OPTION 1
               ++ command 104 CMD_PWM_DUTY 0
               ++ clear_traffic 104
               ++ command 104 CMD_SYSTEM_MODE 3)) as H.
  { intros [[addr mp b mode pc pn pa po] pwm com blink pow casc].
    reflexivity. }
  rewrite !H. repeat split; reflexivity.
Qed.

(** One step of the fade-in: the duty, then the pause. *)
Definition fade_step (addr level : Z) : list wire :=
  command addr CMD_PWM_DUTY level ++ [Delay 200].

(** X18: [display_startup_logo] sends the logo while the PWM duty is 0,
    then raises the duty from 0 to 15, one step every 200 ms, and waits
    another 200 ms; it leaves the duty at 15 and the logo in the frame
    buffer. *)
Theorem startup_logo_fades_in d :
  let addr := _device_i2c_addr (renderer d) in
  let logo := map (fun i => font_open_termin_logo (Z.of_nat i)) (seq 0 40) in
  dtrace_of (display_startup_logo bus_status font_open_termin_logo d)
  = command addr CMD_PWM_DUTY 0
    ++ bitmap_traffic addr logo
    ++ flat_map (fun level => fade_step addr (Z.of_nat level)) (seq 0 16)
    ++ [Delay 200]
  /\ _pwm_setting
       (device_of (display_startup_logo bus_status font_open_termin_logo d))
     = 15
  /\ _bitmap_buffer
       (renderer
          (device_of (display_startup_logo bus_status font_open_termin_logo d)))
     = logo.
Proof.
  intros addr logo. subst addr logo.
  destruct d as [[addr mp b mode pc pn pa po] pwm com blink pow casc].
  repeat split; reflexivity.
Qed.

End Device.

End HALProps.

(** * Properties of the user interface *)

Module MainProps.
Import HT HAL Main HTProps IntMore HALProps.
Local Open Scope ui_scope.

(** The settings a user chooses in the menu, and the Theremin's state. *)
Definition settings (u : ui)
    : float32 * tuner_view_mode_t * theremin_state_t :=
  (_concert_reference_a u,
   _tuner_view_mode (renderer (ht_display u)),
   _theremin_state u).

Definition is_bus (e : effect) : bool :=
  match e with Bus _ => true | _ => false end.

Definition is_menu_item (s : theremin_status_display_t) : bool :=
  match s with
  | tuner_view
  | parameter_change_view_temporary_enter
  | parameter_change_view_temporary_wait => false
  | _ => true
  end.

(** The page a short press leads to from a menu item. *)
Definition menu_next (s : theremin_status_display_t)
    : theremin_status_display_t :=
  match s with
  | menu_item_cal_enter => menu_item_pitch_display_mode_numeric
  | menu_item_pitch_display_mode_numeric => menu_item_pitch_display_mode_bar
  | menu_item_pitch_display_mode_bar => menu_item_pitch_display_mode_keyboard
  | menu_item_pitch_display_mode_keyboard => menu_item_concert_a_440
  | menu_item_concert_a_440 => menu_item_concert_a_445
  | menu_item_concert_a_445 => menu_item_concert_a_430
  | menu_item_concert_a_430 => menu_item_concert_a_432
  | menu_item_concert_a_432 => tuner_view
  | s => s
  end.

(** The Concert A a menu item stands for. *)
Definition concert_a_of (s : theremin_status_display_t) : option float32 :=
  match s with
  | menu_item_concert_a_440 => Some c_440
  | menu_item_concert_a_445 => Some c_445
  | menu_item_concert_a_430 => Some c_430
  | menu_item_concert_a_432 => Some c_432
  | _ => None
  end.

(** The view mode a menu item stands for. *)
Definition view_mode_of (s : theremin_status_display_t)
    : option tuner_view_mode_t :=
  match s with
  | menu_item_pitch_display_mode_numeric => Some numeric
  | menu_item_pitch_display_mode_bar => Some bar_graph
  | menu_item_pitch_display_mode_keyboard => Some piano_view
  | _ => None
  end.

(** What a call does besides driving the display. *)
Definition off_bus (es : list effect) : list effect :=
  filter (fun e => negb (is_bus e)) es.

Definition is_serial (e : effect) : bool :=
  match e with SerialWrite _ => true | _ => false end.

(** What a status byte from the Theremin board leaves: the Theremin's
    state, the page, and the text shown. *)
Definition status_byte (b : Z)
    : option (theremin_state_t * theremin_status_display_t * string) :=
  if b =? STATE_CMD_MUTE
  then Some (muted, parameter_change_view_temporary_wait, "MUTED"%string)
  else if b =? STATE_CMD_UNMUTE
  then Some (playing, parameter_change_view_temporary_wait, "PLAY!"%string)
  else if b =? STATE_CMD_CALIBRATION
  then Some (calibrating, parameter_change_view_temporary_wait, "-CAL-"%string)
  else if b =? STATE_CMD_CALIBRATION_SUCCESS
  then Some (playing, parameter_change_view_temporary_wait, "CALOK"%string)
  else if b =? STATE_CMD_CALIBRATION_ERROR
  then Some (muted, menu_item_cal_enter, "CALER"%string)
  else None.

(** The bus traffic of a status byte: the text, with the blink command
    that calibration adds to it. *)
Definition status_traffic (b addr : Z) (text : list wire) : list wire :=
  if b =? STATE_CMD_CALIBRATION
  then text ++ command addr CMD_BLINK_FREQUENCY (blink_code BLINK_1Hz)
  else if (b =? STATE_CMD_CALIBRATION_SUCCESS)
          || (b =? STATE_CMD_CALIBRATION_ERROR)
  then command addr CMD_BLINK_FREQUENCY (blink_code BLINK_OFF) ++ text
  else text.

(** The text of the feedback for a Register or a Timbre byte. *)
Definition parameter_text (b : Z) : string :=
  if b =? 16 then "OCT-1"
  else if b =? 17 then "OCT+0"
  else if b =? 18 then "OCT+1"
  else ("WAV " ++ String (char_of (b - 128 + 48)) EmptyString)%string.

(** The bytes of the serial protocol that [loop] acts on. *)
Definition known_command (b : Z) : bool :=
  (b =? STATE_CMD_MUTE) || (b =? STATE_CMD_UNMUTE)
  || (b =? STATE_CMD_CALIBRATION) || (b =? STATE_CMD_CALIBRATION_SUCCESS)
  || (b =? STATE_CMD_CALIBRATION_ERROR)
  || (b =? STATE_CMD_BUTTON_SHORT_PRESS) || (b =? STATE_CMD_BUTTON_LONG_PRESS)
  || ((STATE_CMD_REGISTER_LOW <=? b) && (b <=? STATE_CMD_REGISTER_HIGH))
  || ((STATE_CMD_WAVEFORM_BASE <=? b) && (b <=? STATE_CMD_WAVEFORM_BASE + 9)).

Section UI.

Variable logf : float32 -> float32.
Variable tables : rom.
Variable bus_status : Z -> Z -> Z.

(** X19: a short press on a menu page leads to the next page (the last
    page, A432, leads back to the tuner view); it changes neither the
    Concert A, nor the view mode, nor the Theremin's state, and it writes
    nothing to the EEPROM or to the serial line: all it does is drive the
    display. *)
Theorem short_press_walks_menu u :
  is_menu_item (_display_status u) = true ->
  let r := handle_user_action tables true u in
  _display_status (ui_of r) = menu_next (_display_status u)
  /\ settings (ui_of r) = settings u
  /\ forallb is_bus (effects_of r) = true.
Proof.
  intros Hitem.
  destruct u as [[[addr mp b mode pc pn pa po] pwm com blink pow casc]
                   ts ds ps pv ref t1 t2].
  cbn [_display_status] in Hitem. cbv zeta.
  destruct ds; try discriminate Hitem; clear Hitem; destruct mode;
    cbv -[concert_a_is];
    repeat match goal with
           | |- context [concert_a_is ?a ?b] => destruct (concert_a_is a b)
           end;
    repeat split; reflexivity.
Qed.

(** X20: a long press on a Concert A page sets the reference pitch to the
    page's value, stores that value in the EEPROM at address 1 (its only
    effect besides the display) and returns to the tuner view.  The stored
    value passes the validation of [settings_read] at the next start, and
    among the four values the test that [display_menu] uses for the
    selection mark [<] holds for the chosen one alone. *)
Theorem long_press_sets_concert_a u a :
  concert_a_of (_display_status u) = Some a ->
  let r := handle_user_action tables false u in
  _concert_reference_a (ui_of r) = a
  /\ _display_status (ui_of r) = tuner_view
  /\ off_bus (effects_of r)
     = [EepromPut EEPROM_CONCERT_REF_A_ADDRESS (StoredFloat a)]
  /\ (forall byte0 u',
        _concert_reference_a (ui_of (settings_read tables byte0 a u')) = a)
  /\ (forall s b, concert_a_of s = Some b ->
        concert_a_is a b = true <-> b = a).
Proof.
  intros Hitem.
  destruct u as [[[addr mp b mode pc pn pa po] pwm com blink pow casc]
                   ts ds ps pv ref t1 t2].
  cbn [_display_status] in Hitem. cbv zeta.
  split; [|split; [|split; [|split]]].
  - destruct ds; try discriminate Hitem; injection Hitem as <-;
      destruct mode; reflexivity.
  - destruct ds; try discriminate Hitem; destruct mode; reflexivity.
  - destruct ds; try discriminate Hitem; injection Hitem as <-;
      destruct mode; vm_compute; reflexivity.
  - intros byte0 u'. destruct u'.
    destruct ds; try discriminate Hitem; injection Hitem as <-;
      unfold settings_read, ubind, ui_of;
      match goal with
      | |- context [on_display ?c ?x] => destruct (on_display c x) as [[? []] ?]
      end; reflexivity.
  - intros s b0 Hs.
    destruct ds; try discriminate Hitem; injection Hitem as <-;
      destruct s; try discriminate Hs; injection Hs as <-;
      split; intros H; try reflexivity; try discriminate H.
Qed.

(** X21: a long press on a view-mode page switches the display to the
    page's mode, stores the mode's code in the EEPROM at address 0 (its only
    effect besides the display), keeps the Concert A and returns to the
    tuner view; [settings_read] restores the same mode from the stored
    byte. *)
Theorem long_press_sets_view_mode u m :
  view_mode_of (_display_status u) = Some m ->
  let r := handle_user_action tables false u in
  _tuner_view_mode (renderer (ht_display (ui_of r))) = m
  /\ _display_status (ui_of r) = tuner_view
  /\ _concert_reference_a (ui_of r) = _concert_reference_a u
  /\ off_bus (effects_of r)
     = [EepromPut EEPROM_TUNER_VIEW_MODE_ADDRESS (StoredByte (mode_code m))]
  /\ (forall stored_ref u',
        _tuner_view_mode
          (renderer (ht_display
             (ui_of (settings_read tables (mode_code m) stored_ref u'))))
        = m).
Proof.
  intros Hitem.
  destruct u as [[[addr mp b mode pc pn pa po] pwm com blink pow casc]
                   ts ds ps pv ref t1 t2].
  cbn [_display_status] in Hitem. cbv zeta.
  split; [|split; [|split; [|split]]].
  - destruct ds; try discriminate Hitem; injection Hitem as <-; reflexivity.
  - destruct ds; try discriminate Hitem; reflexivity.
  - destruct ds; try discriminate Hitem; reflexivity.
  - destruct ds; try discriminate Hitem; injection Hitem as <-;
      vm_compute; reflexivity.
  - intros stored_ref
      [[[addr' mp' b' mode' pc' pn' pa' po'] pwm' com' blink' pow' casc']
         ts' ds' ps' pv' ref' t1' t2'].
    destruct ds; try discriminate Hitem; injection Hitem as <-; reflexivity.
Qed.

(** The reference pitch [settings_read] accepts. *)
Definition validated (stored_ref : float32) : float32 :=
  if ltb stored_ref CONCERT_A_MIN || gtb stored_ref CONCERT_A_MAX
  then CONCERT_A_DEFAULT else stored_ref.

Lemma settings_read_reference byte0 stored_ref u :
  _concert_reference_a (ui_of (settings_read tables byte0 stored_ref u))
  = validated stored_ref.
Proof.
  unfold settings_read, ubind, ui_of.
  match goal with
  | |- context [on_display ?c ?x] => destruct (on_display c x) as [[? []] ?]
  end. reflexivity.
Qed.

Lemma validated_range stored_ref :
  validated stored_ref = NaN /\ stored_ref = NaN
  \/ leb CONCERT_A_MIN (validated stored_ref) = true
     /\ leb (validated stored_ref) CONCERT_A_MAX = true.
Proof.
  unfold validated.
  destruct (ltb stored_ref CONCERT_A_MIN) eqn:Hlo; cbn [orb];
    [right; split; reflexivity|].
  destruct (gtb stored_ref CONCERT_A_MAX) eqn:Hhi;
    [right; split; reflexivity|].
  destruct (is_nan stored_ref) eqn:Hn.
  - left. destruct stored_ref; try discriminate. split; reflexivity.
  - right. split.
    + apply F32Facts.not_ltb_geb; [exact Hn|reflexivity|exact Hlo].
    + apply F32Facts.not_gtb_leb; [exact Hn|reflexivity|exact Hhi].
Qed.

(** X22: whatever the EEPROM holds, after [settings_read] the reference
    pitch is in [300, 600] Hz, or it is the NaN that was stored (no
    comparison rejects a NaN); the reference the renderer works with is in
    [300, 600] Hz in both cases.  The view mode is the stored one when the
    stored byte, read as [int8_t], is 0, 1 or 2, and the piano view
    otherwise. *)
Theorem settings_read_validates byte0 stored_ref u :
  let u' := ui_of (settings_read tables byte0 stored_ref u) in
  let ref := _concert_reference_a u' in
  (ref = NaN /\ stored_ref = NaN
   \/ leb CONCERT_A_MIN ref = true /\ leb ref CONCERT_A_MAX = true)
  /\ leb CONCERT_A_MIN (effective_reference ref) = true
  /\ leb (effective_reference ref) CONCERT_A_MAX = true
  /\ _tuner_view_mode (renderer (ht_display u'))
     = (if (0 <=? Int.i8 byte0) && (Int.i8 byte0 <? 3)
        then mode_of_code (Int.i8 byte0) else piano_view).
Proof.
  intros u' ref. subst ref u'. rewrite settings_read_reference.
  pose proof (validated_range stored_ref) as Hr.
  split; [exact Hr|].
  assert (leb CONCERT_A_MIN (effective_reference (validated stored_ref)) = true
          /\ leb (effective_reference (validated stored_ref)) CONCERT_A_MAX
             = true) as [H1 H2].
  { destruct Hr as [[-> _]|[Hlo Hhi]]; [split; reflexivity|].
    destruct (validated stored_ref) as [s|s| |s m e].
    - destruct s; discriminate Hlo.
    - destruct s; [discriminate Hlo|discriminate Hhi].
    - discriminate Hlo.
    - destruct s; [discriminate Hlo|]. split; assumption. }
  split; [exact H1|]. split; [exact H2|].
  destruct u as [[[addr mp b mode pc pn pa po] pwm com blink pow casc]
                   ts ds ps pv ref t1 t2].
  unfold settings_read.
  destruct (Z.ltb_spec (Int.i8 byte0) 0) as [Hneg|Hpos].
  - destruct (Z.leb_spec 0 (Int.i8 byte0)); [lia|]. reflexivity.
  - destruct (Z.leb_spec 0 (Int.i8 byte0)); [|lia]. cbn [orb andb].
    destruct (Z.geb_spec (Int.i8 byte0) 3) as [Hge|Hlt].
    + destruct (Z.ltb_spec (Int.i8 byte0) 3); [lia|]. reflexivity.
    + destruct (Z.ltb_spec (Int.i8 byte0) 3); [|lia].
      destruct (mode_of_code (Int.i8 byte0)); reflexivity.
Qed.

(** X24: a received byte that is not one of the seven commands, a
    register value 0x10..0x12 or a waveform value 0x80..0x89 is dropped:
    the serial dispatch of [loop] changes nothing and draws nothing. *)
Theorem unknown_bytes_are_ignored b u :
  known_command b = false ->
  on_serial tables bus_status b u = (tt, u, []).
Proof.
  unfold known_command. intros H.
  repeat (apply orb_false_iff in H as [H ?]).
  unfold on_serial.
  repeat match goal with
         | E : (b =? ?c) = false |- _ => rewrite E; clear E
         end.
  replace (b >=? STATE_CMD_REGISTER_LOW)
    with (STATE_CMD_REGISTER_LOW <=? b) by (symmetry; apply Z.geb_leb).
  replace (b >=? STATE_CMD_WAVEFORM_BASE)
    with (STATE_CMD_WAVEFORM_BASE <=? b) by (symmetry; apply Z.geb_leb).
  repeat match goal with
         | E : (_ && _) = false |- _ => rewrite E; clear E
         end.
  reflexivity.
Qed.

(** X26: on the waiting page, a menu text, and any text shown while the
    Theremin calibrates, stays: the page update does nothing, however much
    time has passed. *)
Theorem held_message_stays t raw u :
  _display_status u = parameter_change_view_temporary_wait ->
  _theremin_state u = calibrating \/ _parameter_display_status u = menu_txt ->
  refresh logf tables t raw u = (tt, u, []).
Proof.
  intros Hd Hheld. unfold refresh, ubind, uget. rewrite Hd.
  destruct Hheld as [->| ->]; [|reflexivity].
  rewrite orb_true_r. reflexivity.
Qed.

Lemma update_display_mode st :
  _tuner_view_mode (state_of (update_display tables st)) = _tuner_view_mode st.
Proof.
  destruct st as [addr mp b mode pc pn pa po]. destruct mode; reflexivity.
Qed.

(** The page with the display redrawn for the tuner view. *)
Definition redrawn (u : ui) : ui :=
  {| ht_display :=
       {| renderer := state_of (update_display tables (renderer (ht_display u)));
          _pwm_setting := _pwm_setting (ht_display u);
          _com_pins_mode := _com_pins_mode (ht_display u);
          _blink_setting := _blink_setting (ht_display u);
          _power_mode := _power_mode (ht_display u);
          _cascade_mode := _cascade_mode (ht_display u) |};
     _theremin_state := _theremin_state u;
     _display_status := tuner_view;
     _parameter_display_status := _parameter_display_status u;
     _parameter_value := _parameter_value u;
     _concert_reference_a := _concert_reference_a u;
     tuner_view_update_old_tick := tuner_view_update_old_tick u;
     parameter_view_update_old_tick := parameter_view_update_old_tick u |}.

Lemma restore_tuner_view_run u :
  restore_tuner_view tables u
  = (tt, redrawn u,
     map Bus (trace_of (update_display tables (renderer (ht_display u))))).
Proof.
  unfold restore_tuner_view, ubind, set_display_status, on_display, lift,
    redrawn, state_of, trace_of.
  cbn [ht_display renderer _theremin_state _display_status
       _parameter_display_status _parameter_value _concert_reference_a
       tuner_view_update_old_tick parameter_view_update_old_tick
       _pwm_setting _com_pins_mode _blink_setting _power_mode _cascade_mode].
  destruct (update_display tables (renderer (ht_display u))) as [[[] st'] tr].
  reflexivity.
Qed.

(** The page after the temporary display has run out. *)
Definition expired (u : ui) : ui :=
  redrawn
    (ui_of (set_parameter_display_status none
              (ui_of (set_display_status tuner_view u)))).

Lemma refresh_wait t raw u :
  _display_status u = parameter_change_view_temporary_wait ->
  refresh logf tables t raw u
  = if kind_is_menu_txt (_parameter_display_status u)
       || match _theremin_state u with calibrating => true | _ => false end
    then (tt, u, [])
    else if Int.u32 (t - parameter_view_update_old_tick u)
            >? UI_TEMPORARY_PARAMETER_DISPLAY_MS
    then (tt, expired u,
          map Bus (trace_of (update_display tables (renderer (ht_display u)))))
    else (tt, u, []).
Proof.
  intros Hd. unfold refresh, ubind at 1, uget. rewrite Hd.
  destruct (kind_is_menu_txt _ || _); [reflexivity|].
  destruct (_ >? _); [|reflexivity].
  cbv beta iota zeta delta
    [ubind set_display_status set_parameter_display_status].
  rewrite restore_tuner_view_run. unfold expired.
  destruct u as [[[addr mp b mode pc pn pa po] pwm com blink pow casc]
                   ts ds ps pv ref t1 t2].
  reflexivity.
Qed.

(** X27: on the waiting page, outside calibration and menu texts, the page
    update does nothing until more than 1800 ms (in [uint32_t] arithmetic)
    have passed since the display clock was set; then it returns to the
    tuner view, redraws the display for the current view mode and keeps the
    settings. *)
Theorem temporary_display_expires t raw u :
  _display_status u = parameter_change_view_temporary_wait ->
  _theremin_state u <> calibrating ->
  _parameter_display_status u <> menu_txt ->
  let elapsed := Int.u32 (t - parameter_view_update_old_tick u) in
  let r := refresh logf tables t raw u in
  (elapsed <= UI_TEMPORARY_PARAMETER_DISPLAY_MS -> r = (tt, u, []))
  /\ (elapsed > UI_TEMPORARY_PARAMETER_DISPLAY_MS ->
      _display_status (ui_of r) = tuner_view
      /\ _parameter_display_status (ui_of r) = none
      /\ settings (ui_of r) = settings u
      /\ effects_of r
         = map Bus (trace_of (update_display tables (renderer (ht_display u))))).
Proof.
  intros Hd Hts Hps elapsed r. subst r elapsed.
  rewrite (refresh_wait t raw u Hd).
  assert (kind_is_menu_txt (_parameter_display_status u)
          || match _theremin_state u with calibrating => true | _ => false end
          = false) as ->.
  { destruct (_parameter_display_status u), (_theremin_state u);
      try reflexivity; contradiction. }
  split; intros Hel.
  - destruct (Z.gtb_spec (Int.u32 (t - parameter_view_update_old_tick u))
                         UI_TEMPORARY_PARAMETER_DISPLAY_MS); [lia|reflexivity].
  - destruct (Z.gtb_spec (Int.u32 (t - parameter_view_update_old_tick u))
                         UI_TEMPORARY_PARAMETER_DISPLAY_MS); [|lia].
    unfold ui_of, effects_of, settings, expired, redrawn. cbn [fst snd].
    cbn [ht_display renderer _theremin_state _display_status
         _parameter_display_status _parameter_value _concert_reference_a
         tuner_view_update_old_tick parameter_view_update_old_tick fst snd
         _pwm_setting _com_pins_mode _blink_setting _power_mode
         _cascade_mode set_display_status set_parameter_display_status].
    rewrite update_display_mode. repeat split; reflexivity.
Qed.

(** X23: the only bytes a button press sends to the Theremin board are
    the mute toggle, for a short press in the tuner view (UNMUTE when muted,
    MUTE when playing, nothing during calibration), and the calibration
    request, for a long press on the CAL page. *)
Theorem presses_and_the_serial_line shortPress u :
  filter is_serial (effects_of (handle_user_action tables shortPress u))
  = match _display_status u, shortPress with
    | tuner_view, true =>
        match _theremin_state u with
        | muted => [SerialWrite STATE_CMD_UNMUTE]
        | playing => [SerialWrite STATE_CMD_MUTE]
        | calibrating => []
        end
    | menu_item_cal_enter, false => [SerialWrite STATE_CMD_CALIBRATION]
    | _, _ => []
    end.
Proof.
  destruct u as [[[addr mp b mode pc pn pa po] pwm com blink pow casc]
                   ts ds ps pv ref t1 t2].
  cbn [_display_status _theremin_state].
  destruct ds, shortPress; try destruct ts; destruct mode;
    cbv -[concert_a_is];
    repeat match goal with
           | |- context [concert_a_is ?a ?b] => destruct (concert_a_is a b)
           end;
    reflexivity.
Qed.

Lemma freq_read_silence t_ok t_chk meter :
  Freq.s_newCap meter = false \/ Freq.s_prevIcr32 meter <> 0 ->
  Int.u32 (Int.u32 t_chk
           - Freq.s_lastOkMs (snd (Freq.freq_read t_ok t_chk meter)))
    > Freq.NO_SIGNAL_TIMEOUT_MS ->
  fst (Freq.freq_read t_ok t_chk meter) = Freq.NO_SIGNAL.
Proof.
  intros Hbranch Hlate.
  destruct (Freq.s_newCap meter) eqn:Hcap.
  - destruct Hbranch as [?|Hprev]; [discriminate|].
    rewrite (FreqProps.freq_read_period t_ok t_chk meter Hcap Hprev) in *.
    cbn [fst snd] in *. now apply FreqProps.timeout_check_elapsed.
  - rewrite (FreqProps.freq_read_no_capture t_ok t_chk meter Hcap) in *.
    cbn [fst snd] in *. now apply FreqProps.timeout_check_elapsed.
Qed.

(** X28: in the tuner view, a pass of [loop] that is due for a redraw and
    in which [freq_read] times out (without taking its priming return)
    shows the placeholder text, in every view mode, and sends nothing
    else. *)
Theorem silence_shows_placeholder t_ok t_chk t meter u :
  _display_status u = tuner_view ->
  Int.u32 (Int.u32 t - tuner_view_update_old_tick u) > UI_UPDATE_DELAY_MS ->
  Freq.s_newCap meter = false \/ Freq.s_prevIcr32 meter <> 0 ->
  Int.u32 (Int.u32 t_chk
           - Freq.s_lastOkMs (snd (Freq.freq_read t_ok t_chk meter)))
    > Freq.NO_SIGNAL_TIMEOUT_MS ->
  effects_of (loop logf tables bus_status t_ok t_chk t None meter u)
  = map Bus (placeholder_traffic tables
               (_device_i2c_addr (renderer (ht_display u)))).
Proof.
  intros Hd Hdue Hbranch Hlate.
  pose proof (freq_read_silence t_ok t_chk meter Hbranch Hlate) as Hraw.
  unfold loop. destruct (Freq.freq_read t_ok t_chk meter) as [raw meter'].
  cbn [fst] in Hraw. subst raw.
  unfold ubind at 1 2. unfold uret at 1 2. cbn [app].
  unfold refresh, ubind at 1, uget. rewrite Hd.
  destruct (Z.gtb_spec (Int.u32 (Int.u32 t - tuner_view_update_old_tick u))
                       UI_UPDATE_DELAY_MS); [|lia].
  unfold render_pitch_and_drift.
  change (ltb Freq.NO_SIGNAL MIN_VALID_FREQ) with true. cbv iota.
  destruct u as [[[addr mp b mode pc pn pa po] pwm com blink pow casc]
                   ts ds ps pv ref t1 t2].
  unfold ubind, set_tuner_tick, on_display, lift, effects_of.
  cbn [ht_display renderer fst snd]. rewrite print_placeholder_run.
  cbn [app _device_i2c_addr]. rewrite app_nil_r. reflexivity.
Qed.

(** X25: each of the five status bytes sets the Theremin's state and shows
    its text within the same pass of [loop]; the pass ends on the waiting
    page with the display clock set to the pass's time, except for the
    calibration error, which ends on the CAL page.  The Concert A and the
    view mode are kept, and the bus carries the text, with the blink command
    after it for the start of a calibration and before it for its end. *)
Theorem status_bytes_start_the_clock t_ok t_chk t b meter u st page txt :
  0 <= b < 256 ->
  status_byte b = Some (st, page, txt) ->
  let r := loop logf tables bus_status t_ok t_chk t (Some b) meter u in
  _theremin_state (ui_of r) = st
  /\ _display_status (ui_of r) = page
  /\ _parameter_display_status (ui_of r) = status_msg
  /\ (page = parameter_change_view_temporary_wait ->
      parameter_view_update_old_tick (ui_of r) = Int.u32 t)
  /\ settings (ui_of r)
     = (_concert_reference_a u, _tuner_view_mode (renderer (ht_display u)), st)
  /\ effects_of r
     = map Bus (status_traffic b (_device_i2c_addr (renderer (ht_display u)))
                  (trace_of (print_string5 tables txt
                               (renderer (ht_display u))))).
Proof.
  intros Hb Hs. cbv zeta. unfold loop.
  destruct (Freq.freq_read t_ok t_chk meter) as [raw meter'].
  rewrite u8_small by exact Hb.
  destruct u as [[[addr mp b0 mode pc pn pa po] pwm com blink pow casc]
                   ts ds ps pv ref t1 t2].
  unfold status_byte in Hs.
  destruct (Z.eqb_spec b STATE_CMD_MUTE) as [->|_];
    [injection Hs as <- <- <-; cbv -[Int.u32]; repeat split; reflexivity|].
  destruct (Z.eqb_spec b STATE_CMD_UNMUTE) as [->|_];
    [injection Hs as <- <- <-; cbv -[Int.u32]; repeat split; reflexivity|].
  destruct (Z.eqb_spec b STATE_CMD_CALIBRATION) as [->|_];
    [injection Hs as <- <- <-; cbv -[Int.u32]; repeat split; reflexivity|].
  destruct (Z.eqb_spec b STATE_CMD_CALIBRATION_SUCCESS) as [->|_];
    [injection Hs as <- <- <-; cbv -[Int.u32]; repeat split; reflexivity|].
  destruct (Z.eqb_spec b STATE_CMD_CALIBRATION_ERROR) as [->|_];
    [injection Hs as <- <- <-; cbv -[Int.u32]; repeat split;
     try reflexivity; discriminate|].
  discriminate Hs.
Qed.

(** X29: a Register byte 0x10..0x12 or a Timbre byte 0x80..0x89 is shown
    within the same pass of [loop], whatever page was up: OCT-1, OCT+0 or
    OCT+1 for the register, WAV and the digit for the timbre.  The pass
    ends on the waiting page with the display clock set to the pass's time;
    the Concert A, the view mode and the Theremin's state are kept, and the
    text is all the pass sends. *)
Theorem parameter_bytes_show_value t_ok t_chk t b meter u :
  16 <= b <= 18 \/ 128 <= b <= 137 ->
  let r := loop logf tables bus_status t_ok t_chk t (Some b) meter u in
  _display_status (ui_of r) = parameter_change_view_temporary_wait
  /\ _parameter_display_status (ui_of r) = (if b <=? 18 then octave else timbre)
  /\ parameter_view_update_old_tick (ui_of r) = Int.u32 t
  /\ settings (ui_of r) = settings u
  /\ effects_of r
     = map Bus (trace_of (print_string5 tables (parameter_text b)
                            (renderer (ht_display u)))).
Proof.
  intros Hb. cbv zeta. unfold loop.
  destruct (Freq.freq_read t_ok t_chk meter) as [raw meter'].
  rewrite u8_small by lia.
  destruct u as [[[addr mp b0 mode pc pn pa po] pwm com blink pow casc]
                   ts ds ps pv ref t1 t2].
  assert (b = 16 \/ b = 17 \/ b = 18 \/ b = 128 \/ b = 129 \/ b = 130
          \/ b = 131 \/ b = 132 \/ b = 133 \/ b = 134 \/ b = 135 \/ b = 136
          \/ b = 137) as H by lia.
  clear Hb.
  repeat (destruct H as [->|H];
          [cbv -[Int.u32]; repeat split; reflexivity|]).
  subst b. cbv -[Int.u32]; repeat split; reflexivity.
Qed.

End UI.

(** *** Concrete runs *)

Definition no_status : Z -> Z -> Z := fun _ _ => 0.

(** The power-on globals on page [s]. *)
Definition on_page (s : theremin_status_display_t) : ui :=
  ui_of (set_display_status s power_on).

Lemma short_press_walks_menu_witness :
  _display_status (ui_of (handle_user_action erased true
                            (on_page menu_item_concert_a_432)))
  = tuner_view
  /\ forallb is_bus (effects_of (handle_user_action erased true
                                   (on_page menu_item_concert_a_432)))
     = true.
Proof.
  destruct (short_press_walks_menu erased (on_page menu_item_concert_a_432)
              eq_refl) as (H1 & _ & H3).
  split; [exact H1|exact H3].
Defined.

Lemma long_press_sets_concert_a_witness :
  _concert_reference_a (ui_of (handle_user_action erased false
                                 (on_page menu_item_concert_a_445)))
  = c_445
  /\ concert_a_is c_445 c_440 = false.
Proof.
  destruct (long_press_sets_concert_a erased (on_page menu_item_concert_a_445)
              c_445 eq_refl) as (H1 & _ & _ & _ & H5).
  split; [exact H1|].
  destruct (concert_a_is c_445 c_440) eqn:E; [|reflexivity].
  apply (H5 menu_item_concert_a_440 c_440 eq_refl) in E. discriminate E.
Defined.

Lemma long_press_sets_view_mode_witness :
  off_bus (effects_of (handle_user_action erased false
                         (on_page menu_item_pitch_display_mode_bar)))
  = [EepromPut 0 (StoredByte 1)].
Proof.
  destruct (long_press_sets_view_mode erased
              (on_page menu_item_pitch_display_mode_bar) bar_graph eq_refl)
    as (_ & _ & _ & H & _).
  exact H.
Defined.

Lemma unknown_bytes_are_ignored_witness :
  on_serial erased no_status 65 power_on = (tt, power_on, []).
Proof. apply unknown_bytes_are_ignored. reflexivity. Defined.

Lemma status_bytes_start_the_clock_witness :
  let r := loop no_logf erased no_status 0 0 777 (Some STATE_CMD_CALIBRATION)
             (Freq.freq_init 0) power_on in
  _theremin_state (ui_of r) = calibrating
  /\ parameter_view_update_old_tick (ui_of r) = 777.
Proof.
  destruct (status_bytes_start_the_clock no_logf erased no_status 0 0 777
              STATE_CMD_CALIBRATION (Freq.freq_init 0) power_on
              calibrating parameter_change_view_temporary_wait "-CAL-")
    as (H1 & _ & _ & H4 & _).
  - unfold STATE_CMD_CALIBRATION. lia.
  - reflexivity.
  - split; [exact H1|]. now rewrite H4.
Defined.

(** The waiting page, with the Theremin in state [ts] and the display clock
    set at millisecond [t0]. *)
Definition waiting (ts : theremin_state_t) (t0 : Z) : ui :=
  ui_of (set_parameter_tick t0
           (ui_of (set_parameter_display_status status_msg
                     (ui_of (set_theremin_state ts
                               (on_page parameter_change_view_temporary_wait)))))).

Lemma held_message_stays_witness :
  refresh no_logf erased 1000000 NaN (waiting calibrating 0)
  = (tt, waiting calibrating 0, []).
Proof.
  apply held_message_stays; [reflexivity|left; reflexivity].
Defined.

Lemma temporary_display_expires_witness :
  refresh no_logf erased 2800 NaN (waiting muted 1000)
  = (tt, waiting muted 1000, [])
  /\ _display_status (ui_of (refresh no_logf erased 2801 NaN
                               (waiting muted 1000)))
     = tuner_view.
Proof.
  split.
  - destruct (temporary_display_expires no_logf erased 2800 NaN
                (waiting muted 1000)) as [H _];
      [reflexivity|discriminate|discriminate|].
    apply H. vm_compute. discriminate.
  - destruct (temporary_display_expires no_logf erased 2801 NaN
                (waiting muted 1000)) as [_ H];
      [reflexivity|discriminate|discriminate|].
    apply H. vm_compute. reflexivity.
Defined.

Lemma silence_shows_placeholder_witness :
  effects_of (loop no_logf erased no_status 500 500 500 None
                (FreqProps.tracking 1000 0 false 0) power_on)
  = map Bus (placeholder_traffic erased 104).
Proof.
  apply (silence_shows_placeholder no_logf erased no_status 500 500 500
           (FreqProps.tracking 1000 0 false 0) power_on).
  - reflexivity.
  - vm_compute. reflexivity.
  - left. reflexivity.
  - vm_compute. reflexivity.
Defined.

Lemma parameter_bytes_show_value_witness :
  let r := loop no_logf erased no_status 0 0 42 (Some 131)
             (Freq.freq_init 0) power_on in
  _display_status (ui_of r) = parameter_change_view_temporary_wait
  /\ parameter_view_update_old_tick (ui_of r) = 42
  /\ parameter_text 131 = "WAV 3"%string.
Proof.
  destruct (parameter_bytes_show_value no_logf erased no_status 0 0 42 131
              (Freq.freq_init 0) power_on) as (H1 & _ & H3 & _).
  - right. lia.
  - split; [exact H1|]. split; [now rewrite H3|reflexivity].
Defined.

End MainProps.
